(** * ImageSetsPartitioner: a shallow embedding of
      [niftynet/io/image_sets_partitioner.py]

    The module keeps a table of subject ids with their image file names
    (one column per input section) and a table of partition labels
    (train / validation / inference), both held by a process-wide
    singleton.  The embedding below follows the Python code method by
    method.  Modelling choices:

    - a [pandas.DataFrame] is a list of rows carrying their index label;
      every frame of this module has [subject_id] as its first column
      (it is read with [names=[COLUMN_UNIQ_ID, _]] or is a join on that
      column), so a row stores the subject id apart from the other cells;
    - a cell is a string or a missing value ([None], pandas' [NaN]):
      [read_csv] yields a missing value for an empty field and for the
      fields it reads as null ([NA], [NaN], [null], [N/A], ...), also
      with [dtype=str]; [Series.count()] counts the cells that are not
      missing, and a join matches missing keys with each other;
    - the file system is a finite map from paths to files, a file being
      either the two-column rows [pandas.read_csv] parses it into or
      something on which it raises an exception chosen by the
      environment;
    - Python exceptions are an error monad over the state: an exception
      leaves the attribute assignments made before it in place.  An
      exception is identified with the builtin class it is an instance
      of ([ValueError] for pandas' parser errors, [IOError] for every
      [OSError]), [OtherError] standing for the remaining classes;
    - [tf.logging] calls append to a log kept in the environment;
    - a float is the rational it denotes; [float(x)] and the float
      product [n_total * fraction] round to the nearest binary64 value,
      ties to even, subnormal numbers included ([binary64]).  Overflow to
      infinity is not modelled: it cannot occur in a product of a count
      with a fraction in [0, 1], and a ratio beyond the largest float is
      clamped to 1 like infinity;
    - [random.shuffle] is the exchange loop of the standard library,
      drawing its indices from a generator kept in the environment: a
      stream of draws and the number of draws made so far;
    - the file matcher, which lives in another module, is a parameter of
      the environment: a function from a section to the rows it writes or
      the exception it raises; [write_csv] always succeeds;
    - [look_up_operations], which lives in another module, is modelled
      as the membership check the specification describes. *)

From Stdlib Require Import ZArith QArith Qround Qminmax Lia Ascii String.
From stdpp Require Import gmap strings list fin_maps sorting.

Local Open Scope string_scope.
Local Open Scope list_scope.
Local Open Scope Z_scope.

(** ** Module constants *)

Definition COLUMN_UNIQ_ID : string := "subject_id".
Definition COLUMN_PHASE : string := "phase".
Definition TRAIN : string := "train".
Definition VALID : string := "validation".
Definition INFER : string := "inference".
Definition ALL : string := "all".
Definition SUPPORTED_PHASES : gset string := {[ TRAIN; VALID; INFER; ALL ]}.

(** ** Python values used by the module *)

(** Exceptions, by the builtin class they are instances of: whatever
    [pandas.read_csv] or the file matcher raises is one of these too
    (a parser error is a [ValueError], a file that cannot be opened an
    [IOError]); [OtherError] is any other exception class. *)
Inductive Exn :=
| ValueError | IOError | RuntimeError | TypeError | AttributeError
| OtherError.

#[global] Instance Exn_eq_dec : EqDecision Exn.
Proof. solve_decision. Defined.

Inductive Outcome (A : Type) :=
| Returns (a : A)
| Raises (e : Exn).
Arguments Returns {A} a.
Arguments Raises {A} e.

(** [str.lower] on ASCII strings. *)
Definition lower_ascii (c : ascii) : ascii :=
  let n := nat_of_ascii c in
  if ((65 <=? n) && (n <=? 90))%nat then ascii_of_nat (n + 32) else c.

Fixpoint lower (s : string) : string :=
  match s with
  | EmptyString => EmptyString
  | String c r => String (lower_ascii c) (lower r)
  end.

(** ** Floats *)

(** The integer nearest to [a / b], ties to the even one ([0 < b]). *)
Definition round_half_even (a b : Z) : Z :=
  let q := a / b in
  match 2 * (a mod b) ?= b with
  | Lt => q
  | Gt => q + 1
  | Eq => if Z.even q then q else q + 1
  end.

(** The exponent [e] of the binary64 value nearest to [a / b]
    ([0 < a], [0 < b]): the one with [2^52 <= (a / b) / 2^e < 2^53], and
    [-1074] for the subnormal numbers. *)
Definition binary64_exponent (a b : Z) : Z :=
  let e := Z.log2 a - Z.log2 b - 52 in
  let e := if a * 2 ^ Z.max 0 (- (e + 52)) <? b * 2 ^ Z.max 0 (e + 52)
           then e - 1 else e in
  Z.max e (-1074).

(** The binary64 value nearest to [a / b]: a 53-bit integer times
    [2^e]. *)
Definition binary64_pos (a b : Z) : Q :=
  let e := binary64_exponent a b in
  let m := round_half_even (a * 2 ^ Z.max 0 (- e)) (b * 2 ^ Z.max 0 e) in
  if 0 <=? e then inject_Z (m * 2 ^ e) else Qmake m (Z.to_pos (2 ^ (- e))).

(** Rounding to the nearest float. *)
Definition binary64 (x : Q) : Q :=
  let x := Qred x in
  match Qnum x with
  | Z0 => 0%Q
  | Zpos _ => binary64_pos (Qnum x) (Zpos (Qden x))
  | Zneg p => Qopp (binary64_pos (Zpos p) (Zpos (Qden x)))
  end.

(** The smallest positive float, [2^-1074]. *)
Definition smallest_float : Q := 1 # Z.to_pos (2 ^ 1074).

(** ** Data frames *)

(** A cell: a string or a missing value. *)
Abbreviation Cell := (option string) (only parsing).

Record Row := mkRow {
  row_label : nat;            (* index label *)
  row_id : Cell;              (* the subject_id cell *)
  row_cells : list Cell       (* the other cells, one per column *)
}.

Record DataFrame := mkFrame {
  columns : list string;      (* names of the columns after subject_id *)
  rows : list Row
}.

(** The partition table has the fixed schema (subject_id, phase). *)
Record PhaseRow := mkPhaseRow {
  prow_label : nat;
  prow_id : Cell;
  prow_phase : Cell
}.

Abbreviation PartitionFrame := (list PhaseRow) (only parsing).

(** [df[COLUMN_UNIQ_ID]] *)
Definition subject_ids (df : DataFrame) : list Cell := row_id <$> rows df.

(** [Series.count()]: the number of cells that are not missing. *)
Definition count_cells (cells : list Cell) : Z :=
  Z.of_nat (length (filter (λ c, c ≠ None) cells)).

(** [df[COLUMN_UNIQ_ID].count()] *)
Definition count (df : DataFrame) : Z := count_cells (subject_ids df).

(** [df.size]: number of cells. *)
Definition frame_size (df : DataFrame) : Z :=
  Z.of_nat (length (rows df)) * Z.of_nat (S (length (columns df))).

(** [set(df)]: the set of all column names. *)
Definition column_set (df : DataFrame) : gset string :=
  {[ COLUMN_UNIQ_ID ]} ∪ list_to_set (columns df).

(** A fresh [RangeIndex]: rows labelled 0, 1, 2, ... *)
Definition relabel_from (start : nat) (l : list (Cell * list Cell)) : list Row :=
  imap (λ i r, mkRow (start + i) r.1 r.2) l.

Definition range_index (l : list (Cell * list Cell)) : list Row :=
  relabel_from 0 l.

(** The frame [pandas.read_csv(f, header=None, dtype=(str, str),
    names=[COLUMN_UNIQ_ID, name])] makes of the rows of a file. *)
Definition frame_of_csv (name : string) (csv : list (Cell * Cell)) : DataFrame :=
  mkFrame [name] (range_index ((λ r, (r.1, [r.2])) <$> csv)).

Definition partition_of_csv (csv : list (Cell * Cell)) : PartitionFrame :=
  imap (λ i r, mkPhaseRow i r.1 r.2) csv.

(** The rows of [right] whose key equals the key of [l], in order,
    each appended to [l]; a missing key matches a missing key. *)
Definition join_row (right : list Row) (l : Row) : list (Cell * list Cell) :=
  (λ r, (row_id l, row_cells l ++ row_cells r))
    <$> filter (λ r, row_id r = row_id l) right.

(** The distinct elements of a list, in the order of their first
    occurrence. *)
Fixpoint first_seen {A} `{EqDecision A} (l : list A) : list A :=
  match l with
  | [] => []
  | x :: l' => x :: filter (λ y, y ≠ x) (first_seen l')
  end.

(** The key groups of an inner join: the keys of the left table in the
    order of their first occurrence, the missing key last. *)
Definition key_groups (keys : list Cell) : list Cell :=
  let ks := first_seen keys in
  filter (λ k, k ≠ None) ks ++ filter (λ k, k = None) ks.

(** The left rows in the order in which the join visits them: group by
    group, in their own order within a group. *)
Definition grouped_by_key (l : list Row) : list Row :=
  key_groups (row_id <$> l) ≫= (λ k, filter (λ r, row_id r = k) l).

(** [pandas.merge(left, right, on=COLUMN_UNIQ_ID)]: the inner join, with
    a fresh index.  The joined rows come grouped by key (as pandas
    before 2.2 yields them); when no left key repeats and none is
    missing this is the order of the left rows. *)
Definition merge (left right : DataFrame) : DataFrame :=
  mkFrame (columns left ++ columns right)
          (range_index (grouped_by_key (rows left) ≫= join_row (rows right))).

(** Insertion of a row by index label, before the rows with a larger or
    equal label. *)
Fixpoint insert_by_label (r : Row) (l : list Row) : list Row :=
  match l with
  | [] => [r]
  | x :: l' =>
      if (row_label r <=? row_label x)%nat then r :: l
      else x :: insert_by_label r l'
  end.

(** [df.sort_index()]: rows ordered by index label. *)
Definition sort_index (df : DataFrame) : DataFrame :=
  mkFrame (columns df) (foldr insert_by_label [] (rows df)).

(** Rows in the order of their index labels. *)
Definition label_le (a b : Row) : Prop := (row_label a ≤ row_label b)%nat.

Definition sorted_by_label (df : DataFrame) : Prop :=
  StronglySorted label_le (rows df).



(** One cell of a row by column name. *)
Fixpoint cell_at (cols : list string) (cells : list Cell) (name : string)
  : option Cell :=
  match cols, cells with
  | c :: cols', v :: cells' =>
      if decide (c = name) then Some v else cell_at cols' cells' name
  | _, _ => None
  end.

Definition row_get (cols : list string) (r : Row) (name : string) : option Cell :=
  if decide (name = COLUMN_UNIQ_ID) then Some (row_id r)
  else cell_at cols (row_cells r) name.

(** [df[section_names]] with a list of names: the named columns only,
    index labels kept. *)
Record ColumnView := mkView {
  view_columns : list string;
  view_rows : list (nat * list (option Cell))
}.

Definition select_columns (names : list string) (df : DataFrame) : ColumnView :=
  mkView names
         ((λ r, (row_label r, row_get (columns df) r <$> names)) <$> rows df).

(** What [get_file_list] hands back. *)
Inductive FileList :=
| NoneResult
| Frame (df : DataFrame)
| Columns (v : ColumnView).

(** ** The environment: file system, external collaborators, log *)

(** A file as [pandas.read_csv] sees it: the rows it parses the file
    into, or the exception it raises on it. *)
Inductive File :=
| CsvFile (csv : list (Cell * Cell))
| Unparsable (e : Exn).

(** One input section of the configuration: the [csv_file] attribute
    (absent: [None]), the [path_to_search] attribute (absent: [None]) and
    the remaining properties, which only the file matcher reads. *)
Record SectionCfg := mkSection {
  csv_file : option string;
  path_to_search : option string;
  other_properties : list (string * string)
}.

(** The ratios argument: [None], or a sequence of values on which
    [float] returns a number, raises [ValueError] or raises [TypeError]. *)
Inductive RatioItem :=
| Num (q : Q)
| NotNumeric
| NotConvertible.

Inductive Level := FATAL | WARNING | INFO.

Inductive Message :=
| PleaseInitialise
| NoPartitionIds
| UnableToCreatePartitions (r : option (list RatioItem)) (path : string)
| UnableToLoad (path : string)
| EmptySubset (phase : string)
| NothingToLoad
| RowsNotMatched (section_name : string)
| EmptyFilenameLists
| UnknownSectionName (modality_name : string)
| MissingCsvFileField
| SearchFileFolders (modality_name csv : string)
| UsingExistingCsv (modality_name csv : string)
| CsvNotFound (modality_name csv : string)
| ReprOf (e : Exn)
| UnknownFormatOfFractions (r : option (list RatioItem))
| IgnoringRatios
| Summary.

Record World := mkWorld {
  files : gmap string File;
  (* KeywordsMatching + match_and_write_filenames_to_csv: the rows it
     writes for a section, or the exception it raises *)
  file_matcher : SectionCfg → Outcome (list (Cell * Cell));
  (* the random generator: what its k-th draw yields when asked for an
     index below n, and the number of draws made so far *)
  random_source : nat → nat → nat;
  random_draws : nat;
  log : list (Level * Message)
}.

(** ** The singleton *)

Record ImageSetsPartitioner := mkPartitioner {
  _file_list : option DataFrame;
  _partition_ids : option PartitionFrame;
  data_param : list (string * SectionCfg);
  ratios : option (list RatioItem);
  new_partition : bool;
  data_split_file : string
}.

(** The class attributes before any call. *)
Definition fresh_partitioner : ImageSetsPartitioner :=
  mkPartitioner None None [] None false "".

Record State := mkState {
  self : ImageSetsPartitioner;
  world : World
}.

(** ** State and exception monad *)

Definition M (A : Type) : Type := State → State * Outcome A.

Definition ret {A} (a : A) : M A := λ st, (st, Returns a).

Definition bind {A B} (m : M A) (k : A → M B) : M B :=
  λ st, match m st with
        | (st', Returns a) => k a st'
        | (st', Raises e) => (st', Raises e)
        end.

Definition raise {A} (e : Exn) : M A := λ st, (st, Raises e).

Notation "x <- m ;; k" := (bind m (λ x, k))
  (at level 100, m at next level, right associativity).
Notation "m ;;; k" := (bind m (λ _, k))
  (at level 100, right associativity).

Definition get_self : M ImageSetsPartitioner := λ st, (st, Returns (self st)).
Definition get_world : M World := λ st, (st, Returns (world st)).

Definition modify_self (f : ImageSetsPartitioner → ImageSetsPartitioner) : M unit :=
  λ st, (mkState (f (self st)) (world st), Returns tt).

Definition modify_world (f : World → World) : M unit :=
  λ st, (mkState (self st) (f (world st)), Returns tt).

Definition when (b : bool) (m : M unit) : M unit := if b then m else ret tt.

(** Attribute assignments. *)
Definition set_file_list (v : option DataFrame) (s : ImageSetsPartitioner) :=
  mkPartitioner v (_partition_ids s) (data_param s) (ratios s)
                (new_partition s) (data_split_file s).
Definition set_partition_ids (v : option PartitionFrame) (s : ImageSetsPartitioner) :=
  mkPartitioner (_file_list s) v (data_param s) (ratios s)
                (new_partition s) (data_split_file s).
Definition set_data_param (v : list (string * SectionCfg)) (s : ImageSetsPartitioner) :=
  mkPartitioner (_file_list s) (_partition_ids s) v (ratios s)
                (new_partition s) (data_split_file s).
Definition set_ratios (v : option (list RatioItem)) (s : ImageSetsPartitioner) :=
  mkPartitioner (_file_list s) (_partition_ids s) (data_param s) v
                (new_partition s) (data_split_file s).
Definition set_new_partition (v : bool) (s : ImageSetsPartitioner) :=
  mkPartitioner (_file_list s) (_partition_ids s) (data_param s) (ratios s)
                v (data_split_file s).
Definition set_data_split_file (v : string) (s : ImageSetsPartitioner) :=
  mkPartitioner (_file_list s) (_partition_ids s) (data_param s) (ratios s)
                (new_partition s) v.

(** Changes of the environment. *)
Definition add_log (entries : list (Level * Message)) (w : World) : World :=
  mkWorld (files w) (file_matcher w) (random_source w) (random_draws w)
          (log w ++ entries).
Definition set_file (path : string) (f : File) (w : World) : World :=
  mkWorld (<[path := f]> (files w)) (file_matcher w) (random_source w)
          (random_draws w) (log w).
Definition add_draws (n : nat) (w : World) : World :=
  mkWorld (files w) (file_matcher w) (random_source w) (random_draws w + n)
          (log w).

(** [tf.logging.<level>(msg)] *)
Definition logging (l : Level) (m : Message) : M unit :=
  modify_world (add_log [(l, m)]).

(** [os.path.isfile] *)
Definition isfile (path : string) : M bool :=
  w <- get_world ;; ret (bool_decide (is_Some (files w !! path))).

(** [pandas.read_csv(path, header=None, dtype=(str, str), names=names)]:
    raises [ValueError] when the two column names are the same, and
    whatever the file makes it raise. *)
Definition read_csv (path : string) (names : string * string)
  : M (list (Cell * Cell)) :=
  if decide (names.1 = names.2) then raise ValueError
  else
    w <- get_world ;;
    match files w !! path with
    | Some (CsvFile csv) => ret csv
    | Some (Unparsable e) => raise e
    | None => raise IOError
    end.

(** Modelled from the spec: [write_csv] of [niftynet.utilities.util_csv],
    which is not part of the sources at hand.  The spec has the split
    persisted at the configured path as a two-column file that a later
    run reads back: the file at [path] now holds [rows], a missing
    subject id being written as a field that reads as missing. *)
Definition write_csv (path : string) (csv : list (Cell * Cell)) : M unit :=
  modify_world (set_file path (CsvFile csv)).

(** Modelled from the spec: [KeywordsMatching.from_tuple] followed by
    [match_and_write_filenames_to_csv], which are not part of the sources
    at hand.  The spec has the search (re)write the csv file at the
    declared path, overwriting any prior contents: the rows are those
    the environment's matcher finds for the section, and an exception of
    the matcher propagates before anything is written. *)
Definition match_and_write_filenames_to_csv (cfg : SectionCfg) (path : string)
  : M unit :=
  w <- get_world ;;
  match file_matcher w cfg with
  | Returns matched => write_csv path matched
  | Raises e => raise e
  end.

(** [try: body except Exception as e: handler(e)] *)
Definition try_except {A} (body : M A) (handler : Exn → M A) : M A :=
  λ st, match body st with
        | (st', Returns a) => (st', Returns a)
        | (st', Raises e) => handler e st'
        end.

(** Modelled from the spec: [look_up_operations] of
    [niftynet.utilities.util_common], which is not part of the sources at
    hand.  The spec asks that a queried name be one of the known names,
    else an error: the value is handed back when it belongs to the
    supported set and a [ValueError] is raised otherwise. *)
Definition look_up_operations (type_str : string) (supported : gset string)
  : Outcome string :=
  if decide (type_str ∈ supported) then Returns type_str else Raises ValueError.

(** Modelled from the spec: the same check for a selection of section
    names, which must be a subset of the known columns. *)
Definition look_up_names (names : list string) (supported : gset string)
  : Outcome (list string) :=
  if decide (Forall (λ n, n ∈ supported) names) then Returns names
  else Raises ValueError.

Definition lift {A} (o : Outcome A) : M A := λ st, (st, o).

(** [try: body except (kinds): handler(e)]: only the listed kinds are
    caught. *)
Definition try_only {A} (kinds : list Exn) (body : M A) (handler : Exn → M A) : M A :=
  λ st, match body st with
        | (st', Returns a) => (st', Returns a)
        | (st', Raises e) =>
            if bool_decide (e ∈ kinds) then handler e st' else (st', Raises e)
        end.

(** [x[i], x[j] = x[j], x[i]] *)
Definition swap {A} (i j : nat) (l : list A) : list A :=
  match l !! i, l !! j with
  | Some a, Some b => <[i := b]> (<[j := a]> l)
  | _, _ => l
  end.

(** The loop of [random.shuffle], from index [i] down to 1, the next
    draw being the [k]-th:
    [j = randbelow(i + 1); x[i], x[j] = x[j], x[i]]. *)
Fixpoint shuffle_from {A} (source : nat → nat → nat) (k i : nat) (l : list A)
  : list A :=
  match i with
  | O => l
  | S i' => shuffle_from source (S k) i' (swap i (source k (S i) mod S i) l)
  end.

Definition shuffled {A} (source : nat → nat → nat) (k : nat) (l : list A) : list A :=
  shuffle_from source k (length l - 1) l.

(** [random.shuffle(x)]: one draw for each index from [len(x) - 1] down
    to 1. *)
Definition random_shuffle (x : list string) : M (list string) :=
  w <- get_world ;;
  modify_world (add_draws (length x - 1)) ;;;
  ret (shuffled (random_source w) (random_draws w) x).

(** ** Queries *)

(** [number_of_subjects(phase)]: reads the singleton only. *)
Definition number_of_subjects (s : ImageSetsPartitioner) (phase : string)
  : Outcome Z :=
  match _file_list s with
  | None => Returns 0
  | Some fl =>
      match look_up_operations (lower phase) SUPPORTED_PHASES with
      | Raises e => Raises e
      | Returns phase =>
          match decide (phase = ALL), _partition_ids s with
          | right _, Some ids =>
              Returns (count_cells
                         (prow_id <$> filter (λ r, prow_phase r = Some phase) ids))
          | _, _ => Returns (count fl)
          end
      end
  end.

(** [partition_ids[selector][[COLUMN_UNIQ_ID]]]: the subject_id column of
    the rows labelled [phase]. *)
Definition select_phase (phase : string) (ids : PartitionFrame) : DataFrame :=
  mkFrame [] ((λ r, mkRow (prow_label r) (prow_id r) [])
                <$> filter (λ r, prow_phase r = Some phase) ids).

(** [get_file_list(phase, section_names)]; an empty [section_names]
    is the default (no selection). *)
Definition get_file_list (phase : string) (section_names : list string)
  : M FileList :=
  s <- get_self ;;
  match _file_list s with
  | None => logging FATAL PleaseInitialise ;;; raise RuntimeError
  | Some fl =>
      (match section_names with
       | [] => ret tt
       | _ => _ <- lift (look_up_names section_names (column_set fl)) ;; ret tt
       end) ;;;
      if decide (phase = ALL) then
        let sorted := sort_index fl in
        modify_self (set_file_list (Some sorted)) ;;;
        match section_names with
        | [] => ret (Frame sorted)
        | _ => ret (Columns (select_columns section_names sorted))
        end
      else
        match _partition_ids s with
        | None =>
            logging FATAL NoPartitionIds ;;;
            (if new_partition s then
               logging FATAL (UnableToCreatePartitions (ratios s) (data_split_file s))
             else
               b <- isfile (data_split_file s) ;;
               when b (logging FATAL (UnableToLoad (data_split_file s)))) ;;;
            raise ValueError
        | Some ids =>
            let selected := select_phase phase ids in
            match rows selected with
            | [] => logging WARNING (EmptySubset phase) ;;; ret NoneResult
            | _ =>
                let subset := merge fl selected in
                match section_names with
                | [] => ret (Frame subset)
                | _ => ret (Columns (select_columns section_names subset))
                end
            end
        end
  end.

(** ** Loading the sections *)

(** [self.data_param[name]] *)
Fixpoint dict_get {V} (d : list (string * V)) (k : string) : option V :=
  match d with
  | [] => None
  | (k', v) :: d' => if decide (k' = k) then Some v else dict_get d' k
  end.

(** [hasattr(cfg, 'path_to_search') and cfg.path_to_search] *)
Definition has_path_to_search (cfg : SectionCfg) : bool :=
  match path_to_search cfg with
  | Some p => negb (bool_decide (p = ""))
  | None => false
  end.

Definition grep_files_by_data_section (modality_name : string) : M DataFrame :=
  s <- get_self ;;
  match dict_get (data_param s) modality_name with
  | None => logging FATAL (UnknownSectionName modality_name) ;;; raise ValueError
  | Some cfg =>
      match csv_file cfg with
      | None => logging FATAL MissingCsvFileField ;;; raise AttributeError
      | Some csv_file =>
          (if has_path_to_search cfg then
             logging INFO (SearchFileFolders modality_name csv_file) ;;;
             match_and_write_filenames_to_csv cfg csv_file
           else logging INFO (UsingExistingCsv modality_name csv_file)) ;;;
          b <- isfile csv_file ;;
          if negb b then
            logging FATAL (CsvNotFound modality_name csv_file) ;;; raise IOError
          else
            try_except
              (csv_list <- read_csv csv_file (COLUMN_UNIQ_ID, modality_name) ;;
               ret (frame_of_csv modality_name csv_list))
              (λ csv_error, logging FATAL (ReprOf csv_error) ;;; raise csv_error)
      end
  end.

(** The body of the [for section_name in self.data_param] loop. *)
Definition load_section (section_name : string) : M unit :=
  modality_file_list <- grep_files_by_data_section section_name ;;
  s <- get_self ;;
  match _file_list s with
  | None => modify_self (set_file_list (Some modality_file_list))
  | Some fl =>
      let n_rows := count fl in
      let merged := merge fl modality_file_list in
      modify_self (set_file_list (Some merged)) ;;;
      when (count merged <? n_rows)%Z (logging WARNING (RowsNotMatched section_name))
  end.

Fixpoint load_sections (names : list string) : M unit :=
  match names with
  | [] => ret tt
  | section_name :: names' => load_section section_name ;;; load_sections names'
  end.

Definition load_data_sections_by_subject : M unit :=
  s <- get_self ;;
  match data_param s with
  | [] => logging FATAL NothingToLoad ;;; raise ValueError
  | _ =>
      modify_self (set_file_list None) ;;;
      load_sections (data_param s).*1 ;;;
      s <- get_self ;;
      if match _file_list s with
         | None => true
         | Some fl => (frame_size fl =? 0)%Z
         end
      then logging FATAL EmptyFilenameLists ;;; raise IOError
      else ret tt
  end.

(** ** Splitting *)

(** [max(min(1.0, x), 0.0)] *)
Definition clamp (x : Q) : Q := Qmax (Qmin 1 x) 0.

(** [float(x)] *)
Definition to_float (x : RatioItem) : Outcome Q :=
  match x with
  | Num q => Returns (binary64 q)
  | NotNumeric => Raises ValueError
  | NotConvertible => Raises TypeError
  end.

(** The body of the [try] block: unpacking [self.ratios] into two values
    and clamping each. *)
Definition clamped_fractions (r : option (list RatioItem)) : Outcome (Q * Q) :=
  match r with
  | None => Raises TypeError
  | Some [v; i] =>
      match to_float v with
      | Raises e => Raises e
      | Returns vf =>
          match to_float i with
          | Raises e => Raises e
          | Returns inf => Returns (clamp vf, clamp inf)
          end
      end
  | Some _ => Raises ValueError
  end.

(** [n_total * fraction]: the count is converted to a float and the
    product is rounded. *)
Definition float_product (n_total : Z) (fraction : Q) : Q :=
  binary64 (binary64 (inject_Z n_total) * fraction).

(** [int(math.ceil(n_total * fraction))] *)
Definition ceil_count (n_total : Z) (fraction : Q) : Z :=
  Qceiling (float_product n_total fraction).

(** [[label] * n]: empty when [n] is negative. *)
Definition times (label : string) (n : Z) : list string :=
  replicate (Z.to_nat n) label.

(** [l[:n]] *)
Definition slice_to {A} (n : Z) (l : list A) : list A :=
  if (n <? 0)%Z then take (length l - Z.to_nat (- n)) l
  else take (Z.to_nat n) l.

(** The label list before truncation. *)
Definition concatenated_phases (n_total n_valid n_infer : Z) : list string :=
  let n_train := (n_total - n_infer - n_valid)%Z in
  times TRAIN n_train ++ times VALID n_valid ++ times INFER n_infer.

(** The label list after truncation, before shuffling. *)
Definition truncated_phases (n_total n_valid n_infer : Z) : list string :=
  let phases := concatenated_phases n_total n_valid n_infer in
  if (Z.of_nat (length phases) >? n_total)%Z then slice_to n_total phases
  else phases.

(** [bool(self.ratios)] *)
Definition truthy (r : option (list RatioItem)) : bool :=
  match r with
  | Some (_ :: _) => true
  | _ => false
  end.

Definition randomly_split_dataset (overwrite : bool) : M unit :=
  (if overwrite then
     s <- get_self ;;
     fractions <- try_only [TypeError; ValueError]
                    (lift (clamped_fractions (ratios s)))
                    (λ e, logging FATAL (UnknownFormatOfFractions (ratios s)) ;;;
                          raise e) ;;
     let valid_fraction := fractions.1 in
     let infer_fraction := fractions.2 in
     n_total <- lift (number_of_subjects s ALL) ;;
     let n_valid := ceil_count n_total valid_fraction in
     let n_infer := ceil_count n_total infer_fraction in
     let phases := truncated_phases n_total n_valid n_infer in
     phases <- random_shuffle phases ;;
     match _file_list s with
     | None => raise TypeError
     | Some fl =>
         write_csv (data_split_file s) (zip (subject_ids fl) (Some <$> phases))
     end
   else
     s <- get_self ;;
     when (truthy (ratios s)) (logging WARNING IgnoringRatios)) ;;;
  s <- get_self ;;
  b <- isfile (data_split_file s) ;;
  when b
    (try_except
       (csv <- read_csv (data_split_file s) (COLUMN_UNIQ_ID, COLUMN_PHASE) ;;
        modify_self (set_partition_ids (Some (partition_of_csv csv))))
       (λ csv_error, logging WARNING (ReprOf csv_error))).

(** ** Initialisation *)

Definition initialise (data_param' : list (string * SectionCfg))
    (new_partition' : bool) (data_split_file' : string)
    (ratios' : option (list RatioItem)) : M unit :=
  modify_self (set_data_param data_param') ;;;
  modify_self (set_data_split_file data_split_file') ;;;
  modify_self (set_ratios ratios') ;;;
  modify_self (set_file_list None) ;;;
  modify_self (set_partition_ids None) ;;;
  load_data_sections_by_subject ;;;
  modify_self (set_new_partition new_partition') ;;;
  randomly_split_dataset new_partition' ;;;
  logging INFO Summary.

(** Number of occurrences of a label. *)
Definition occurrences (label : string) (l : list string) : Z :=
  Z.of_nat (length (filter (λ x, x = label) l)).

(** ** Auxiliary notions used by the statements *)

(** The label list a new split shuffles, for [n_total] subjects and the
    ratios [v], [i]. *)
Definition split_labels (n_total : Z) (v i : Q) : list string :=
  truncated_phases n_total (ceil_count n_total (clamp (binary64 v)))
                           (ceil_count n_total (clamp (binary64 i))).

(** The rows persisted by a new split. *)
Definition split_rows (w : World) (fl : DataFrame) (v i : Q) : list (Cell * Cell) :=
  zip (subject_ids fl)
      (Some <$> shuffled (random_source w) (random_draws w)
                         (split_labels (count fl) v i)).

(** What loading section [name] writes at [path]: the matcher's rows when
    the section is searched and its [csv_file] is [path]. *)
Definition section_write (matcher : SectionCfg → Outcome (list (Cell * Cell)))
    (d : list (string * SectionCfg)) (name path : string) : option File :=
  match dict_get d name with
  | Some cfg =>
      match csv_file cfg, has_path_to_search cfg, matcher cfg with
      | Some c, true, Returns matched =>
          if decide (c = path) then Some (CsvFile matched) else None
      | _, _, _ => None
      end
  | None => None
  end.

(** The last write at [path] when the sections [names] are loaded in
    order. *)
Fixpoint last_write (matcher : SectionCfg → Outcome (list (Cell * Cell)))
    (d : list (string * SectionCfg)) (names : list string) (path : string)
  : option File :=
  match names with
  | [] => None
  | name :: names' =>
      match last_write matcher d names' path with
      | Some c => Some c
      | None => section_write matcher d name path
      end
  end.

(** The file system after the writes of [names]. *)
Definition overwritten (matcher : SectionCfg → Outcome (list (Cell * Cell)))
    (d : list (string * SectionCfg)) (names : list string)
    (fs : gmap string File) (path : string) : option File :=
  match last_write matcher d names path with
  | Some c => Some c
  | None => fs !! path
  end.

(** The partition table a split file is read into. *)
Definition read_partition (fs : gmap string File) (path : string)
  : option PartitionFrame :=
  match fs !! path with
  | Some (CsvFile csv) => Some (partition_of_csv csv)
  | _ => None
  end.



(** States that differ by log entries only. *)
Definition with_log (st : State) (entries : list (Level * Message)) : State :=
  mkState (self st) (add_log entries (world st)).

(** What [read_csv] makes of the file of section [name]. *)
Definition section_frame (name : string) (f : File) : Outcome DataFrame :=
  if decide (COLUMN_UNIQ_ID = name) then Raises ValueError
  else match f with
       | CsvFile csv => Returns (frame_of_csv name csv)
       | Unparsable e => Raises e
       end.

(** The log entry of a read that failed. *)
Definition read_failure (o : Outcome DataFrame) : list (Level * Message) :=
  match o with
  | Returns _ => []
  | Raises e => [(FATAL, ReprOf e)]
  end.

(** Every way [grep_files_by_data_section] can end. *)
Inductive grep_result (name : string) (st : State) : State * Outcome DataFrame → Prop :=
| grep_unknown :
    dict_get (data_param (self st)) name = None →
    grep_result name st
      (with_log st [(FATAL, UnknownSectionName name)], Raises ValueError)
| grep_no_csv_field cfg :
    dict_get (data_param (self st)) name = Some cfg →
    csv_file cfg = None →
    grep_result name st
      (with_log st [(FATAL, MissingCsvFileField)], Raises AttributeError)
| grep_matcher_raises cfg c e :
    dict_get (data_param (self st)) name = Some cfg →
    csv_file cfg = Some c →
    has_path_to_search cfg = true →
    file_matcher (world st) cfg = Raises e →
    grep_result name st
      (with_log st [(INFO, SearchFileFolders name c)], Raises e)
| grep_searched cfg c matched :
    dict_get (data_param (self st)) name = Some cfg →
    csv_file cfg = Some c →
    has_path_to_search cfg = true →
    file_matcher (world st) cfg = Returns matched →
    grep_result name st
      (mkState (self st)
               (add_log ((INFO, SearchFileFolders name c)
                         :: read_failure (section_frame name (CsvFile matched)))
                        (set_file c (CsvFile matched) (world st))),
       section_frame name (CsvFile matched))
| grep_not_found cfg c :
    dict_get (data_param (self st)) name = Some cfg →
    csv_file cfg = Some c →
    has_path_to_search cfg = false →
    files (world st) !! c = None →
    grep_result name st
      (with_log st [(INFO, UsingExistingCsv name c); (FATAL, CsvNotFound name c)],
       Raises IOError)
| grep_read cfg c f :
    dict_get (data_param (self st)) name = Some cfg →
    csv_file cfg = Some c →
    has_path_to_search cfg = false →
    files (world st) !! c = Some f →
    grep_result name st
      (with_log st ((INFO, UsingExistingCsv name c)
                    :: read_failure (section_frame name f)),
       section_frame name f).

(** The part of a state that loading and splitting leave alone: the
    configuration attributes, the file matcher and the source of the
    random generator. *)
Definition same_setting (st st' : State) : Prop :=
  data_param (self st') = data_param (self st)
  ∧ ratios (self st') = ratios (self st)
  ∧ new_partition (self st') = new_partition (self st)
  ∧ data_split_file (self st') = data_split_file (self st)
  ∧ file_matcher (world st') = file_matcher (world st)
  ∧ random_source (world st') = random_source (world st).

(** The file list is absent or carries increasing index labels. *)
Definition file_list_indexed (st : State) : Prop :=
  ∀ fl, _file_list (self st) = Some fl → sorted_by_label fl.

(** The singleton as [initialise] sets it before loading anything. *)
Definition reset_state (st : State) (data_param' : list (string * SectionCfg))
    (data_split_file' : string) (ratios' : option (list RatioItem)) : State :=
  mkState (mkPartitioner None None data_param' ratios'
                         (new_partition (self st)) data_split_file')
          (world st).

(** The running table of the merge loop after the tables [tables]. *)
Definition join_onto (acc : option DataFrame) (tables : list DataFrame)
  : option DataFrame :=
  foldl (λ acc t, match acc with
                  | None => Some t
                  | Some fl => Some (merge fl t)
                  end) acc tables.

(** The tables the sections [names] are read into, one call of
    [grep_files_by_data_section] after the other from the environment
    [w], for the configuration held by [s]; the environment afterwards. *)
Fixpoint loaded_tables (s : ImageSetsPartitioner) (names : list string) (w : World)
  : World * Outcome (list DataFrame) :=
  match names with
  | [] => (w, Returns [])
  | name :: names' =>
      match grep_files_by_data_section name (mkState s w) with
      | (st1, Raises e) => (world st1, Raises e)
      | (st1, Returns t) =>
          match loaded_tables s names' (world st1) with
          | (w2, Raises e) => (w2, Raises e)
          | (w2, Returns ts) => (w2, Returns (t :: ts))
          end
      end
  end.


(** The sections for which the log has a rows-not-matched warning. *)
Definition warned (l : list (Level * Message)) : list string :=
  omap (λ entry, match entry with
                 | (WARNING, RowsNotMatched name) => Some name
                 | _ => None
                 end) l.

(** ** Scenarios *)

(** Rows without missing values. *)
Definition present (l : list (string * string)) : list (Cell * Cell) :=
  (λ r, (Some r.1, Some r.2)) <$> l.

(** A section read from an existing csv file, without search. *)
Definition cached (path : string) : SectionCfg := mkSection (Some path) None [].

Definition t1_rows : list (Cell * Cell) :=
  present [("s1", "t1_s1.nii"); ("s2", "t1_s2.nii"); ("s3", "t1_s3.nii")].
Definition t2_rows : list (Cell * Cell) :=
  present [("s2", "t2_s2.nii"); ("s3", "t2_s3.nii"); ("s4", "t2_s4.nii")].
Definition unsorted_rows : list (Cell * Cell) :=
  present [("s2", "t1_s2.nii"); ("s1", "t1_s1.nii")].
Definition t3_rows : list (Cell * Cell) := present [("s9", "t3_s9.nii")].
Definition split_rows_on_disk : list (Cell * Cell) :=
  present [("s2", "train"); ("s3", "validation")].

(** Two scans of subject s1, one of s2. *)
Definition repeated_rows : list (Cell * Cell) :=
  present [("s1", "a_s1.nii"); ("s1", "b_s1.nii"); ("s2", "a_s2.nii")].

(** A file whose second line has an empty subject id field. *)
Definition gap_rows : list (Cell * Cell) :=
  [(Some "s1", Some "t1_s1.nii"); (None, Some "t1_s2.nii")].

(** Ten subjects. *)
Definition ten_rows : list (Cell * Cell) :=
  present [("s0", "s0.nii"); ("s1", "s1.nii"); ("s2", "s2.nii"); ("s3", "s3.nii");
           ("s4", "s4.nii"); ("s5", "s5.nii"); ("s6", "s6.nii"); ("s7", "s7.nii");
           ("s8", "s8.nii"); ("s9", "s9.nii")].

Definition disk : gmap string File :=
  <["t1.csv" := CsvFile t1_rows]>
    (<["t2.csv" := CsvFile t2_rows]>
       (<["t3.csv" := CsvFile t3_rows]>
       (<["unsorted.csv" := CsvFile unsorted_rows]>
          (<["split.csv" := CsvFile split_rows_on_disk]>
             (<["repeated.csv" := CsvFile repeated_rows]>
                (<["gap.csv" := CsvFile gap_rows]>
                   (<["ten.csv" := CsvFile ten_rows]>
                      (<["broken.csv" := Unparsable ValueError]>
                         (<["locked.csv" := Unparsable IOError]> ∅))))))))).

(** An environment whose file matcher finds nothing to do and whose
    random generator yields 0, 1, 2, ... *)
Definition environment : World :=
  mkWorld disk (λ _, Raises OtherError) (λ k _, k) 0 [].

(** The process before any call. *)
Definition start : State := mkState fresh_partitioner environment.

Definition one_section : list (string * SectionCfg) := [("T1", cached "t1.csv")].
Definition two_sections : list (string * SectionCfg) :=
  [("T1", cached "t1.csv"); ("T2", cached "t2.csv")].
Definition disjoint_sections : list (string * SectionCfg) :=
  [("T1", cached "t1.csv"); ("T3", cached "t3.csv")].
Definition missing_cache_sections : list (string * SectionCfg) :=
  [("T1", cached "t1.csv"); ("T9", cached "absent.csv")].
Definition locked_sections : list (string * SectionCfg) :=
  [("T1", cached "t1.csv"); ("T8", cached "locked.csv")].

Definition three_subjects : DataFrame := frame_of_csv "T1" t1_rows.
Definition ten_subjects : DataFrame := frame_of_csv "T1" ten_rows.
Definition gap_subjects : DataFrame := frame_of_csv "T1" gap_rows.

(** Three subjects, ratios that add up to more than one. *)
Definition overlapping_ratios_state : State :=
  mkState (mkPartitioner (Some three_subjects) None one_section
                         (Some [Num (2 # 3); Num (2 # 3)]) true "split.csv")
          environment.

(** Ten subjects, ratios (0.1, 0.1). *)
Definition tenth_ratios_state : State :=
  mkState (mkPartitioner (Some ten_subjects) None [("T1", cached "ten.csv")]
                         (Some [Num (1 # 10); Num (1 # 10)]) true "new.csv")
          environment.

(** One section loaded, no split file: no partition table. *)
Definition unsplit_store : ImageSetsPartitioner :=
  mkPartitioner (Some three_subjects) None one_section None false "missing.csv".

(** The singleton after [initialise(two_sections, False, "split.csv")]. *)
Definition split_store : ImageSetsPartitioner :=
  mkPartitioner (Some (merge three_subjects (frame_of_csv "T2" t2_rows)))
                (Some (partition_of_csv split_rows_on_disk))
                two_sections None false "split.csv".

(** The singleton with one section loaded, about to read a split file
    that cannot be parsed. *)
Definition broken_split_state : State :=
  mkState (mkPartitioner (Some three_subjects) None one_section None false
                         "broken.csv")
          environment.

(** The merge loop after its first iteration over [two_sections]. *)
Definition after_first_section : State :=
  mkState (mkPartitioner (Some three_subjects) None two_sections None false
                         "split.csv")
          (add_log [(INFO, UsingExistingCsv "T1" "t1.csv")] environment).

(** ** Notions used by the further properties *)

(** Every row has one cell per column. *)
Definition rectangular (df : DataFrame) : Prop :=
  Forall (λ r, length (row_cells r) = length (columns df)) (rows df).

(** The index labels of a table. *)
Definition labels (df : DataFrame) : list nat := row_label <$> rows df.

(** No section of the configuration is searched on disk. *)
Definition no_search (d : list (string * SectionCfg)) : Prop :=
  Forall (λ p, has_path_to_search p.2 = false) d.

(** The table a section that is not searched is read into, when its csv
    file exists and parses. *)
Definition cached_table (fs : gmap string File) (d : list (string * SectionCfg))
    (name : string) : option DataFrame :=
  match dict_get d name with
  | Some cfg =>
      match csv_file cfg with
      | Some c =>
          match fs !! c with
          | Some f =>
              match section_frame name f with
              | Returns t => Some t
              | Raises _ => None
              end
          | None => None
          end
      | None => None
      end
  | None => None
  end.

(** A table with the columns [cols], one cell per column in every row
    and the index 0, 1, 2, ...; no table when there is no column yet. *)
Definition well_shaped (cols : list string) (o : option DataFrame) : Prop :=
  match o with
  | None => cols = []
  | Some fl =>
      columns fl = cols ∧ rectangular fl
      ∧ labels fl = seq 0 (length (rows fl))
  end.

(** The three partition labels. *)
Definition three_phases : list string := [TRAIN; VALID; INFER].

(** The subject ids a partition table labels with [phase]. *)
Definition labelled (phase : string) (ids : list PhaseRow) : list Cell :=
  prow_id <$> filter (λ r, prow_phase r = Some phase) ids.

(** The content of a row: its subject id and its cells, without the
    index label. *)
Definition row_content (r : Row) : Cell * list Cell := (row_id r, row_cells r).

(** * Properties *)

(** ** Rounding to a float *)

Section Floats.

Lemma round_half_even_nonneg (a b : Z) : 0 ≤ a → 0 < b → 0 ≤ round_half_even a b.
Proof.
  intros Ha Hb. unfold round_half_even.
  pose proof (Z.div_pos a b Ha Hb).
  destruct (_ ?= _); [destruct (Z.even _)|..]; lia.
Qed.

Lemma round_half_even_exact (a : Z) : round_half_even a 1 = a.
Proof.
  unfold round_half_even. rewrite Z.mod_1_r, Z.div_1_r. reflexivity.
Qed.

Lemma binary64_pos_nonneg (a b : Z) : 0 < a → 0 < b → (0 <= binary64_pos a b)%Q.
Proof.
  intros Ha Hb. unfold binary64_pos.
  set (e := binary64_exponent a b).
  assert (Hm : 0 ≤ round_half_even (a * 2 ^ Z.max 0 (- e)) (b * 2 ^ Z.max 0 e)).
  { apply round_half_even_nonneg.
    - apply Z.mul_nonneg_nonneg; [lia|]. apply Z.pow_nonneg. lia.
    - apply Z.mul_pos_pos; [lia|]. apply Z.pow_pos_nonneg; lia. }
  destruct (0 <=? e) eqn:E.
  - apply Z.leb_le in E. change 0%Q with (inject_Z 0). rewrite <- Zle_Qle.
    apply Z.mul_nonneg_nonneg; [done|]. apply Z.pow_nonneg. lia.
  - unfold Qle. cbn. lia.
Qed.

Lemma binary64_nonneg (x : Q) : (0 <= x)%Q → (0 <= binary64 x)%Q.
Proof.
  intros Hx. unfold binary64.
  assert (Hred : (0 <= Qred x)%Q) by by rewrite Qred_correct.
  destruct (Qred x) as [n d]. cbn [Qnum Qden].
  destruct n as [|p|p].
  - apply Qle_refl.
  - by apply binary64_pos_nonneg.
  - unfold Qle in Hred. cbn in Hred. lia.
Qed.

Lemma binary64_proper (x y : Q) : (x == y)%Q → binary64 x = binary64 y.
Proof. intros H. unfold binary64. by rewrite (Qred_complete x y H). Qed.

Lemma binary64_zero : binary64 0 = 0%Q.
Proof. reflexivity. Qed.

Lemma binary64_exponent_int (n : Z) :
  0 < n → n < 2 ^ 53 → binary64_exponent n 1 = Z.log2 n - 52 ∧ Z.log2 n - 52 ≤ 0.
Proof.
  intros Hn Hlt.
  pose proof (Z.log2_nonneg n) as Hlog.
  assert (Hlog' : Z.log2 n < 53) by (apply Z.log2_lt_pow2; lia).
  destruct (Z.log2_spec n Hn) as [Hlo _].
  unfold binary64_exponent. change (Z.log2 1) with 0.
  replace (Z.log2 n - 0 - 52 + 52) with (Z.log2 n) by lia.
  rewrite (Z.max_l 0 (- Z.log2 n)), (Z.max_r 0 (Z.log2 n)) by lia.
  rewrite Z.pow_0_r, Z.mul_1_r, Z.mul_1_l.
  rewrite (proj2 (Z.ltb_ge _ _) Hlo). lia.
Qed.

Lemma Qred_inject_Z (n : Z) : Qred (inject_Z n) = inject_Z n.
Proof.
  unfold Qred, inject_Z.
  pose proof (Z.ggcd_gcd n 1) as Hg.
  pose proof (Z.ggcd_correct_divisors n 1) as Hd.
  destruct (Z.ggcd n 1) as [g [aa bb]]. cbn [fst snd] in *.
  rewrite Z.gcd_1_r in Hg. subst g. destruct Hd as [-> Hbb].
  rewrite Z.mul_1_l in Hbb. subst bb. by rewrite Z.mul_1_l.
Qed.

(** A count below [2^53] converts to a float exactly. *)
Lemma binary64_int (n : Z) :
  0 ≤ n → n < 2 ^ 53 → (binary64 (inject_Z n) == inject_Z n)%Q.
Proof.
  intros Hn Hlt. unfold binary64.
  rewrite Qred_inject_Z.
  cbn [inject_Z Qnum Qden].
  destruct n as [|p|p]; [reflexivity| |lia].
  destruct (binary64_exponent_int (Z.pos p)) as [He Hle]; [lia|done|].
  unfold binary64_pos. rewrite He.
  set (e := Z.log2 (Z.pos p) - 52) in *.
  rewrite (Z.max_r 0 (- e)), (Z.max_l 0 e) by lia.
  rewrite Z.pow_0_r, Z.mul_1_l, round_half_even_exact.
  destruct (0 <=? e) eqn:E.
  - apply Z.leb_le in E. assert (e = 0) as -> by lia.
    change (- 0) with 0. by rewrite Z.pow_0_r, !Z.mul_1_r.
  - unfold Qeq. cbn [Qnum Qden].
    cbn [inject_Z Qnum Qden].
    rewrite Z2Pos.id by (apply Z.pow_pos_nonneg; lia). ring.
Qed.

Lemma round_half_even_ge_one (a b : Z) : 0 < b → b ≤ a → 1 ≤ round_half_even a b.
Proof.
  intros Hb Hab. unfold round_half_even.
  assert (1 ≤ a / b) by (apply Z.div_le_lower_bound; lia).
  destruct (_ ?= _); [destruct (Z.even _)|..]; lia.
Qed.

Lemma binary64_exponent_ge (a b : Z) : -1074 ≤ binary64_exponent a b.
Proof. unfold binary64_exponent. apply Z.le_max_r. Qed.

Lemma binary64_exponent_le (a b : Z) :
  binary64_exponent a b = -1074
  ∨ binary64_exponent a b ≤ Z.log2 a - Z.log2 b - 52.
Proof.
  unfold binary64_exponent. destruct (_ <? _); lia.
Qed.

(** A ratio at or above the smallest float does not round to zero. *)
Lemma binary64_pos_positive (a b : Z) :
  0 < a → 0 < b → b ≤ a * 2 ^ 1074 → (0 < binary64_pos a b)%Q.
Proof.
  intros Ha Hb Hsmall. unfold binary64_pos.
  pose proof (binary64_exponent_ge a b) as Hge.
  pose proof (binary64_exponent_le a b) as Hle.
  set (e := binary64_exponent a b) in *.
  destruct (Z.log2_spec a Ha) as [Hla _], (Z.log2_spec b Hb) as [_ Hlb].
  pose proof (Z.log2_nonneg a) as Hla0. pose proof (Z.log2_nonneg b) as Hlb0.
  assert (Hm : 1 ≤ round_half_even (a * 2 ^ Z.max 0 (- e)) (b * 2 ^ Z.max 0 e)).
  { apply round_half_even_ge_one.
    - apply Z.mul_pos_pos; [done|]. apply Z.pow_pos_nonneg; lia.
    - destruct (decide (0 ≤ e)) as [He|He].
      + rewrite (Z.max_l 0 (- e)), (Z.max_r 0 e) by lia.
        rewrite Z.pow_0_r, Z.mul_1_r.
        destruct Hle as [Hle|Hle]; [lia|].
        trans (2 ^ Z.succ (Z.log2 b) * 2 ^ e).
        * apply Z.mul_le_mono_nonneg_r; [apply Z.pow_nonneg|]; lia.
        * rewrite <- Z.pow_add_r by lia. etrans; [|exact Hla].
          apply Z.pow_le_mono_r; lia.
      + rewrite (Z.max_r 0 (- e)), (Z.max_l 0 e) by lia.
        rewrite Z.pow_0_r, Z.mul_1_r.
        destruct Hle as [Hle|Hle]; [by rewrite Hle|].
        trans (2 ^ Z.succ (Z.log2 b)); [lia|].
        trans (2 ^ Z.log2 a * 2 ^ (- e)).
        * rewrite <- Z.pow_add_r by lia. apply Z.pow_le_mono_r; lia.
        * apply Z.mul_le_mono_nonneg_r; [apply Z.pow_nonneg|]; lia. }
  destruct (0 <=? e) eqn:E.
  - apply Z.leb_le in E. change 0%Q with (inject_Z 0). rewrite <- Zlt_Qlt.
    apply Z.mul_pos_pos; [lia|]. apply Z.pow_pos_nonneg; lia.
  - unfold Qlt. cbn [Qnum Qden]. lia.
Qed.

Lemma binary64_positive (x : Q) : (smallest_float <= x)%Q → (0 < binary64 x)%Q.
Proof.
  intros Hx. unfold binary64.
  assert (Hred : (smallest_float <= Qred x)%Q) by by rewrite Qred_correct.
  destruct (Qred x) as [a b]. unfold smallest_float, Qle in Hred.
  cbn [Qnum Qden] in *.
  rewrite Z2Pos.id in Hred by (apply Z.pow_pos_nonneg; lia).
  assert (Hpow : 0 < 2 ^ 1074) by (apply Z.pow_pos_nonneg; lia).
  destruct a as [|p|p]; [lia| |lia].
  apply binary64_pos_positive; lia.
Qed.

(** A positive float is at least the smallest one. *)
Lemma binary64_pos_smallest (a b : Z) :
  0 < a → 0 < b → (0 < binary64_pos a b)%Q →
  (smallest_float <= binary64_pos a b)%Q.
Proof.
  intros Ha Hb. unfold binary64_pos.
  pose proof (binary64_exponent_ge a b) as Hge.
  set (e := binary64_exponent a b) in *.
  set (m := round_half_even _ _).
  assert (Hpow : 0 < 2 ^ 1074) by (apply Z.pow_pos_nonneg; lia).
  destruct (0 <=? e) eqn:E.
  - apply Z.leb_le in E. change 0%Q with (inject_Z 0). rewrite <- Zlt_Qlt.
    intros Hpos. unfold smallest_float, Qle. cbn [Qnum Qden inject_Z].
    rewrite Z2Pos.id by done. nia.
  - apply Z.leb_gt in E. unfold Qlt, smallest_float, Qle. cbn [Qnum Qden].
    rewrite !Z2Pos.id by (apply Z.pow_pos_nonneg; lia).
    intros Hpos.
    assert (2 ^ (- e) ≤ 2 ^ 1074) by (apply Z.pow_le_mono_r; lia).
    nia.
Qed.

Lemma binary64_smallest (x : Q) :
  (0 < binary64 x)%Q → (smallest_float <= binary64 x)%Q.
Proof.
  unfold binary64. destruct (Qred x) as [a b]. cbn [Qnum Qden].
  destruct a as [|p|p].
  - intros H. by apply Qlt_irrefl in H.
  - by apply binary64_pos_smallest.
  - intros H. exfalso.
    pose proof (binary64_pos_nonneg (Z.pos p) (Z.pos b) ltac:(done) ltac:(done))
      as Hnn.
    apply (Qopp_le_compat 0) in Hnn. change (- 0)%Q with 0%Q in Hnn.
    eapply Qlt_irrefl, Qlt_le_trans; [exact H | exact Hnn].
Qed.

Lemma smallest_float_le_one : (smallest_float <= 1)%Q.
Proof.
  unfold smallest_float, Qle. cbn [Qnum Qden].
  rewrite Z2Pos.id by (apply Z.pow_pos_nonneg; lia).
  assert (0 < 2 ^ 1074) by (apply Z.pow_pos_nonneg; lia). lia.
Qed.

Lemma smallest_float_pos : (0 < smallest_float)%Q.
Proof. reflexivity. Qed.

End Floats.

(** ** The label list *)

Section Phases.

Lemma clamp_bounds (x : Q) : (0 <= clamp x)%Q ∧ (clamp x <= 1)%Q.
Proof.
  unfold clamp. split.
  - apply Q.le_max_r.
  - apply Q.max_lub; [apply Q.le_min_l | discriminate].
Qed.

Lemma float_product_nonneg (n_total : Z) (fraction : Q) :
  0 ≤ n_total → (0 <= fraction)%Q → (0 <= float_product n_total fraction)%Q.
Proof.
  intros Hn H0. unfold float_product. apply binary64_nonneg.
  apply Qmult_le_0_compat; [|done]. apply binary64_nonneg.
  change 0%Q with (inject_Z 0). by rewrite <- Zle_Qle.
Qed.

(** A count is never negative. *)
Lemma ceil_count_nonneg (n_total : Z) (fraction : Q) :
  0 ≤ n_total → (0 <= fraction)%Q → 0 ≤ ceil_count n_total fraction.
Proof.
  intros Hn H0. unfold ceil_count.
  change 0 with (Qceiling (inject_Z 0)).
  apply Qceiling_resp_le. change (inject_Z 0) with 0%Q.
  by apply float_product_nonneg.
Qed.

Lemma length_times (label : string) (n : Z) :
  length (times label n) = Z.to_nat n.
Proof. apply length_replicate. Qed.

Lemma length_concatenated (n_total n_valid n_infer : Z) :
  length (concatenated_phases n_total n_valid n_infer)
  = (Z.to_nat (n_total - n_infer - n_valid) + Z.to_nat n_valid + Z.to_nat n_infer)%nat.
Proof.
  unfold concatenated_phases. rewrite !length_app, !length_times. lia.
Qed.

Lemma slice_to_nonneg {A} (n : Z) (l : list A) :
  0 ≤ n → slice_to n l = take (Z.to_nat n) l.
Proof.
  intros Hn. unfold slice_to.
  destruct (n <? 0) eqn:E; [apply Z.ltb_lt in E; lia | done].
Qed.

(** The truncated list has exactly [n_total] labels, whatever the two
    counts are. *)
Lemma length_truncated (n_total n_valid n_infer : Z) :
  0 ≤ n_total →
  length (truncated_phases n_total n_valid n_infer) = Z.to_nat n_total.
Proof.
  intros Hn. unfold truncated_phases.
  pose proof (length_concatenated n_total n_valid n_infer) as Hlen.
  destruct (_ >? _) eqn:E.
  - apply Z.gtb_lt in E. rewrite slice_to_nonneg by done.
    rewrite length_take. lia.
  - rewrite Z.gtb_ltb in E. apply Z.ltb_ge in E. lia.
Qed.

(** The truncated list is the prefix of [n_total] labels of the
    concatenation. *)
Lemma truncated_take (n_total n_valid n_infer : Z) :
  0 ≤ n_total →
  truncated_phases n_total n_valid n_infer
  = take (Z.to_nat n_total)
         (replicate (Z.to_nat (n_total - n_infer - n_valid)) TRAIN
          ++ replicate (Z.to_nat n_valid) VALID
          ++ replicate (Z.to_nat n_infer) INFER).
Proof.
  intros Hn. unfold truncated_phases.
  pose proof (length_concatenated n_total n_valid n_infer) as Hlen.
  destruct (_ >? _) eqn:E.
  - by rewrite slice_to_nonneg.
  - rewrite Z.gtb_ltb in E. apply Z.ltb_ge in E.
    symmetry. apply take_ge. fold (times TRAIN (n_total - n_infer - n_valid)).
    fold (times VALID n_valid). fold (times INFER n_infer).
    fold (concatenated_phases n_total n_valid n_infer). lia.
Qed.

Lemma take_times (label : string) (k : nat) (n : Z) :
  take k (times label n) = times label (Z.of_nat (min k (Z.to_nat n))).
Proof.
  unfold times. rewrite take_replicate. f_equal. lia.
Qed.

(** Shape of the truncated list when both counts are non-negative:
    the train block is never cut, the validation block is cut only where
    the inference block is gone. *)
Lemma truncated_shape (n_total n_valid n_infer : Z) :
  0 ≤ n_total → 0 ≤ n_valid → 0 ≤ n_infer →
  truncated_phases n_total n_valid n_infer
  = times TRAIN (n_total - n_infer - n_valid)
    ++ times VALID (Z.min n_valid n_total)
    ++ times INFER (Z.min n_infer (Z.max 0 (n_total - n_valid))).
Proof.
  intros Hn Hv Hi. unfold truncated_phases.
  pose proof (length_concatenated n_total n_valid n_infer) as Hlen.
  destruct (_ >? _) eqn:E.
  - apply Z.gtb_lt in E. rewrite slice_to_nonneg by done.
    unfold concatenated_phases.
    assert (Htr : n_total - n_infer - n_valid ≤ 0) by lia.
    assert (times TRAIN (n_total - n_infer - n_valid) = []) as ->.
    { unfold times. by rewrite (Z2Nat.nonpos _ Htr). }
    simpl. rewrite take_app, !take_times, length_times.
    f_equal; f_equal; lia.
  - rewrite Z.gtb_ltb in E. apply Z.ltb_ge in E.
    unfold concatenated_phases. f_equal. f_equal; f_equal; lia.
Qed.

Lemma occurrences_app (label : string) (l1 l2 : list string) :
  occurrences label (l1 ++ l2) = occurrences label l1 + occurrences label l2.
Proof. unfold occurrences. rewrite filter_app, length_app. lia. Qed.

Lemma occurrences_times_same (label : string) (n : Z) :
  occurrences label (times label n) = Z.max 0 n.
Proof.
  unfold occurrences, times.
  induction (Z.to_nat n) as [|k IH] eqn:E in n |- *; simpl.
  - lia.
  - rewrite filter_cons_True by done. simpl.
    specialize (IH (Z.of_nat k)). rewrite Nat2Z.id in IH.
    specialize (IH eq_refl). lia.
Qed.

Lemma occurrences_times_other (label other : string) (n : Z) :
  label ≠ other → occurrences label (times other n) = 0.
Proof.
  intros Hne. unfold occurrences, times.
  induction (Z.to_nat n) as [|k IH]; simpl; [done|].
  rewrite filter_cons_False by congruence. done.
Qed.

Lemma occurrences_Permutation (label : string) (l1 l2 : list string) :
  l1 ≡ₚ l2 → occurrences label l1 = occurrences label l2.
Proof. intros Hp. unfold occurrences. by rewrite Hp. Qed.

Lemma occurrences_truncated (n_total n_valid n_infer : Z) :
  0 ≤ n_total → 0 ≤ n_valid → 0 ≤ n_infer →
  let phases := truncated_phases n_total n_valid n_infer in
  occurrences TRAIN phases = Z.max 0 (n_total - n_infer - n_valid)
  ∧ occurrences VALID phases = Z.min n_valid n_total
  ∧ occurrences INFER phases = Z.min n_infer (Z.max 0 (n_total - n_valid)).
Proof.
  intros Hn Hv Hi phases. subst phases.
  rewrite truncated_shape by lia.
  rewrite !occurrences_app, !occurrences_times_same.
  rewrite !(occurrences_times_other TRAIN), !(occurrences_times_other VALID),
    !(occurrences_times_other INFER) by done.
  lia.
Qed.

End Phases.

(** ** Shuffling *)

Section Shuffle.

Context {A : Type}.

Lemma insert_Permutation (l : list A) (i : nat) (x y : A) :
  l !! i = Some y → <[i:=x]> l ≡ₚ x :: delete i l.
Proof.
  intros Hi. apply lookup_lt_Some in Hi.
  rewrite insert_take_drop, delete_take_drop by done.
  by rewrite Permutation_middle.
Qed.

Lemma swap_Permutation (i j : nat) (l : list A) : swap i j l ≡ₚ l.
Proof.
  unfold swap.
  destruct (l !! i) as [a|] eqn:Hi; [|done].
  destruct (l !! j) as [b|] eqn:Hj; [|done].
  assert (Hi' : <[j:=a]> l !! i = Some a).
  { destruct (decide (j = i)) as [->|Hne].
    - apply list_lookup_insert_eq. by eapply lookup_lt_Some.
    - by rewrite list_lookup_insert_ne. }
  etrans; [apply (insert_Permutation _ i b a Hi')|].
  etrans; [|symmetry; apply (delete_Permutation l j b Hj)]. constructor.
  apply (Permutation_cons_inv (a:=a)).
  etrans; [symmetry; apply (delete_Permutation _ i a Hi')|].
  by apply insert_Permutation with b.
Qed.

Lemma shuffle_from_Permutation (source : nat → nat → nat) (k i : nat) (l : list A) :
  shuffle_from source k i l ≡ₚ l.
Proof.
  revert k l. induction i as [|i IH]; intros k l; cbn [shuffle_from]; [done|].
  by rewrite IH, swap_Permutation.
Qed.

(** [random.shuffle] permutes its argument, whatever is drawn. *)
Lemma shuffled_Permutation (source : nat → nat → nat) (k : nat) (l : list A) :
  shuffled source k l ≡ₚ l.
Proof. apply shuffle_from_Permutation. Qed.

Lemma length_shuffled (source : nat → nat → nat) (k : nat) (l : list A) :
  length (shuffled source k l) = length l.
Proof. by rewrite shuffled_Permutation. Qed.

End Shuffle.

(** Unfolding of the monad operations, one layer at a time, without
    touching the table operations. *)
Ltac mstep :=
  unfold bind, ret, raise, lift, get_self, get_world, modify_self,
    modify_world, when, logging, isfile, write_csv, try_except,
    try_only, random_shuffle, match_and_write_filenames_to_csv,
    add_log, set_file, add_draws;
  cbn [self world files file_matcher random_source random_draws log
       _file_list _partition_ids data_param ratios new_partition
       data_split_file set_file_list set_partition_ids set_data_param
       set_ratios set_new_partition set_data_split_file fst snd].

Ltac mrun := repeat progress mstep.

(** ** Counting subjects *)

Section Counting.

Lemma look_up_all : look_up_operations (lower ALL) SUPPORTED_PHASES = Returns ALL.
Proof. by vm_compute. Qed.

Lemma number_of_subjects_absent (s : ImageSetsPartitioner) (phase : string) :
  _file_list s = None → number_of_subjects s phase = Returns 0.
Proof. intros H. unfold number_of_subjects. by rewrite H. Qed.

Lemma number_of_subjects_all (s : ImageSetsPartitioner) (fl : DataFrame) :
  _file_list s = Some fl → number_of_subjects s ALL = Returns (count fl).
Proof.
  intros H. unfold number_of_subjects. rewrite H, look_up_all.
  by destruct (decide (ALL = ALL)).
Qed.

Lemma count_nonneg (df : DataFrame) : 0 ≤ count df.
Proof. unfold count, count_cells. lia. Qed.

(** The subject ids that are not missing are at most as many as the
    rows. *)
Lemma count_le_rows (df : DataFrame) : count df ≤ Z.of_nat (length (rows df)).
Proof.
  unfold count, count_cells, subject_ids.
  pose proof (length_filter (λ c : option string, c ≠ None) (row_id <$> rows df)) as H.
  rewrite length_fmap in H. lia.
Qed.

(** When no subject id is missing, the count is the number of rows. *)
Lemma count_rows (df : DataFrame) :
  None ∉ subject_ids df → count df = Z.of_nat (length (rows df)).
Proof.
  intros Hnone. unfold count, count_cells. f_equal.
  rewrite <- (length_fmap row_id (rows df)). fold (subject_ids df).
  f_equal. induction (subject_ids df) as [|c cs IH]; [done|].
  apply not_elem_of_cons in Hnone as [Hc Hcs].
  rewrite filter_cons_True by done. f_equal. by apply IH.
Qed.

End Counting.

#[local] Arguments number_of_subjects : simpl never.
#[local] Arguments truncated_phases : simpl never.
#[local] Arguments partition_of_csv : simpl never.
#[local] Arguments binary64 : simpl never.

(** ** Reading a csv file *)

Section Reading.

Lemma read_csv_eq (path : string) (names : string * string) (st : State) :
  read_csv path names st
  = (st, if decide (names.1 = names.2) then Raises ValueError
         else match files (world st) !! path with
              | Some (CsvFile csv) => Returns csv
              | Some (Unparsable e) => Raises e
              | None => Raises IOError
              end).
Proof.
  unfold read_csv. destruct (decide _); mrun; [done|].
  by destruct (files (world st) !! path) as [[csv|e]|].
Qed.

(** The split file is read with two distinct column names. *)
Lemma read_csv_split (path : string) (st : State) :
  read_csv path (COLUMN_UNIQ_ID, COLUMN_PHASE) st
  = (st, match files (world st) !! path with
         | Some (CsvFile csv) => Returns csv
         | Some (Unparsable e) => Raises e
         | None => Raises IOError
         end).
Proof. rewrite read_csv_eq. by rewrite decide_False by done. Qed.

End Reading.

(** ** Running the splitter *)

Section Splitter.

Lemma clamped_fractions_numbers (v i : Q) :
  clamped_fractions (Some [Num v; Num i])
  = Returns (clamp (binary64 v), clamp (binary64 i)).
Proof. reflexivity. Qed.

(** A new split with well-formed ratios returns, writes the split file
    and reads it back into the partition table. *)
Lemma randomly_split_dataset_overwrite (st : State) (fl : DataFrame) (v i : Q) :
  _file_list (self st) = Some fl →
  ratios (self st) = Some [Num v; Num i] →
  let csv := split_rows (world st) fl v i in
  randomly_split_dataset true st
  = (mkState (set_partition_ids (Some (partition_of_csv csv)) (self st))
             (set_file (data_split_file (self st)) (CsvFile csv)
                (add_draws (length (split_labels (count fl) v i) - 1) (world st))),
     Returns tt).
Proof.
  intros Hfl Hr csv. destruct st as [s w]. simpl in *.
  unfold randomly_split_dataset. mrun.
  rewrite Hr, Hfl, (number_of_subjects_all s fl Hfl), clamped_fractions_numbers.
  mrun. rewrite (lookup_insert_eq (files w)).
  rewrite bool_decide_eq_true_2 by eauto. mrun.
  rewrite read_csv_split. mrun.
  by rewrite (lookup_insert_eq (files w)).
Qed.

End Splitter.

Section SplitCounts.

(** C1.  A new split ([overwrite=True]) with a well-formed ratio pair
    returns and persists one label per counted subject.  With [n_total]
    the number of subject ids that are not missing, [n_valid] and
    [n_infer] the ceilings of the float products of [n_total] and the
    clamped fractions, the persisted labels are the shuffled prefix of
    [n_total] labels of the concatenation: there are exactly [n_total]
    of them, no phase count is negative (the train count is 0 when the
    raw [n_train] is negative), and the three counts add up to
    [n_total]. *)
Theorem new_split_persists_total_n_labels (st : State) (fl : DataFrame) (v i : Q) :
  _file_list (self st) = Some fl →
  ratios (self st) = Some [Num v; Num i] →
  let n_total := Z.of_nat (length (filter (λ c, c ≠ None) (subject_ids fl))) in
  let valid_fraction := Qmax (Qmin 1 (binary64 v)) 0 in
  let infer_fraction := Qmax (Qmin 1 (binary64 i)) 0 in
  let n_valid :=
    Qceiling (binary64 (binary64 (inject_Z n_total) * valid_fraction)) in
  let n_infer :=
    Qceiling (binary64 (binary64 (inject_Z n_total) * infer_fraction)) in
  let n_train := n_total - n_infer - n_valid in
  let truncated :=
    take (Z.to_nat n_total)
         (replicate (Z.to_nat n_train) TRAIN
          ++ replicate (Z.to_nat n_valid) VALID
          ++ replicate (Z.to_nat n_infer) INFER) in
  let result := randomly_split_dataset true st in
  ∃ phases : list string,
    result.2 = Returns tt
    ∧ files (world result.1) !! data_split_file (self st)
      = Some (CsvFile (zip (subject_ids fl) (Some <$> phases)))
    ∧ (zip (subject_ids fl) (Some <$> phases)).*2 = Some <$> phases
    ∧ phases = shuffled (random_source (world st)) (random_draws (world st))
                        truncated
    ∧ phases ≡ₚ truncated
    ∧ Z.of_nat (length truncated) = n_total
    ∧ Z.of_nat (length phases) = n_total
    ∧ 0 ≤ n_valid
    ∧ 0 ≤ n_infer
    ∧ occurrences TRAIN phases = Z.max 0 n_train
    ∧ occurrences VALID phases = Z.min n_valid n_total
    ∧ occurrences INFER phases = Z.min n_infer (Z.max 0 (n_total - n_valid))
    ∧ 0 ≤ occurrences TRAIN phases
    ∧ 0 ≤ occurrences VALID phases
    ∧ 0 ≤ occurrences INFER phases
    ∧ occurrences TRAIN phases + occurrences VALID phases
      + occurrences INFER phases = n_total.
Proof.
  intros Hfl Hr n_total valid_fraction infer_fraction n_valid n_infer n_train
    truncated result.
  assert (Hnt : n_total = count fl) by reflexivity.
  assert (Hnv : n_valid = ceil_count (count fl) (clamp (binary64 v)))
    by reflexivity.
  assert (Hni : n_infer = ceil_count (count fl) (clamp (binary64 i)))
    by reflexivity.
  clearbody n_valid n_infer n_total. subst n_total.
  clear valid_fraction infer_fraction.
  pose proof (count_nonneg fl) as Hn.
  pose proof (ceil_count_nonneg (count fl) (clamp (binary64 v)) Hn
                (proj1 (clamp_bounds _))) as Hv.
  pose proof (ceil_count_nonneg (count fl) (clamp (binary64 i)) Hn
                (proj1 (clamp_bounds _))) as Hi.
  rewrite <- Hnv in Hv. rewrite <- Hni in Hi.
  assert (Htr : truncated = split_labels (count fl) v i).
  { unfold split_labels. rewrite <- Hnv, <- Hni. by rewrite truncated_take. }
  pose proof (length_truncated (count fl) n_valid n_infer Hn) as Hlen0.
  destruct (occurrences_truncated (count fl) n_valid n_infer)
    as (Ht & Hva & Hin); [lia..|].
  assert (Htr' : truncated_phases (count fl) n_valid n_infer = truncated).
  { rewrite Htr. unfold split_labels. by rewrite Hnv, Hni. }
  rewrite Htr' in Hlen0, Ht, Hva, Hin.
  set (phases := shuffled (random_source (world st)) (random_draws (world st))
                          truncated).
  assert (Hp : phases ≡ₚ truncated) by apply shuffled_Permutation.
  assert (Hlen : length phases = Z.to_nat (count fl)) by by rewrite Hp.
  exists phases. subst result.
  rewrite (randomly_split_dataset_overwrite st fl v i Hfl Hr).
  cbn [fst snd world files set_file].
  rewrite !(occurrences_Permutation _ _ _ Hp), Ht, Hva, Hin.
  split_and!; try done; try lia.
  - rewrite (lookup_insert_eq (files _)). unfold split_rows.
    cbn [add_draws random_source random_draws]. by rewrite <- Htr.
  - apply snd_zip. unfold subject_ids. rewrite !length_fmap, Hlen.
    pose proof (count_le_rows fl). lia.
Qed.

End SplitCounts.

Section Truncation.

Lemma drop_times (label : string) (k : nat) (n : Z) :
  drop k (times label n) = times label (n - Z.of_nat k).
Proof.
  unfold times. rewrite drop_replicate. f_equal. lia.
Qed.

(** What is cut from the concatenation when it is longer than
    [n_total]. *)
Lemma truncated_tail (n_total n_valid n_infer : Z) :
  0 ≤ n_total → 0 ≤ n_valid → 0 ≤ n_infer →
  let phases := concatenated_phases n_total n_valid n_infer in
  let excess := Z.of_nat (length phases) - n_total in
  0 < excess →
  let truncated := truncated_phases n_total n_valid n_infer in
  let cut_infer := Z.min excess n_infer in
  let cut_valid := excess - cut_infer in
  phases = truncated ++ times VALID cut_valid ++ times INFER cut_infer
  ∧ truncated = times TRAIN (n_total - n_infer - n_valid)
                ++ times VALID (n_valid - cut_valid)
                ++ times INFER (n_infer - cut_infer).
Proof.
  intros Hn Hv Hi phases excess Hex truncated cut_infer cut_valid.
  pose proof (length_concatenated n_total n_valid n_infer) as Hlen.
  fold phases in Hlen.
  assert (Htake : truncated = take (Z.to_nat n_total) phases).
  { subst truncated. unfold truncated_phases. fold phases.
    destruct (_ >? _) eqn:E.
    - by rewrite slice_to_nonneg.
    - rewrite Z.gtb_ltb in E. apply Z.ltb_ge in E. lia. }
  split.
  - rewrite <- (take_drop (Z.to_nat n_total) phases) at 1.
    rewrite <- Htake. f_equal.
    unfold phases, concatenated_phases.
    assert (times TRAIN (n_total - n_infer - n_valid) = []) as ->.
    { unfold times. rewrite Z2Nat.nonpos; [done | lia]. }
    simpl. rewrite drop_app, !drop_times, length_times.
    destruct (decide (n_valid ≤ n_total)) as [Hle|Hgt].
    + assert (times VALID (n_valid - Z.of_nat (Z.to_nat n_total)) = []) as ->.
      { unfold times. rewrite Z2Nat.nonpos; [done | lia]. }
      assert (times VALID cut_valid = []) as ->.
      { unfold times. rewrite Z2Nat.nonpos; [done | lia]. }
      simpl. f_equal. lia.
    + f_equal; f_equal; lia.
  - subst truncated. rewrite truncated_shape by done.
    f_equal. f_equal; f_equal; lia.
Qed.

(** C7.  When the concatenated label list is longer than [n_total], a
    new split persists the shuffled prefix of exactly [n_total] labels of
    it: the concatenation is cut before it is shuffled, the order of
    what remains is that of the concatenation, and the excess is cut
    from the tail, from the inference block first and from the
    validation block only once the inference block is gone. *)
Theorem truncation_trims_the_tail (st : State) (fl : DataFrame) (v i : Q) :
  _file_list (self st) = Some fl →
  ratios (self st) = Some [Num v; Num i] →
  let n_total := count fl in
  let n_valid := ceil_count n_total (clamp (binary64 v)) in
  let n_infer := ceil_count n_total (clamp (binary64 i)) in
  let n_train := n_total - n_infer - n_valid in
  let phases := replicate (Z.to_nat n_train) TRAIN
                ++ replicate (Z.to_nat n_valid) VALID
                ++ replicate (Z.to_nat n_infer) INFER in
  let excess := Z.of_nat (length phases) - n_total in
  0 < excess →
  let truncated := take (Z.to_nat n_total) phases in
  let cut_infer := Z.min excess n_infer in
  let cut_valid := excess - cut_infer in
  let result := randomly_split_dataset true st in
  result.2 = Returns tt
  ∧ files (world result.1) !! data_split_file (self st)
    = Some (CsvFile
              (zip (subject_ids fl)
                   (Some <$> shuffled (random_source (world st))
                                      (random_draws (world st)) truncated)))
  ∧ random_draws (world result.1)
    = (random_draws (world st) + (Z.to_nat n_total - 1))%nat
  ∧ length truncated = Z.to_nat n_total
  ∧ phases = truncated
             ++ replicate (Z.to_nat cut_valid) VALID
             ++ replicate (Z.to_nat cut_infer) INFER
  ∧ truncated = replicate (Z.to_nat n_train) TRAIN
                ++ replicate (Z.to_nat (n_valid - cut_valid)) VALID
                ++ replicate (Z.to_nat (n_infer - cut_infer)) INFER
  ∧ n_train ≤ 0
  ∧ (0 < cut_valid → cut_infer = n_infer).
Proof.
  intros Hfl Hr n_total n_valid n_infer n_train phases excess Hex truncated
    cut_infer cut_valid result.
  pose proof (count_nonneg fl) as Hn. fold n_total in Hn.
  pose proof (ceil_count_nonneg n_total (clamp (binary64 v)) Hn
                (proj1 (clamp_bounds _))) as Hv.
  pose proof (ceil_count_nonneg n_total (clamp (binary64 i)) Hn
                (proj1 (clamp_bounds _))) as Hi.
  fold n_valid in Hv. fold n_infer in Hi.
  assert (Htr : truncated = split_labels n_total v i).
  { unfold split_labels. by rewrite truncated_take. }
  pose proof (length_truncated n_total n_valid n_infer Hn) as Hlen.
  destruct (truncated_tail n_total n_valid n_infer Hn Hv Hi Hex)
    as [Hcut Hshape].
  change (truncated_phases n_total n_valid n_infer)
    with (split_labels n_total v i) in Hlen, Hcut, Hshape.
  rewrite <- Htr in Hlen, Hcut, Hshape.
  subst result. rewrite (randomly_split_dataset_overwrite st fl v i Hfl Hr).
  cbn [fst snd world files set_file add_draws random_draws].
  fold n_total. rewrite <- Htr, Hlen.
  assert (Hex' : n_train ≤ 0).
  { unfold excess, phases in Hex.
    rewrite !length_app, !length_replicate in Hex. lia. }
  split; [done|]. split.
  { rewrite (lookup_insert_eq (files _)). unfold split_rows.
    fold n_total. by rewrite <- Htr. }
  split; [done|]. split; [done|]. split; [exact Hcut|].
  split; [exact Hshape|]. split; [done|]. lia.
Qed.

End Truncation.

(** ** Queries *)

Section Queries.

Lemma look_up_operations_supported (type_str : string) (supported : gset string) :
  type_str ∈ supported → look_up_operations type_str supported = Returns type_str.
Proof. intros H. unfold look_up_operations. by rewrite decide_True. Qed.

Lemma look_up_operations_unsupported (type_str : string) (supported : gset string) :
  type_str ∉ supported → look_up_operations type_str supported = Raises ValueError.
Proof. intros H. unfold look_up_operations. by rewrite decide_False. Qed.

(** C3 (amended).  Without a file table the count is 0 for every phase
    argument.  With a file table and no partition table, every supported
    phase name is answered as "all" is, with the number of subject ids of
    the file table that are not missing; only an unsupported name is an
    error. *)
Theorem number_of_subjects_without_partition
    (s : ImageSetsPartitioner) (phase : string) :
  (_file_list s = None → number_of_subjects s phase = Returns 0)
  ∧ (∀ fl, _file_list s = Some fl → _partition_ids s = None →
       let n := Z.of_nat (length (filter (λ c, c ≠ None) (subject_ids fl))) in
       (lower phase ∈ SUPPORTED_PHASES →
          number_of_subjects s phase = Returns n
          ∧ number_of_subjects s ALL = Returns n)
       ∧ (lower phase ∉ SUPPORTED_PHASES →
          number_of_subjects s phase = Raises ValueError)).
Proof.
  split; [apply number_of_subjects_absent|].
  intros fl Hfl Hids n. split.
  - intros Hin. split; [|by apply number_of_subjects_all].
    unfold number_of_subjects. rewrite Hfl, Hids.
    rewrite look_up_operations_supported by done.
    by destruct (decide _).
  - intros Hnin. unfold number_of_subjects. rewrite Hfl.
    by rewrite look_up_operations_unsupported.
Qed.

End Queries.

Section FileLists.

Lemma look_up_names_known (names : list string) (supported : gset string) :
  Forall (λ n, n ∈ supported) names →
  look_up_names names supported = Returns names.
Proof. intros H. unfold look_up_names. by rewrite decide_True. Qed.

Lemma select_phase_empty (phase : string) (ids : PartitionFrame) :
  Forall (λ r, prow_phase r ≠ Some phase) ids → rows (select_phase phase ids) = [].
Proof.
  intros H.
  assert (Hnil : filter (λ r, prow_phase r = Some phase) ids = []).
  { induction H as [|r ids Hr _ IH]; [done|]. by rewrite filter_cons_False. }
  unfold select_phase. cbn [rows]. by rewrite Hnil.
Qed.

(** C10.  With both tables present, a phase other than "all" that labels
    no row of the partition table (a supported phase with no subjects or
    any other string, such as a misspelt phase) makes [get_file_list]
    log a warning and return [None]; the phase is not checked against
    the supported names, whereas [number_of_subjects] raises on a name
    that is not supported.  A selection of section names, when given, is
    assumed to pass its own check. *)
Theorem get_file_list_does_not_validate_phase
    (st : State) (fl : DataFrame) (ids : PartitionFrame)
    (phase : string) (section_names : list string) :
  phase ≠ ALL →
  _file_list (self st) = Some fl →
  _partition_ids (self st) = Some ids →
  Forall (λ n, n ∈ column_set fl) section_names →
  Forall (λ r, prow_phase r ≠ Some phase) ids →
  get_file_list phase section_names st
  = (mkState (self st)
             (mkWorld (files (world st)) (file_matcher (world st))
                      (random_source (world st)) (random_draws (world st))
                      (log (world st) ++ [(WARNING, EmptySubset phase)])),
     Returns NoneResult)
  ∧ (lower phase ∉ SUPPORTED_PHASES →
     number_of_subjects (self st) phase = Raises ValueError).
Proof.
  intros Hall Hfl Hids Hnames Hphase. split.
  - destruct st as [s w]. cbn [self world] in *.
    unfold get_file_list. mrun. rewrite Hfl, Hids.
    rewrite decide_False by done.
    rewrite (select_phase_empty _ _ Hphase).
    destruct section_names as [|n names]; mrun; [done|].
    by rewrite (look_up_names_known _ _ Hnames).
  - intros Hnin. unfold number_of_subjects.
    by rewrite Hfl, look_up_operations_unsupported.
Qed.

End FileLists.

(** ** Sorting by index *)

Section SortIndex.

Lemma insert_by_label_Permutation (r : Row) (l : list Row) :
  insert_by_label r l ≡ₚ r :: l.
Proof.
  induction l as [|x l IH]; cbn [insert_by_label]; [done|].
  destruct (_ <=? _)%nat; [done|].
  rewrite IH. apply Permutation_swap.
Qed.


Lemma insert_by_label_sorted (r : Row) (l : list Row) :
  StronglySorted label_le l → StronglySorted label_le (insert_by_label r l).
Proof.
  induction 1 as [|x l Hs IH Hx]; cbn [insert_by_label].
  - repeat constructor.
  - destruct (_ <=? _)%nat eqn:E.
    + apply Nat.leb_le in E. constructor; [by constructor|].
      constructor; [done|].
      eapply Forall_impl; [exact Hx|]. unfold label_le. intros; lia.
    + apply Nat.leb_gt in E. constructor; [done|].
      rewrite insert_by_label_Permutation.
      constructor; [unfold label_le; lia | done].
Qed.

Lemma insert_by_label_head (r : Row) (l : list Row) :
  Forall (label_le r) l → insert_by_label r l = r :: l.
Proof.
  destruct 1 as [|x l Hx _]; cbn [insert_by_label]; [done|].
  unfold label_le in Hx. by rewrite (proj2 (Nat.leb_le _ _) Hx).
Qed.

Lemma sort_rows_sorted (l : list Row) :
  StronglySorted label_le l → foldr insert_by_label [] l = l.
Proof.
  induction 1 as [|x l Hs IH Hx]; cbn [foldr]; [done|].
  rewrite IH. by apply insert_by_label_head.
Qed.

Lemma sort_index_sorted (df : DataFrame) : sorted_by_label (sort_index df).
Proof.
  unfold sorted_by_label, sort_index. cbn [rows].
  induction (rows df) as [|x l IH]; cbn [foldr]; [constructor|].
  by apply insert_by_label_sorted.
Qed.

Lemma sort_index_id (df : DataFrame) : sorted_by_label df → sort_index df = df.
Proof.
  intros H. unfold sort_index. rewrite (sort_rows_sorted _ H). by destruct df.
Qed.

Lemma relabel_from_sorted (start : nat) (l : list (option string * list (option string))) :
  StronglySorted label_le (relabel_from start l)
  ∧ Forall (λ r, (start ≤ row_label r)%nat) (relabel_from start l).
Proof.
  unfold relabel_from. revert start.
  induction l as [|x l IH]; intros start; cbn [imap].
  - split; constructor.
  - assert (Heq : imap ((λ i r, mkRow (start + i) r.1 r.2) ∘ S) l
                  = imap (λ i r, mkRow (S start + i) r.1 r.2) l).
    { apply imap_ext. intros i r _. cbn. f_equal. lia. }
    rewrite Heq. destruct (IH (S start)) as [Hs Hf]. split.
    + constructor; [done|]. eapply Forall_impl; [exact Hf|].
      unfold label_le. cbn. intros; lia.
    + constructor; [cbn; lia|]. eapply Forall_impl; [exact Hf|].
      cbn. intros; lia.
Qed.

(** Frames read from a CSV file and joins carry a fresh range index. *)
Lemma frame_of_csv_sorted (name : string) (csv : list (option string * option string)) :
  sorted_by_label (frame_of_csv name csv).
Proof. apply relabel_from_sorted. Qed.

Lemma merge_sorted (left right : DataFrame) : sorted_by_label (merge left right).
Proof. apply relabel_from_sorted. Qed.

End SortIndex.

(** ** Loading one section *)

Section Loader.

Ltac decide_isfile :=
  first [ rewrite bool_decide_eq_true_2 by eauto
        | rewrite bool_decide_eq_false_2 by (intros [? ?]; congruence) ].

Lemma grep_files_by_data_section_cases (name : string) (st : State) :
  grep_result name st (grep_files_by_data_section name st).
Proof.
  destruct st as [s w].
  destruct (dict_get (data_param s) name) as [cfg|] eqn:Hcfg.
  2:{ replace (grep_files_by_data_section name (mkState s w))
        with (with_log (mkState s w) [(FATAL, UnknownSectionName name)],
              Raises (A:=DataFrame) ValueError).
      - by constructor.
      - unfold grep_files_by_data_section. mrun. by rewrite Hcfg. }
  destruct (csv_file cfg) as [c|] eqn:Hc.
  2:{ replace (grep_files_by_data_section name (mkState s w))
        with (with_log (mkState s w) [(FATAL, MissingCsvFileField)],
              Raises (A:=DataFrame) AttributeError).
      - by econstructor.
      - unfold grep_files_by_data_section. mrun. by rewrite Hcfg, Hc. }
  destruct (has_path_to_search cfg) eqn:Hsearch.
  - destruct (file_matcher w cfg) as [matched|e] eqn:Hm.
    + replace (grep_files_by_data_section name (mkState s w))
        with (mkState s
                (add_log ((INFO, SearchFileFolders name c)
                          :: read_failure (section_frame name (CsvFile matched)))
                         (set_file c (CsvFile matched) w)),
              section_frame name (CsvFile matched)).
      * by econstructor.
      * unfold grep_files_by_data_section. mrun. rewrite Hcfg, Hc, Hsearch.
        mrun. rewrite Hm. mrun. rewrite (lookup_insert_eq (files w)).
        decide_isfile. cbn [negb]. mrun. rewrite read_csv_eq.
        unfold section_frame. mrun.
        rewrite (lookup_insert_eq (files w)).
        destruct (decide (COLUMN_UNIQ_ID = name)); mrun; cbn [read_failure];
          by rewrite <- ?app_assoc.
    + replace (grep_files_by_data_section name (mkState s w))
        with (with_log (mkState s w) [(INFO, SearchFileFolders name c)],
              Raises (A:=DataFrame) e).
      * by econstructor.
      * unfold grep_files_by_data_section. mrun. rewrite Hcfg, Hc, Hsearch.
        mrun. by rewrite Hm.
  - destruct (files w !! c) as [f|] eqn:Hfile.
    + replace (grep_files_by_data_section name (mkState s w))
        with (with_log (mkState s w)
                ((INFO, UsingExistingCsv name c)
                 :: read_failure (section_frame name f)),
              section_frame name f).
      * by econstructor.
      * unfold grep_files_by_data_section. mrun. rewrite Hcfg, Hc, Hsearch.
        mrun. rewrite Hfile. decide_isfile. cbn [negb]. mrun.
        rewrite read_csv_eq. unfold section_frame, with_log.
        mrun. rewrite Hfile.
        destruct (decide (COLUMN_UNIQ_ID = name)); [|destruct f as [csv|e]];
          mrun; cbn [read_failure]; rewrite <- ?app_assoc; done.
    + replace (grep_files_by_data_section name (mkState s w))
        with (with_log (mkState s w)
                [(INFO, UsingExistingCsv name c); (FATAL, CsvNotFound name c)],
              Raises (A:=DataFrame) IOError).
      * by econstructor.
      * unfold grep_files_by_data_section. mrun. rewrite Hcfg, Hc, Hsearch.
        mrun. rewrite Hfile. decide_isfile. cbn [negb]. mrun.
        unfold with_log. cbn [self world files log add_log].
        by rewrite <- app_assoc.
Qed.

Lemma section_frame_returns (name : string) (f : File) (df : DataFrame) :
  section_frame name f = Returns df →
  COLUMN_UNIQ_ID ≠ name ∧ ∃ csv, f = CsvFile csv ∧ df = frame_of_csv name csv.
Proof.
  unfold section_frame. destruct (decide _); [done|].
  destruct f as [csv|e]; [|done]. intros [= <-]. eauto.
Qed.

End Loader.

Section LoaderFrame.

Lemma same_setting_refl (st : State) : same_setting st st.
Proof. by repeat split. Qed.

Lemma same_setting_trans (st1 st2 st3 : State) :
  same_setting st1 st2 → same_setting st2 st3 → same_setting st1 st3.
Proof.
  unfold same_setting. intros (?&?&?&?&?&?) (?&?&?&?&?&?).
  repeat split; congruence.
Qed.

Lemma same_setting_with_log (st : State) entries : same_setting st (with_log st entries).
Proof. by repeat split. Qed.

(** What [grep_files_by_data_section] leaves alone and what it writes. *)
Lemma grep_files_frame (name : string) (st : State) :
  let r := grep_files_by_data_section name st in
  self r.1 = self st
  ∧ same_setting st r.1
  ∧ random_draws (world r.1) = random_draws (world st)
  ∧ (∀ path, files (world r.1) !! path
       = match section_write (file_matcher (world st)) (data_param (self st)) name path with
         | Some c => Some c
         | None => files (world st) !! path
         end)
  ∧ (∀ df, r.2 = Returns df → sorted_by_label df).
Proof.
  intros r. subst r.
  destruct (grep_files_by_data_section_cases name st)
    as [Hd|cfg Hd Hc|cfg c e Hd Hc Hs Hm|cfg c matched Hd Hc Hs Hm
        |cfg c Hd Hc Hs Hf|cfg c f Hd Hc Hs Hf];
    cbn [fst snd with_log self world files add_log set_file random_draws];
    (split; [done|]); (split; [by repeat split|]); (split; [done|]);
    (split; [|intros df Hdf; try discriminate Hdf;
              apply section_frame_returns in Hdf as (_ & csv & _ & ->);
              apply frame_of_csv_sorted]);
    intros path; unfold section_write; rewrite Hd; try rewrite Hc;
    try rewrite Hs; try rewrite Hm; try done.
  destruct (decide (c = path)) as [->|Hne].
  - by rewrite (lookup_insert_eq (files (world st))).
  - by rewrite (lookup_insert_ne (files (world st))).
Qed.

End LoaderFrame.

(** ** The inner join *)

Section Join.

Lemma relabel_from_ids (start : nat) (l : list (option string * list (option string))) :
  row_id <$> relabel_from start l = l.*1.
Proof.
  unfold relabel_from. revert start.
  induction l as [|x l IH]; intros start; cbn [imap fmap list_fmap]; [done|].
  f_equal. rewrite <- (IH (S start)). f_equal.
  apply imap_ext. intros i r _. cbn. f_equal. lia.
Qed.

Lemma length_relabel_from (start : nat) (l : list (option string * list (option string))) :
  length (relabel_from start l) = length l.
Proof. unfold relabel_from. apply length_imap. Qed.

Lemma subject_ids_frame_of_csv (name : string) (csv : list (option string * option string)) :
  subject_ids (frame_of_csv name csv) = csv.*1.
Proof.
  unfold subject_ids, frame_of_csv, range_index. cbn [rows].
  rewrite relabel_from_ids, <- list_fmap_compose.
  by apply list_fmap_ext.
Qed.

Lemma first_seen_NoDup {A} `{EqDecision A} (l : list A) :
  NoDup l → first_seen l = l.
Proof.
  induction 1 as [|x l Hx _ IH]; cbn [first_seen]; [done|].
  rewrite IH. f_equal. clear IH.
  induction l as [|y l IH]; [done|].
  apply not_elem_of_cons in Hx as [Hne Hx].
  rewrite filter_cons_True by done. f_equal. by apply IH.
Qed.

Lemma key_groups_Permutation (keys : list (option string)) :
  key_groups keys ≡ₚ first_seen keys.
Proof.
  unfold key_groups.
  rewrite <- (filter_app_complement (λ k, k ≠ None) (first_seen keys)) at 3.
  f_equiv. apply reflexive_eq, list_filter_iff.
  intros k. destruct k as [x|]; split; intros H; try done.
  - exfalso. by apply H.
  - intros H'. by apply H'.
Qed.

Lemma key_groups_NoDup (keys : list (option string)) :
  NoDup keys → None ∉ keys → key_groups keys = keys.
Proof.
  intros Hnd Hnone. unfold key_groups. rewrite (first_seen_NoDup _ Hnd).
  assert (H1 : filter (λ k : option string, k ≠ None) keys = keys).
  { clear Hnd. induction keys as [|k ks IH]; [done|].
    apply not_elem_of_cons in Hnone as [Hk Hks].
    rewrite filter_cons_True by done. f_equal. by apply IH. }
  assert (H2 : filter (λ k : option string, k = None) keys = []).
  { clear Hnd H1. induction keys as [|k ks IH]; [done|].
    apply not_elem_of_cons in Hnone as [Hk Hks].
    rewrite filter_cons_False by done. by apply IH. }
  by rewrite H1, H2, app_nil_r.
Qed.

(** The rows with key [k] among rows none of which has the key [a]. *)
Lemma bind_filter_other (l : list Row) (r : Row) (ks : list (option string)) :
  Forall (λ k, k ≠ row_id r) ks →
  ks ≫= (λ k, filter (λ x, row_id x = k) (r :: l))
  = ks ≫= (λ k, filter (λ x, row_id x = k) l).
Proof.
  induction 1 as [|k ks Hk _ IH]; [done|].
  rewrite !bind_cons, IH. f_equal. by rewrite filter_cons_False.
Qed.

Lemma filter_bind_groups (l : list Row) (a : option string) (ks : list (option string)) :
  filter (λ x, row_id x ≠ a) (ks ≫= (λ k, filter (λ x, row_id x = k) l))
  = filter (λ k, k ≠ a) ks ≫= (λ k, filter (λ x, row_id x = k) l).
Proof.
  induction ks as [|k ks IH]; [done|].
  rewrite bind_cons, filter_app, IH.
  destruct (decide (k = a)) as [->|Hne].
  - rewrite (filter_cons_False _ a) by (intros H; by apply H).
    rewrite list_filter_filter.
    assert (filter (λ x, row_id x ≠ a ∧ row_id x = a) l = []) as ->; [|done].
    clear IH. induction l as [|x l IHl]; [done|].
    rewrite filter_cons_False; [done|]. intros [? ?]. done.
  - rewrite (filter_cons_True _ k) by done. rewrite bind_cons. f_equal.
    rewrite list_filter_filter. apply list_filter_iff.
    intros x. split; [by intros [_ ?] | intros Hx; split; congruence].
Qed.

Lemma first_seen_bind_Permutation (l : list Row) :
  first_seen (row_id <$> l) ≫= (λ k, filter (λ x, row_id x = k) l) ≡ₚ l.
Proof.
  induction l as [|r l IH]; [done|].
  cbn [fmap list_fmap first_seen]. rewrite bind_cons.
  rewrite filter_cons_True by done.
  rewrite bind_filter_other by (apply Forall_forall; intros k Hk;
    by apply list_elem_of_filter in Hk as [? _]).
  rewrite <- filter_bind_groups, IH. cbn [app]. constructor.
  apply (filter_app_complement (λ x, row_id x = row_id r) l).
Qed.

(** The join visits every left row once. *)
Lemma grouped_by_key_Permutation (l : list Row) : grouped_by_key l ≡ₚ l.
Proof.
  unfold grouped_by_key. rewrite key_groups_Permutation.
  apply first_seen_bind_Permutation.
Qed.

(** It visits them in their own order when no key repeats and none is
    missing. *)
Lemma grouped_by_key_NoDup (l : list Row) :
  NoDup (row_id <$> l) → None ∉ row_id <$> l → grouped_by_key l = l.
Proof.
  intros Hnd Hnone. unfold grouped_by_key.
  rewrite (key_groups_NoDup _ Hnd Hnone). clear Hnone.
  induction l as [|r l IH]; [done|].
  cbn [fmap list_fmap] in *. apply NoDup_cons in Hnd as [Hr Hnd].
  rewrite bind_cons, filter_cons_True by done.
  rewrite bind_filter_other
    by (apply Forall_forall; intros k Hk ->; by apply Hr).
  rewrite (IH Hnd).
  assert (filter (λ x, row_id x = row_id r) l = []) as ->; [|done].
  clear IH Hnd. induction l as [|x l IHl]; [done|].
  cbn [fmap list_fmap] in Hr. apply not_elem_of_cons in Hr as [Hne Hr].
  rewrite filter_cons_False by done. by apply IHl.
Qed.

(** With unique keys on the right, a left row is joined with one row
    when its key occurs on the right and dropped otherwise. *)
Lemma join_row_ids (right : list Row) (l : Row) :
  NoDup (row_id <$> right) →
  (join_row right l).*1
  = if decide (row_id l ∈ row_id <$> right) then [row_id l] else [].
Proof.
  unfold join_row. rewrite <- list_fmap_compose.
  induction right as [|r right IH]; intros Hnd; cbn [fmap list_fmap].
  - rewrite filter_nil. cbn. by rewrite decide_False by apply not_elem_of_nil.
  - apply NoDup_cons in Hnd as [Hr Hnd]. specialize (IH Hnd).
    destruct (decide (row_id r = row_id l)) as [Heq|Hne].
    + rewrite filter_cons_True by done. cbn [fmap list_fmap compose fst].
      rewrite decide_True by (rewrite Heq; apply list_elem_of_here).
      f_equal. cbn [fmap] in IH. rewrite IH.
      rewrite decide_False; [done|]. by rewrite <- Heq.
    + rewrite filter_cons_False by done. cbn [fmap] in IH. rewrite IH.
      destruct (decide (row_id l ∈ row_id <$> right)) as [Hin|Hnin].
      * rewrite decide_True; [done|]. by apply list_elem_of_further.
      * rewrite decide_False; [done|].
        intros Hin. apply elem_of_cons in Hin as [?|?]; congruence.
Qed.

Lemma joined_ids (left right : list Row) :
  NoDup (row_id <$> right) →
  (left ≫= join_row right).*1
  = filter (λ x, x ∈ row_id <$> right) (row_id <$> left).
Proof.
  intros Hnd. induction left as [|l ls IH]; [done|].
  rewrite bind_cons, fmap_app, IH, (join_row_ids _ _ Hnd).
  cbn [fmap list_fmap].
  destruct (decide (row_id l ∈ row_id <$> right)) as [Hin|Hnin].
  - by rewrite filter_cons_True.
  - by rewrite filter_cons_False.
Qed.

(** The subject ids of a join with unique keys on the right: the left
    ids that occur on the right, in the order in which the join visits
    the left rows. *)
Lemma subject_ids_merge_grouped (left right : DataFrame) :
  NoDup (subject_ids right) →
  subject_ids (merge left right)
  = filter (λ x, x ∈ subject_ids right)
           (row_id <$> grouped_by_key (rows left)).
Proof.
  intros Hnd. unfold subject_ids at 1, merge, range_index. cbn [rows].
  rewrite relabel_from_ids. by apply joined_ids.
Qed.

(** When the left keys do not repeat either and none is missing, this is
    the order of the left table. *)
Lemma subject_ids_merge (left right : DataFrame) :
  NoDup (subject_ids left) → None ∉ subject_ids left →
  NoDup (subject_ids right) →
  subject_ids (merge left right)
  = filter (λ x, x ∈ subject_ids right) (subject_ids left).
Proof.
  intros Hl Hnone Hr. rewrite subject_ids_merge_grouped by done.
  by rewrite grouped_by_key_NoDup.
Qed.




(** The subject ids of a join are those of both tables, whether or not
    ids repeat. *)
Lemma elem_of_subject_ids_merge (left right : DataFrame) (x : option string) :
  x ∈ subject_ids (merge left right)
  ↔ x ∈ subject_ids left ∧ x ∈ subject_ids right.
Proof.
  unfold subject_ids at 1, merge, range_index. cbn [rows].
  rewrite relabel_from_ids, (grouped_by_key_Permutation (rows left)).
  unfold subject_ids. rewrite list_elem_of_fmap. split.
  - intros ([y cells] & -> & Hin). cbn.
    apply list_elem_of_bind in Hin as (l & Hin & Hl).
    unfold join_row in Hin.
    apply list_elem_of_fmap in Hin as (r & [= -> ->] & Hr).
    apply list_elem_of_filter in Hr as [Heq Hr].
    split; [by apply list_elem_of_fmap_2|].
    rewrite <- Heq. by apply list_elem_of_fmap_2.
  - intros [Hl Hr].
    apply list_elem_of_fmap in Hl as (l & -> & Hl).
    apply list_elem_of_fmap in Hr as (r & Heq & Hr).
    exists (row_id l, row_cells l ++ row_cells r). split; [done|].
    apply list_elem_of_bind. exists l. split; [|done].
    unfold join_row. apply list_elem_of_fmap. exists r. split; [done|].
    by apply list_elem_of_filter.
Qed.

End Join.

(** ** One iteration of the merge loop *)

Section MergeStep.

(** The section loader as a function of the configuration, the files
    and the file matcher. *)
Lemma grep_files_by_data_section_eq (name : string) (st : State) :
  grep_files_by_data_section name st
  = match dict_get (data_param (self st)) name with
    | None => (with_log st [(FATAL, UnknownSectionName name)], Raises ValueError)
    | Some cfg =>
        match csv_file cfg with
        | None => (with_log st [(FATAL, MissingCsvFileField)], Raises AttributeError)
        | Some c =>
            if has_path_to_search cfg then
              match file_matcher (world st) cfg with
              | Raises e => (with_log st [(INFO, SearchFileFolders name c)], Raises e)
              | Returns matched =>
                  (mkState (self st)
                     (add_log ((INFO, SearchFileFolders name c)
                               :: read_failure (section_frame name (CsvFile matched)))
                              (set_file c (CsvFile matched) (world st))),
                   section_frame name (CsvFile matched))
              end
            else
              match files (world st) !! c with
              | None =>
                  (with_log st [(INFO, UsingExistingCsv name c);
                                (FATAL, CsvNotFound name c)], Raises IOError)
              | Some f =>
                  (with_log st ((INFO, UsingExistingCsv name c)
                                :: read_failure (section_frame name f)),
                   section_frame name f)
              end
        end
    end.
Proof.
  destruct (grep_files_by_data_section_cases name st)
    as [Hd|cfg Hd Hc|cfg c e Hd Hc Hs Hm|cfg c matched Hd Hc Hs Hm
        |cfg c Hd Hc Hs Hf|cfg c f Hd Hc Hs Hf];
    rewrite Hd; try rewrite Hc; try rewrite Hs; try rewrite Hm;
    try rewrite Hf; done.
Qed.

(** The entries the section loader logs are no warnings. *)
Lemma warned_read_failure (o : Outcome DataFrame) : warned (read_failure o) = [].
Proof. by destruct o. Qed.


(** The section loader reads the configuration, the files and the file
    matcher only: from two states that agree on these it returns the same
    table or raises the same exception, leaves the same files and logs
    the same entries, none of them a rows-not-matched warning. *)
Lemma grep_files_independent (name : string) (st st' : State) :
  data_param (self st') = data_param (self st) →
  files (world st') = files (world st) →
  file_matcher (world st') = file_matcher (world st) →
  let r := grep_files_by_data_section name st in
  let r' := grep_files_by_data_section name st' in
  r'.2 = r.2
  ∧ files (world r'.1) = files (world r.1)
  ∧ file_matcher (world r'.1) = file_matcher (world r.1)
  ∧ ∃ entries, log (world r.1) = log (world st) ++ entries
      ∧ log (world r'.1) = log (world st') ++ entries
      ∧ warned entries = [].
Proof.
  intros Hd Hf Hm r r'. subst r r'. rewrite !grep_files_by_data_section_eq.
  rewrite Hd, Hf, Hm.
  destruct (dict_get (data_param (self st)) name) as [cfg|].
  2:{ cbn [fst snd with_log self world add_log files file_matcher log].
      split_and!; [done..|]. by eexists. }
  destruct (csv_file cfg) as [c|].
  2:{ cbn [fst snd with_log self world add_log files file_matcher log].
      split_and!; [done..|]. by eexists. }
  destruct (has_path_to_search cfg).
  - destruct (file_matcher (world st) cfg) as [matched|e];
      cbn [fst snd with_log self world add_log set_file files file_matcher log];
      (split_and!; [done|by rewrite ?Hf|done|]);
      eexists; (split_and!; [reflexivity|reflexivity|]); [|done].
    cbn [warned omap]. apply warned_read_failure.
  - destruct (files (world st) !! c) as [f|];
      cbn [fst snd with_log self world add_log files file_matcher log];
      (split_and!; [done..|]);
      eexists; (split_and!; [reflexivity|reflexivity|]); [|done].
    cbn [warned omap]. apply warned_read_failure.
Qed.

(** The loop body, in terms of what the section loader returned. *)
Lemma load_section_eq (name : string) (st : State) :
  load_section name st
  = match grep_files_by_data_section name st with
    | (st1, Raises e) => (st1, Raises e)
    | (st1, Returns df) =>
        match _file_list (self st1) with
        | None => (mkState (set_file_list (Some df) (self st1)) (world st1), Returns tt)
        | Some fl =>
            let st2 := mkState (set_file_list (Some (merge fl df)) (self st1))
                               (world st1) in
            if (count (merge fl df) <? count fl)%Z
            then (with_log st2 [(WARNING, RowsNotMatched name)], Returns tt)
            else (st2, Returns tt)
        end
    end.
Proof.
  unfold load_section. mrun.
  destruct (grep_files_by_data_section name st) as [st1 [df|e]]; [|done].
  destruct (_file_list (self st1)) as [fl|]; mrun; [|done].
  by destruct (_ <? _).
Qed.

End MergeStep.

(** ** The merge loop *)

Section MergeLoop.

Lemma load_section_frame (name : string) (st : State) :
  let r := load_section name st in
  same_setting st r.1
  ∧ _partition_ids (self r.1) = _partition_ids (self st)
  ∧ random_draws (world r.1) = random_draws (world st)
  ∧ (∀ path, files (world r.1) !! path
       = match section_write (file_matcher (world st)) (data_param (self st)) name path with
         | Some c => Some c
         | None => files (world st) !! path
         end)
  ∧ (file_list_indexed st → file_list_indexed r.1)
  ∧ (r.2 = Returns tt → is_Some (_file_list (self r.1)))
  ∧ (∀ e, r.2 = Raises e → grep_files_by_data_section name st = (r.1, Raises e)).
Proof.
  intros r. subst r. rewrite load_section_eq.
  pose proof (grep_files_frame name st) as (Hself & Hset & Hdraws & Hfiles & Hsorted).
  destruct (grep_files_by_data_section name st) as [st1 [df|e]];
    cbn [fst snd] in *.
  2:{ split_and!; try done.
      - by rewrite Hself.
      - unfold file_list_indexed. by rewrite Hself.
      - intros e' He'. by inversion He'. }
  specialize (Hsorted df eq_refl).
  destruct st1 as [s1 w1]. cbn [self world] in *. subst s1.
  destruct (_file_list (self st)) as [fl|] eqn:Hfl.
  - destruct (_ <? _);
      cbn [fst snd with_log self world files add_log random_draws];
      (split_and!;
       [destruct Hset as (?&?&?&?&?&?); by repeat split
       |done|done|done| |by eexists|done]);
      intros _ fl' Hfl'; cbn in Hfl'; inversion Hfl'; apply merge_sorted.
  - cbn [fst snd self world].
    split_and!;
      [destruct Hset as (?&?&?&?&?&?); by repeat split
      |done|done|done| |by eexists|done].
    intros _ fl' Hfl'. cbn in Hfl'. by simplify_eq.
Qed.

Lemma load_sections_cons (name : string) (names : list string) (st : State) :
  load_sections (name :: names) st
  = match load_section name st with
    | (st1, Returns _) => load_sections names st1
    | (st1, Raises e) => (st1, Raises e)
    end.
Proof. cbn [load_sections]. mrun. by destruct (load_section name st) as [? [|]]. Qed.

Lemma load_sections_frame (names : list string) (st : State) :
  let r := load_sections names st in
  same_setting st r.1
  ∧ _partition_ids (self r.1) = _partition_ids (self st)
  ∧ random_draws (world r.1) = random_draws (world st)
  ∧ (file_list_indexed st → file_list_indexed r.1)
  ∧ (r.2 = Returns tt →
     ∀ path, files (world r.1) !! path
       = overwritten (file_matcher (world st)) (data_param (self st)) names
                     (files (world st)) path)
  ∧ (r.2 = Returns tt → names ≠ [] → is_Some (_file_list (self r.1)))
  ∧ (r.2 = Returns tt → names = [] → r.1 = st)
  ∧ (∀ e, r.2 = Raises e →
     ∃ name st_mid, name ∈ names
       ∧ data_param (self st_mid) = data_param (self st)
       ∧ grep_files_by_data_section name st_mid = (r.1, Raises e)).
Proof.
  revert st. induction names as [|name names IH]; intros st r; subst r.
  - cbn [load_sections]. mrun.
    split_and!; done || apply same_setting_refl.
  - rewrite load_sections_cons.
    pose proof (load_section_frame name st)
      as (Hset & Hids & Hdraws & Hfiles & Hidx & Hsome & Hraise).
    destruct (load_section name st) as [st1 [[]|e]]; cbn [fst snd] in *.
    2:{ split_and!; try done.
        intros e' He'. inversion He'; subst e'.
        exists name, st. split_and!; [apply list_elem_of_here | done | by apply Hraise]. }
    pose proof (IH st1)
      as (Hset' & Hids' & Hdraws' & Hidx' & Hfiles' & Hsome' & Hnil' & Hraise').
    split_and!.
    + by eapply same_setting_trans.
    + congruence.
    + congruence.
    + auto.
    + intros Hret path. rewrite (Hfiles' Hret path).
      unfold overwritten. cbn [last_write].
      destruct Hset as (Hd & _ & _ & _ & Hm & _). rewrite Hd, Hm.
      destruct (last_write _ _ names path); [done|]. apply Hfiles.
    + intros Hret _. destruct names as [|name' names'].
      * rewrite (Hnil' Hret eq_refl). by apply Hsome.
      * by apply Hsome'.
    + done.
    + intros e He. destruct (Hraise' e He) as (n & st_mid & Hin & Hdp & Hg).
      exists n, st_mid. split_and!; [by apply list_elem_of_further | | done].
      destruct Hset as (Hd & _). congruence.
Qed.

Lemma join_onto_cons (t : DataFrame) (ts : list DataFrame) :
  join_onto None (t :: ts) = Some (foldl merge t ts).
Proof.
  unfold join_onto. cbn [foldl]. revert t.
  induction ts as [|t' ts IH]; intros t; [done|]. cbn [foldl]. apply IH.
Qed.

(** The tables read do not depend on the running table or on the log. *)
Lemma loaded_tables_independent (names : list string)
    (s s' : ImageSetsPartitioner) (w w' : World) :
  data_param s' = data_param s →
  files w' = files w →
  file_matcher w' = file_matcher w →
  (loaded_tables s' names w').2 = (loaded_tables s names w).2
  ∧ files (loaded_tables s' names w').1 = files (loaded_tables s names w).1.
Proof.
  revert w w'. induction names as [|name names IH]; intros w w' Hd Hf Hm;
    cbn [loaded_tables]; [done|].
  destruct (grep_files_independent name (mkState s w) (mkState s' w') Hd Hf Hm)
    as (Ho & Hfs & Hms & _).
  pose proof (grep_files_frame name (mkState s w)) as (Hself & _).
  pose proof (grep_files_frame name (mkState s' w')) as (Hself' & _).
  destruct (grep_files_by_data_section name (mkState s w)) as [st1 [t|e]],
    (grep_files_by_data_section name (mkState s' w')) as [st1' [t'|e']];
    cbn [fst snd self] in *; try discriminate Ho.
  - injection Ho as ->. destruct (IH (world st1) (world st1') Hd Hfs Hms) as [Ho Hfs'].
    destruct (loaded_tables s names (world st1)) as [w2 [ts|e]],
      (loaded_tables s' names (world st1')) as [w2' [ts'|e']];
      cbn [fst snd] in *; try discriminate Ho; by simplify_eq.
  - injection Ho as ->. by split.
Qed.


End MergeLoop.

(** ** The merger *)

Section Merger.

Lemma frame_size_zero (fl : DataFrame) : (frame_size fl =? 0) = true ↔ rows fl = [].
Proof.
  unfold frame_size. rewrite Z.eqb_eq. split.
  - intros H. apply length_zero_iff_nil. lia.
  - intros ->. done.
Qed.

Lemma load_data_sections_by_subject_eq (st : State) :
  load_data_sections_by_subject st
  = match data_param (self st) with
    | [] => (with_log st [(FATAL, NothingToLoad)], Raises ValueError)
    | _ =>
        match load_sections (data_param (self st)).*1
                (mkState (set_file_list None (self st)) (world st)) with
        | (st1, Raises e) => (st1, Raises e)
        | (st1, Returns _) =>
            if match _file_list (self st1) with
               | None => true
               | Some fl => frame_size fl =? 0
               end
            then (with_log st1 [(FATAL, EmptyFilenameLists)], Raises IOError)
            else (st1, Returns tt)
        end
    end.
Proof.
  unfold load_data_sections_by_subject. mrun.
  destruct (data_param (self st)) as [|d ds]; [done|]. mrun.
  destruct (load_sections _ _) as [st1 [[]|e]]; [|done]. mrun.
  by destruct (match _file_list (self st1) with None => _ | _ => _ end).
Qed.

Lemma last_with_log (st : State) (entries : list (Level * Message)) (e : Level * Message) :
  last (log (world (with_log st (entries ++ [e])))) = Some e.
Proof. unfold with_log. cbn [world log add_log]. by rewrite app_assoc, last_snoc. Qed.

Lemma section_frame_raises_IOError (name : string) (f : File) :
  section_frame name f = Raises IOError → f = Unparsable IOError.
Proof.
  unfold section_frame. destruct (decide _); [done|].
  destruct f as [csv|e]; [done|]. by intros [= ->].
Qed.


(** C8 (amended).  The merger raises two fatal errors of its own.  For an
    empty section list it logs "nothing to load" and raises a
    [ValueError]; nothing else changes.  For a final table with zero rows
    it logs the diagnostic about empty filename lists and raises an
    [IOError].  An error raised while a section is loaded propagates
    unchanged, so an [IOError] of the merger means a final table with
    zero rows, a section whose csv file does not exist, a csv file on
    which [read_csv] raised an [IOError], or a search that raised one. *)
Theorem merger_fatal_errors (st : State) :
  let r := load_data_sections_by_subject st in
  let loop := load_sections (data_param (self st)).*1
                (mkState (set_file_list None (self st)) (world st)) in
  (data_param (self st) = [] →
     r = (with_log st [(FATAL, NothingToLoad)], Raises ValueError))
  ∧ (data_param (self st) ≠ [] →
       (∀ e, loop.2 = Raises e → r = loop)
       ∧ (loop.2 = Returns tt →
          ∃ fl, _file_list (self loop.1) = Some fl
            ∧ (rows fl = [] →
               r = (with_log loop.1 [(FATAL, EmptyFilenameLists)], Raises IOError))
            ∧ (rows fl ≠ [] → r = (loop.1, Returns tt))))
  ∧ (r.2 = Raises IOError →
       (∃ fl, _file_list (self r.1) = Some fl ∧ rows fl = []
          ∧ last (log (world r.1)) = Some (FATAL, EmptyFilenameLists))
       ∨ (∃ name c, name ∈ (data_param (self st)).*1
          ∧ files (world r.1) !! c = None
          ∧ last (log (world r.1)) = Some (FATAL, CsvNotFound name c))
       ∨ (∃ name cfg c, dict_get (data_param (self st)) name = Some cfg
          ∧ csv_file cfg = Some c
          ∧ files (world r.1) !! c = Some (Unparsable IOError)
          ∧ last (log (world r.1)) = Some (FATAL, ReprOf IOError))
       ∨ (∃ name cfg c, dict_get (data_param (self st)) name = Some cfg
          ∧ csv_file cfg = Some c
          ∧ file_matcher (world r.1) cfg = Raises IOError
          ∧ last (log (world r.1)) = Some (INFO, SearchFileFolders name c))).
Proof.
  intros r loop. subst r. rewrite load_data_sections_by_subject_eq.
  pose proof (load_sections_frame (data_param (self st)).*1
                (mkState (set_file_list None (self st)) (world st)))
    as (_ & _ & _ & _ & _ & Hsome & _ & Hraise).
  fold loop in Hsome, Hraise |- *.
  destruct (data_param (self st)) as [|d ds] eqn:Hd.
  { split_and!; done. }
  assert (Hne : (d :: ds).*1 ≠ []) by done.
  destruct loop as [st1 [[]|e]] eqn:Hloop; cbn [fst snd] in *.
  - destruct (Hsome eq_refl Hne) as [fl Hfl]. rewrite Hfl.
    destruct (frame_size fl =? 0) eqn:E.
    + apply frame_size_zero in E. split_and!; [done| |].
      * intros _. split; [done|]. intros _. exists fl. by split_and!.
      * intros _. left. exists fl. split_and!; [done..|].
        apply (last_with_log st1 []).
    + assert (rows fl ≠ []).
      { intros Hnil. apply frame_size_zero in Hnil. congruence. }
      split_and!; [done| |done].
      intros _. split; [done|]. intros _. exists fl. by split_and!.
  - split_and!; [done| |].
    + intros _. split; [by intros e' [= ->]|done].
    + intros [= ->]. right.
      destruct (Hraise IOError eq_refl) as (name & st_mid & Hin & Hdp & Hgrep).
      cbn [self set_file_list data_param] in Hdp. rewrite Hd in Hdp.
      destruct (grep_files_by_data_section_cases name st_mid)
        as [Hd'|cfg Hd' Hc|cfg c e Hd' Hc Hs Hm|cfg c matched Hd' Hc Hs Hm
            |cfg c Hd' Hc Hs Hf|cfg c f Hd' Hc Hs Hf];
        try discriminate.
      * right. right. injection Hgrep as <- ->.
        exists name, cfg, c. rewrite <- Hdp.
        split_and!; [done | done | done | apply (last_with_log st_mid [])].
      * exfalso. injection Hgrep as _ Hframe. unfold section_frame in Hframe.
        by destruct (decide _).
      * left. exists name, c. injection Hgrep as <-.
        split_and!; [done | done | apply (last_with_log st_mid [_])].
      * right. left. injection Hgrep as <- Hframe. rewrite Hframe.
        apply section_frame_raises_IOError in Hframe. subst f.
        exists name, cfg, c. rewrite <- Hdp.
        split_and!; [done | done | done | apply (last_with_log st_mid [_])].
Qed.

End Merger.

(** ** The splitter, in both modes *)

Section SplitterModes.

(** Loading an existing split ([overwrite=False]). *)
Lemma randomly_split_dataset_load (st : State) :
  let st_w := if truthy (ratios (self st))
              then with_log st [(WARNING, IgnoringRatios)] else st in
  randomly_split_dataset false st
  = match files (world st) !! data_split_file (self st) with
    | None => (st_w, Returns tt)
    | Some (CsvFile csv) =>
        (mkState (set_partition_ids (Some (partition_of_csv csv)) (self st_w))
                 (world st_w), Returns tt)
    | Some (Unparsable e) => (with_log st_w [(WARNING, ReprOf e)], Returns tt)
    end.
Proof.
  destruct st as [s w]. cbn zeta. unfold randomly_split_dataset. mrun.
  destruct (files w !! data_split_file s) as [[csv|e]|] eqn:Hf;
    destruct (truthy (ratios s)); mrun; unfold with_log; mrun; rewrite Hf.
  all: first [ rewrite bool_decide_eq_true_2 by eauto
             | rewrite bool_decide_eq_false_2 by (intros [? ?]; congruence) ].
  all: mrun; rewrite ?read_csv_split; mrun; rewrite ?Hf; done.
Qed.

Lemma clamped_fractions_raises (r : option (list RatioItem)) (e : Exn) :
  clamped_fractions r = Raises e → e ∈ [TypeError; ValueError].
Proof.
  unfold clamped_fractions, to_float. intros H.
  repeat case_match; simplify_eq; set_solver.
Qed.

Lemma clamped_fractions_returns (r : option (list RatioItem)) (fr : Q * Q) :
  clamped_fractions r = Returns fr →
  ∃ v i, r = Some [Num v; Num i]
         ∧ fr = (clamp (binary64 v), clamp (binary64 i)).
Proof.
  unfold clamped_fractions, to_float. intros H.
  repeat case_match; simplify_eq; eauto.
Qed.

(** A new split with malformed ratios logs and re-raises. *)
Lemma randomly_split_dataset_malformed (st : State) (e : Exn) :
  clamped_fractions (ratios (self st)) = Raises e →
  randomly_split_dataset true st
  = (with_log st [(FATAL, UnknownFormatOfFractions (ratios (self st)))], Raises e).
Proof.
  intros H. destruct st as [s w]. cbn [self world] in *.
  unfold randomly_split_dataset, with_log. mrun.
  rewrite H. by rewrite bool_decide_eq_true_2 by by eapply clamped_fractions_raises.
Qed.

Lemma ceil_count_of_zero (x : Q) : ceil_count 0 x = 0.
Proof.
  unfold ceil_count, float_product. change (inject_Z 0) with 0%Q.
  rewrite binary64_zero, (binary64_proper (0 * x) 0) by apply Qmult_0_l.
  by rewrite binary64_zero.
Qed.

(** A new split without a file list fails on the subject_id column. *)
Lemma randomly_split_dataset_no_file_list (st : State) (fr : Q * Q) :
  clamped_fractions (ratios (self st)) = Returns fr →
  _file_list (self st) = None →
  randomly_split_dataset true st = (st, Raises TypeError).
Proof.
  intros H Hfl. destruct st as [s w]. cbn [self world] in *.
  unfold randomly_split_dataset. mrun.
  rewrite H, (number_of_subjects_absent s ALL Hfl). mrun. rewrite Hfl.
  rewrite !ceil_count_of_zero. change (truncated_phases 0 0 0) with (@nil string).
  cbn [length Nat.sub]. rewrite Nat.add_0_r. by destruct w.
Qed.

(** Neither mode touches the file list or the configuration; when the
    splitter raises, the partition table is as before. *)
Lemma randomly_split_dataset_frame (overwrite : bool) (st : State) :
  let r := randomly_split_dataset overwrite st in
  _file_list (self r.1) = _file_list (self st)
  ∧ same_setting st r.1
  ∧ (∀ e, r.2 = Raises e → _partition_ids (self r.1) = _partition_ids (self st)).
Proof.
  intros r. subst r. destruct overwrite.
  - destruct (clamped_fractions (ratios (self st))) as [fr|e] eqn:Hfr.
    + destruct (_file_list (self st)) as [fl|] eqn:Hfl.
      * destruct (clamped_fractions_returns _ _ Hfr) as (v & i & Hr & _).
        rewrite (randomly_split_dataset_overwrite st fl v i Hfl Hr).
        cbn [fst snd self world]. split_and!; [done|by repeat split|done].
      * rewrite (randomly_split_dataset_no_file_list st fr Hfr Hfl).
        split_and!; [done|by repeat split|done].
    + rewrite (randomly_split_dataset_malformed st e Hfr).
      split_and!; [done|by repeat split|done].
  - rewrite randomly_split_dataset_load.
    destruct (files (world st) !! data_split_file (self st)) as [[csv|e]|];
      destruct (truthy (ratios (self st)));
      split_and!; done || by repeat split.
Qed.

End SplitterModes.

(** ** The partition table read from a file *)

Section PartitionTable.

Lemma partition_of_csv_ids (csv : list (option string * option string)) :
  prow_id <$> partition_of_csv csv = csv.*1.
Proof.
  unfold partition_of_csv. rewrite fmap_imap.
  generalize 0%nat. intros k. unfold imap.
  induction csv as [|x csv IH] in k |- *; [done|].
  cbn. f_equal. apply (IH (S k)).
Qed.

Lemma partition_of_csv_phases (csv : list (option string * option string)) :
  prow_phase <$> partition_of_csv csv = csv.*2.
Proof.
  unfold partition_of_csv. rewrite fmap_imap.
  generalize 0%nat. intros k. unfold imap.
  induction csv as [|x csv IH] in k |- *; [done|].
  cbn. f_equal. apply (IH (S k)).
Qed.

Lemma partition_of_csv_labels (csv : list (option string * option string)) :
  prow_label <$> partition_of_csv csv = seq 0 (length csv).
Proof.
  unfold partition_of_csv.
  assert (H : ∀ k, prow_label <$> imap (λ i r, mkPhaseRow (k + i) r.1 r.2) csv
                   = seq k (length csv)).
  { induction csv as [|x csv IH]; intros k; cbn [imap fmap list_fmap length seq];
      [done|].
    f_equal; [cbn; lia|]. rewrite <- (IH (S k)). f_equal.
    apply imap_ext. intros j r _. cbn. f_equal. lia. }
  apply (H 0%nat).
Qed.

End PartitionTable.

(** ** Initialisation *)

Section Initialise.

Lemma load_data_sections_frame (st : State) :
  let r := load_data_sections_by_subject st in
  same_setting st r.1
  ∧ _partition_ids (self r.1) = _partition_ids (self st)
  ∧ random_draws (world r.1) = random_draws (world st)
  ∧ (file_list_indexed st → file_list_indexed r.1)
  ∧ (r.2 = Returns tt →
     is_Some (_file_list (self r.1))
     ∧ ∀ path, files (world r.1) !! path
         = overwritten (file_matcher (world st)) (data_param (self st))
                       (data_param (self st)).*1 (files (world st)) path).
Proof.
  intros r. subst r. rewrite load_data_sections_by_subject_eq.
  destruct (data_param (self st)) as [|d ds] eqn:Hd.
  { cbn [fst snd with_log self world add_log random_draws].
    split_and!; done || by repeat split. }
  pose proof (load_sections_frame (d :: ds).*1
                (mkState (set_file_list None (self st)) (world st)))
    as (Hset & Hids & Hdraws & Hidx & Hfiles & Hsome & _ & _).
  assert (Hidx0 : file_list_indexed
                    (mkState (set_file_list None (self st)) (world st))).
  { intros fl Hfl. cbn in Hfl. discriminate. }
  specialize (Hidx Hidx0).
  assert (Hne : (d :: ds).*1 ≠ []) by done.
  cbn [self world set_file_list data_param _partition_ids files file_matcher]
    in Hfiles, Hids, Hdraws.
  rewrite Hd in Hfiles.
  assert (Hset' : ∀ st', same_setting
                    (mkState (set_file_list None (self st)) (world st)) st' →
                  same_setting st st').
  { intros st' (?&?&?&?&?&?). by repeat split. }
  destruct (load_sections _ _) as [st1 [[]|e]]; cbn [fst snd] in *.
  - destruct (Hsome eq_refl Hne) as [fl Hfl]. rewrite Hfl.
    destruct (frame_size fl =? 0);
      cbn [fst snd with_log self world files add_log random_draws].
    + split_and!; [|done|done|done|done].
      apply Hset' in Hset. destruct Hset as (?&?&?&?&?&?). by repeat split.
    + split_and!; [by apply Hset'|done|done|done|].
      intros _. split; [by rewrite Hfl|]. by apply Hfiles.
  - split_and!; [by apply Hset'|done|done|done|done].
Qed.

(** [initialise] first resets the singleton, then loads, then splits. *)
Lemma initialise_eq (d : list (string * SectionCfg)) (np : bool) (f : string)
    (r : option (list RatioItem)) (st : State) :
  initialise d np f r st
  = match load_data_sections_by_subject (reset_state st d f r) with
    | (st1, Raises e) => (st1, Raises e)
    | (st1, Returns _) =>
        match randomly_split_dataset np
                (mkState (set_new_partition np (self st1)) (world st1)) with
        | (st2, Raises e) => (st2, Raises e)
        | (st2, Returns _) => (with_log st2 [(INFO, Summary)], Returns tt)
        end
    end.
Proof.
  unfold initialise, reset_state. mrun.
  destruct (load_data_sections_by_subject _) as [st1 [[]|e]]; [|done]. mrun.
  by destruct (randomly_split_dataset np _) as [st2 [[]|e]].
Qed.

End Initialise.

Section InitialiseInvariant.

(** Whatever [initialise] leaves as file list carries a fresh range
    index, whether it returns or raises. *)
Lemma initialise_file_list_indexed (d : list (string * SectionCfg)) (np : bool)
    (f : string) (r : option (list RatioItem)) (st : State) :
  file_list_indexed (initialise d np f r st).1.
Proof.
  rewrite initialise_eq.
  pose proof (load_data_sections_frame (reset_state st d f r))
    as (_ & _ & _ & Hidx & _).
  assert (H0 : file_list_indexed (reset_state st d f r)).
  { intros fl Hfl. cbn in Hfl. discriminate. }
  specialize (Hidx H0).
  destruct (load_data_sections_by_subject _) as [st1 [[]|e]]; cbn [fst] in *;
    [|done].
  pose proof (randomly_split_dataset_frame np
                (mkState (set_new_partition np (self st1)) (world st1)))
    as (Hfl & _).
  destruct (randomly_split_dataset np _) as [st2 [[]|e]]; cbn [fst] in *;
    intros fl Hfl'; apply Hidx; cbn in *; congruence.
Qed.

End InitialiseInvariant.

Section AllSubjects.


End AllSubjects.

Section LoadExistingSplit.


(** What a returning [initialise] in load mode leaves behind. *)
Lemma initialise_load_returns (d : list (string * SectionCfg)) (f : string)
    (r : option (list RatioItem)) (st st1 : State) :
  initialise d false f r st = (st1, Returns tt) →
  _partition_ids (self st1) = read_partition (files (world st1)) f
  ∧ file_matcher (world st1) = file_matcher (world st)
  ∧ random_source (world st1) = random_source (world st)
  ∧ random_draws (world st1) = random_draws (world st)
  ∧ ∀ path, files (world st1) !! path
      = overwritten (file_matcher (world st)) d d.*1 (files (world st)) path.
Proof.
  rewrite initialise_eq.
  pose proof (load_data_sections_frame (reset_state st d f r))
    as (Hset & Hids & Hdraws & _ & Hret).
  destruct (load_data_sections_by_subject _) as [sa [[]|e]]; [|done].
  cbn [fst snd] in *. destruct (Hret eq_refl) as [_ Hfiles]. clear Hret.
  cbn [reset_state self world data_param files file_matcher _partition_ids]
    in Hfiles, Hids, Hdraws.
  destruct Hset as (_ & _ & _ & Hf & Hm & Hsrc).
  cbn [reset_state self world data_split_file file_matcher] in Hf, Hm, Hsrc.
  rewrite randomly_split_dataset_load.
  cbn [self world set_new_partition data_split_file ratios]. rewrite Hf.
  unfold read_partition.
  destruct (files (world sa) !! f) as [[csv|e]|] eqn:Hfile;
    destruct (truthy (ratios sa.(self))); intros [= <-];
    cbn [with_log self world files file_matcher _partition_ids add_log
         random_source random_draws set_partition_ids set_new_partition];
    rewrite ?Hfile; done.
Qed.


End LoadExistingSplit.

Section UnreadableSplit.

(** A query by phase without a partition table logs and raises. *)
Lemma get_file_list_without_partition (st : State) (fl : DataFrame) (phase : string) :
  _file_list (self st) = Some fl →
  _partition_ids (self st) = None →
  phase ≠ ALL →
  (get_file_list phase [] st).2 = Raises ValueError.
Proof.
  intros Hfl Hids Hphase. destruct st as [s w]. cbn [self world] in *.
  unfold get_file_list. mrun. rewrite Hfl, Hids. mrun.
  rewrite decide_False by done. mrun.
  destruct (new_partition s); mrun; [done|].
  by destruct (bool_decide _).
Qed.

(** C9 (amended).  In load mode ([overwrite=False]) a split file that
    exists but on which [read_csv] raises is not fatal, whatever the
    exception is: the error is logged as a warning, the call returns,
    and the singleton, hence the partition table, is as before (absent,
    within [initialise]).  The failure surfaces later: a query by phase
    then raises a [ValueError]. *)
Theorem unparsable_split_file_is_a_warning (st : State) (e : Exn) :
  files (world st) !! data_split_file (self st) = Some (Unparsable e) →
  let r := randomly_split_dataset false st in
  r.2 = Returns tt
  ∧ self r.1 = self st
  ∧ files (world r.1) = files (world st)
  ∧ log (world r.1)
    = (log (world st)
       ++ if truthy (ratios (self st)) then [(WARNING, IgnoringRatios)] else [])
      ++ [(WARNING, ReprOf e)]
  ∧ (∀ fl phase, _file_list (self st) = Some fl →
       _partition_ids (self st) = None → phase ≠ ALL →
       (get_file_list phase [] r.1).2 = Raises ValueError).
Proof.
  intros Hfile r. subst r. rewrite randomly_split_dataset_load, Hfile.
  assert (Hself : self (if truthy (ratios (self st))
                        then with_log st [(WARNING, IgnoringRatios)] else st)
                  = self st) by by destruct (truthy _).
  cbn [fst snd with_log self world files log add_log]. rewrite Hself.
  split_and!; try done.
  - by destruct (truthy _).
  - destruct (truthy _); cbn [with_log world log add_log]; [done|].
    by rewrite app_nil_r.
  - intros fl phase Hfl Hids Hphase.
    apply (get_file_list_without_partition _ fl); [| |done];
      cbn [with_log self]; by rewrite Hself.
Qed.

End UnreadableSplit.

Section FailedInitialise.

(** C2 (amended).  [initialise] discards the tables held before the call
    ahead of both steps, so its result does not depend on them.  When it
    raises, the prior tables are not restored: the partition table is
    absent, [data_param], [data_split_file] and [ratios] are those of the
    failed call, and the file table is absent or one built by the failed
    call itself.  [new_partition] is assigned between the two steps: it
    keeps the value of the previous call when the merge step raises and
    has the value of the failed call when the split step raises.  With an
    empty section list both tables are absent; with malformed ratios in
    overwrite mode the file table is the newly merged one. *)
Theorem failed_initialise_discards_prior_tables
    (d : list (string * SectionCfg)) (np : bool) (f : string)
    (r : option (list RatioItem)) (st : State) :
  let res := initialise d np f r st in
  let merged := load_data_sections_by_subject (reset_state st d f r) in
  res = initialise d np f r
          (mkState (set_partition_ids None (set_file_list None (self st)))
                   (world st))
  ∧ (∀ e, res.2 = Raises e →
       _partition_ids (self res.1) = None
       ∧ data_param (self res.1) = d
       ∧ data_split_file (self res.1) = f
       ∧ ratios (self res.1) = r
       ∧ file_list_indexed res.1)
  ∧ (∀ e, merged.2 = Raises e →
       res = merged ∧ new_partition (self res.1) = new_partition (self st))
  ∧ (∀ e, merged.2 = Returns tt → res.2 = Raises e →
       new_partition (self res.1) = np
       ∧ _file_list (self res.1) = _file_list (self merged.1)
       ∧ is_Some (_file_list (self res.1)))
  ∧ (d = [] →
       res.2 = Raises ValueError
       ∧ _file_list (self res.1) = None
       ∧ _partition_ids (self res.1) = None)
  ∧ (∀ e st1, np = true → clamped_fractions r = Raises e →
       merged = (st1, Returns tt) →
       res.2 = Raises e
       ∧ is_Some (_file_list (self st1))
       ∧ _file_list (self res.1) = _file_list (self st1)
       ∧ _partition_ids (self res.1) = None).
Proof.
  intros res merged. subst res merged. split_and!.
  - by rewrite !initialise_eq.
  - intros e He.
    pose proof (initialise_file_list_indexed d np f r st) as Hidx.
    rewrite initialise_eq in He, Hidx |- *.
    pose proof (load_data_sections_frame (reset_state st d f r))
      as ((Hd & Hr & _ & Hf & _) & Hids & _).
    cbn [reset_state self world data_param ratios data_split_file
         _partition_ids] in Hd, Hr, Hf, Hids.
    destruct (load_data_sections_by_subject _) as [st1 [[]|e1]];
      cbn [fst snd] in *; [|by split_and!].
    pose proof (randomly_split_dataset_frame np
                  (mkState (set_new_partition np (self st1)) (world st1)))
      as (_ & (Hd' & Hr' & _ & Hf' & _) & Hids').
    cbn [self world data_param ratios data_split_file _partition_ids
         set_new_partition] in Hd', Hr', Hf', Hids'.
    destruct (randomly_split_dataset np _) as [st2 [[]|e2]];
      cbn [fst snd] in *; [done|].
    specialize (Hids' e2 eq_refl). split_and!; congruence || done.
  - intros e He. rewrite initialise_eq.
    pose proof (load_data_sections_frame (reset_state st d f r))
      as ((_ & _ & Hnp & _) & _).
    cbn [reset_state self new_partition] in Hnp.
    destruct (load_data_sections_by_subject _) as [st1 [[]|e1]];
      cbn [fst snd] in *; [done|]. by split.
  - intros e Hret He. rewrite initialise_eq in He |- *.
    pose proof (load_data_sections_frame (reset_state st d f r))
      as (_ & _ & _ & _ & Hsome).
    destruct (load_data_sections_by_subject _) as [st1 [[]|e1]];
      cbn [fst snd] in *; [|done].
    destruct (Hsome eq_refl) as [Hfl _].
    pose proof (randomly_split_dataset_frame np
                  (mkState (set_new_partition np (self st1)) (world st1)))
      as (Hfl' & (_ & _ & Hnp' & _) & _).
    cbn [self world new_partition _file_list set_new_partition] in Hfl', Hnp'.
    destruct (randomly_split_dataset np _) as [st2 [[]|e2]];
      cbn [fst snd] in *; [done|].
    split_and!; [done|done|by rewrite Hfl'].
  - intros ->. rewrite initialise_eq, load_data_sections_by_subject_eq.
    by cbn.
  - intros e st1 -> Hfr Hload. rewrite initialise_eq, Hload.
    pose proof (load_data_sections_frame (reset_state st d f r))
      as ((_ & Hr & _) & Hids & _ & _ & Hret).
    rewrite Hload in Hr, Hids, Hret. cbn [fst snd] in *.
    cbn [reset_state self world ratios _partition_ids] in Hr, Hids.
    destruct (Hret eq_refl) as [Hsome _].
    rewrite (randomly_split_dataset_malformed _ e)
      by (cbn [self set_new_partition ratios]; by rewrite Hr).
    cbn [fst snd with_log self set_new_partition _file_list _partition_ids].
    by split_and!.
Qed.

End FailedInitialise.

(** * The scenarios, evaluated *)

Section Scenarios.

(** The stores used below are the ones [initialise] builds. *)
Example unsplit_store_reached :
  self (initialise one_section false "missing.csv" None start).1 = unsplit_store.
Proof. by vm_compute. Qed.

Example split_store_reached :
  self (initialise two_sections false "split.csv" None start).1 = split_store.
Proof. by vm_compute. Qed.

Example after_first_section_reached :
  (load_section "T1" (reset_state start two_sections "split.csv" None)).1
  = after_first_section.
Proof. by vm_compute. Qed.

(** The unmatched-subjects scenario: T1 lists s1, s2, s3 and T2 lists
    s2, s3, s4; the merged table keeps s2 and s3 and the shrinkage is
    logged. *)
Example unmatched_subjects_scenario :
  let r := load_data_sections_by_subject
             (reset_state start two_sections "split.csv" None) in
  r.2 = Returns tt
  ∧ subject_ids <$> _file_list (self r.1) = Some [Some "s2"; Some "s3"]
  ∧ log (world r.1)
    = [(INFO, UsingExistingCsv "T1" "t1.csv");
       (INFO, UsingExistingCsv "T2" "t2.csv");
       (WARNING, RowsNotMatched "T2")].
Proof. split_and!; by vm_compute. Qed.

(** Four subjects and ratios (0.25, 0.25): one validation label, one
    inference label, two train labels. *)
Example quarter_ratios_scenario :
  split_labels 4 (1 # 4) (1 # 4) = [TRAIN; TRAIN; VALID; INFER].
Proof. by vm_compute. Qed.

(** Ratios out of range are clamped: (1.5, -0.5) labels every subject
    for validation. *)
Example clamped_ratios_scenario :
  split_labels 3 (3 # 2) (- 1 # 2) = [VALID; VALID; VALID].
Proof. by vm_compute. Qed.

(** The float product is rounded before the ceiling is taken: ten
    subjects at 0.1 give one validation subject, a hundred at 0.07 give
    eight. *)
Example rounded_products_scenario :
  ceil_count 10 (clamp (binary64 (1 # 10))) = 1
  ∧ ceil_count 100 (clamp (binary64 (7 # 100))) = 8
  ∧ Qceiling (10 * (1 # 10)) = 1
  ∧ Qceiling (100 * (7 # 100)) = 7.
Proof. split_and!; by vm_compute. Qed.

(** A subject id that is missing is not counted. *)
Example missing_id_scenario :
  length (rows gap_subjects) = 2%nat ∧ count gap_subjects = 1.
Proof. split; by vm_compute. Qed.

Lemma new_split_persists_total_n_labels_witness :
  let result := randomly_split_dataset true tenth_ratios_state in
  ∃ phases : list string,
    result.2 = Returns tt
    ∧ files (world result.1) !! "new.csv"
      = Some (CsvFile (zip (subject_ids ten_subjects) (Some <$> phases)))
    ∧ Z.of_nat (length phases) = 10
    ∧ occurrences TRAIN phases = 8
    ∧ occurrences VALID phases = 1
    ∧ occurrences INFER phases = 1.
Proof.
  intros result.
  pose proof (new_split_persists_total_n_labels tenth_ratios_state
                ten_subjects (1 # 10) (1 # 10) eq_refl eq_refl) as H.
  cbv zeta in H.
  destruct H as (phases & Hret & Hfile & _ & _ & _ & _ & Hlen & _ & _
                 & Ht & Hv & Hi & _).
  exists phases. split_and!.
  - exact Hret.
  - exact Hfile.
  - etrans; [exact Hlen | by vm_compute].
  - etrans; [exact Ht | by vm_compute].
  - etrans; [exact Hv | by vm_compute].
  - etrans; [exact Hi | by vm_compute].
Defined.

(** Three subjects and ratios (2/3, 2/3): two validation and two
    inference labels for three subjects; one inference label is cut. *)
Lemma truncation_trims_the_tail_witness :
  let result := randomly_split_dataset true overlapping_ratios_state in
  result.2 = Returns tt
  ∧ files (world result.1) !! "split.csv"
    = Some (CsvFile
              (zip (subject_ids three_subjects)
                   (Some <$> shuffled (λ k _, k) 0 [VALID; VALID; INFER])))
  ∧ [VALID; VALID; INFER; INFER] = [VALID; VALID; INFER] ++ [] ++ [INFER].
Proof.
  intros result.
  pose proof (truncation_trims_the_tail overlapping_ratios_state
                three_subjects (2 # 3) (2 # 3) eq_refl eq_refl) as H.
  cbv zeta in H.
  destruct H as (Hret & Hfile & _ & _ & Hcut & _); [by vm_compute|].
  split_and!.
  - exact Hret.
  - etrans; [exact Hfile | by vm_compute].
  - etrans; [|etrans; [exact Hcut|]]; by vm_compute.
Defined.

(** C3, counterexample: a phase other than "all", a file table and no
    partition table; the call returns the number of subjects. *)
Lemma number_of_subjects_train_without_partition :
  (TRAIN ≠ ALL
   ∧ _file_list unsplit_store = Some three_subjects
   ∧ _partition_ids unsplit_store = None
   ∧ number_of_subjects unsplit_store TRAIN = Returns 3)
  ∧ ¬ (∀ (s : ImageSetsPartitioner) (phase : string),
         phase ≠ ALL → is_Some (_file_list s) → _partition_ids s = None →
         ∃ e, number_of_subjects s phase = Raises e).
Proof.
  split; [split_and!; [done|done|done|by vm_compute]|].
  intros Hclaim.
  destruct (Hclaim unsplit_store TRAIN) as [e He]; [done|by eexists|done|].
  vm_compute in He. discriminate.
Qed.

Lemma number_of_subjects_without_partition_witness :
  number_of_subjects unsplit_store "Train" = Returns 3
  ∧ number_of_subjects unsplit_store "trian" = Raises ValueError
  ∧ number_of_subjects fresh_partitioner "trian" = Returns 0
  ∧ number_of_subjects
      (mkPartitioner (Some gap_subjects) None one_section None false "missing.csv")
      "Train" = Returns 1.
Proof.
  split_and!.
  - destruct (number_of_subjects_without_partition unsplit_store "Train") as [_ H].
    destruct (H three_subjects eq_refl eq_refl) as [Hin _].
    apply Hin. by vm_compute.
  - destruct (number_of_subjects_without_partition unsplit_store "trian") as [_ H].
    destruct (H three_subjects eq_refl eq_refl) as [_ Hnin].
    apply Hnin. by vm_compute.
  - destruct (number_of_subjects_without_partition fresh_partitioner "trian") as [H _].
    by apply H.
  - destruct (number_of_subjects_without_partition
                (mkPartitioner (Some gap_subjects) None one_section None false
                               "missing.csv") "Train") as [_ H].
    destruct (H gap_subjects eq_refl eq_refl) as [Hin _].
    apply Hin. by vm_compute.
Defined.

Lemma get_file_list_does_not_validate_phase_witness :
  get_file_list "trian" [] (mkState split_store environment)
  = (with_log (mkState split_store environment) [(WARNING, EmptySubset "trian")],
     Returns NoneResult)
  ∧ number_of_subjects split_store "trian" = Raises ValueError.
Proof.
  destruct (get_file_list_does_not_validate_phase
              (mkState split_store environment)
              (merge three_subjects (frame_of_csv "T2" t2_rows))
              (partition_of_csv split_rows_on_disk) "trian" [])
    as [Hget Hcount].
  - done.
  - reflexivity.
  - reflexivity.
  - constructor.
  - by vm_compute; repeat constructor.
  - split; [exact Hget|]. apply Hcount. by vm_compute.
Defined.






(** C8, counterexample: an empty section list raises a [ValueError], not
    an [IOError], with the short "nothing to load" message; and a
    missing csv file is a third way to an [IOError]. *)
Lemma merger_empty_list_is_a_value_error :
  (data_param (self start) = []
   ∧ load_data_sections_by_subject start
     = (with_log start [(FATAL, NothingToLoad)], Raises ValueError)
   ∧ ValueError ≠ IOError
   ∧ (let r := load_data_sections_by_subject
                 (reset_state start missing_cache_sections "split.csv" None) in
      r.2 = Raises IOError
      ∧ _file_list (self r.1) = Some three_subjects
      ∧ last (log (world r.1)) = Some (FATAL, CsvNotFound "T9" "absent.csv")))
  ∧ ¬ (∀ st : State,
         data_param (self st) = [] →
         (load_data_sections_by_subject st).2 = Raises IOError)
  ∧ ¬ (∀ st : State,
         let r := load_data_sections_by_subject st in
         r.2 = Raises IOError →
         data_param (self st) = []
         ∨ ∃ fl, _file_list (self r.1) = Some fl ∧ rows fl = []).
Proof.
  split; [split_and!; by vm_compute|]. split.
  - intros Hclaim. specialize (Hclaim start eq_refl).
    vm_compute in Hclaim. discriminate.
  - intros Hclaim.
    destruct (Hclaim (reset_state start missing_cache_sections "split.csv" None))
      as [Hempty|(fl & Hfl & Hrows)]; [by vm_compute|discriminate|].
    vm_compute in Hfl. injection Hfl as <-. discriminate.
Qed.

Lemma merger_fatal_errors_witness :
  load_data_sections_by_subject start
  = (with_log start [(FATAL, NothingToLoad)], Raises ValueError)
  ∧ (let st := reset_state start disjoint_sections "split.csv" None in
     let loop := load_sections disjoint_sections.*1
                   (mkState (set_file_list None (self st)) (world st)) in
     load_data_sections_by_subject st
     = (with_log loop.1 [(FATAL, EmptyFilenameLists)], Raises IOError))
  ∧ (let r := load_data_sections_by_subject
                (reset_state start locked_sections "split.csv" None) in
     r.2 = Raises IOError
     ∧ last (log (world r.1)) = Some (FATAL, ReprOf IOError)).
Proof.
  split_and!.
  - apply (proj1 (merger_fatal_errors start)). reflexivity.
  - intros st loop.
    destruct (merger_fatal_errors st) as (_ & Hne & _).
    destruct Hne as [_ Hret]; [done|].
    destruct Hret as (fl & Hfl & Hzero & _); [by vm_compute|].
    apply Hzero. vm_compute in Hfl. by injection Hfl as <-.
  - intros r.
    destruct (merger_fatal_errors
                (reset_state start locked_sections "split.csv" None))
      as (_ & Hne & _).
    destruct Hne as [Hraise _]; [done|].
    subst r. rewrite (Hraise IOError) by by vm_compute.
    split; by vm_compute.
Defined.

(** C9, counterexample: the split file exists and cannot be parsed;
    [initialise] in load mode returns, without a partition table. *)
Lemma unparsable_split_file_does_not_raise :
  let r := initialise one_section false "broken.csv" None start in
  (files (world start) !! "broken.csv" = Some (Unparsable ValueError)
   ∧ r.2 = Returns tt
   ∧ _partition_ids (self r.1) = None
   ∧ log (world r.1)
     = [(INFO, UsingExistingCsv "T1" "t1.csv"); (WARNING, ReprOf ValueError);
        (INFO, Summary)])
  ∧ ¬ (∀ (st : State) (e : Exn),
         files (world st) !! data_split_file (self st) = Some (Unparsable e) →
         (randomly_split_dataset false st).2 = Raises IOError).
Proof.
  split; [split_and!; by vm_compute|].
  intros Hclaim. specialize (Hclaim broken_split_state ValueError).
  vm_compute in Hclaim. by specialize (Hclaim eq_refl).
Qed.

Lemma unparsable_split_file_is_a_warning_witness :
  let r := randomly_split_dataset false broken_split_state in
  r.2 = Returns tt
  ∧ self r.1 = self broken_split_state
  ∧ (get_file_list TRAIN [] r.1).2 = Raises ValueError.
Proof.
  intros r.
  destruct (unparsable_split_file_is_a_warning broken_split_state ValueError)
    as (Hret & Hself & _ & _ & Hquery); [by vm_compute|].
  split_and!; [exact Hret | exact Hself |].
  by apply (Hquery three_subjects TRAIN).
Defined.

(** C2, counterexample: a store with both tables, then a call with an
    empty section list: the call raises and both tables are gone; and a
    call whose second section has no csv file leaves the table of the
    first section behind. *)
Lemma failed_initialise_loses_prior_tables :
  let before := mkState split_store environment in
  let r := initialise [] false "split.csv" None before in
  r.2 = Raises ValueError
  ∧ _file_list (self before)
    = Some (merge three_subjects (frame_of_csv "T2" t2_rows))
  ∧ _partition_ids (self before) = Some (partition_of_csv split_rows_on_disk)
  ∧ _file_list (self r.1) = None
  ∧ _partition_ids (self r.1) = None
  ∧ self r.1 ≠ self before
  ∧ (let r' := initialise missing_cache_sections false "split.csv" None before in
     r'.2 = Raises IOError
     ∧ _file_list (self r'.1) = Some three_subjects
     ∧ _file_list (self r'.1) ≠ _file_list (self before))
  ∧ ¬ (∀ (d : list (string * SectionCfg)) (np : bool) (f : string)
         (r : option (list RatioItem)) (st : State) (e : Exn),
         (initialise d np f r st).2 = Raises e →
         _file_list (self (initialise d np f r st).1) = _file_list (self st)
         ∧ _partition_ids (self (initialise d np f r st).1)
           = _partition_ids (self st)).
Proof.
  do 6 (split; [by vm_compute|]).
  split; [split_and!; by vm_compute|].
  intros Hclaim.
  destruct (Hclaim [] false "split.csv" None (mkState split_store environment)
              ValueError) as [Hfl _]; [by vm_compute|].
  vm_compute in Hfl. discriminate.
Qed.

Lemma failed_initialise_discards_prior_tables_witness :
  let before := mkState split_store environment in
  (let r := initialise [] true "split.csv" None before in
   r.2 = Raises ValueError
   ∧ _file_list (self r.1) = None
   ∧ _partition_ids (self r.1) = None
   ∧ new_partition (self r.1) = false)
  ∧ (let r := initialise one_section true "new.csv"
                (Some [NotNumeric; Num 0]) before in
     r.2 = Raises ValueError
     ∧ _file_list (self r.1) = Some three_subjects
     ∧ _partition_ids (self r.1) = None
     ∧ new_partition (self r.1) = true).
Proof.
  intros before. split.
  - destruct (failed_initialise_discards_prior_tables [] true "split.csv" None
                before) as (_ & _ & Hmerge & _ & Hempty & _).
    destruct (Hempty eq_refl) as (Hraise & Hfl & Hids).
    destruct (Hmerge ValueError) as [_ Hnp]; [by vm_compute|].
    split_and!; [exact Hraise | exact Hfl | exact Hids | exact Hnp].
  - destruct (failed_initialise_discards_prior_tables one_section true "new.csv"
                (Some [NotNumeric; Num 0]) before)
      as (_ & _ & _ & Hsplit & _ & Hratio).
    destruct (Hratio ValueError
                (load_data_sections_by_subject
                   (reset_state before one_section "new.csv"
                      (Some [NotNumeric; Num 0]))).1)
      as (Hraise & _ & Hfl & Hids); [done|done|by vm_compute|].
    destruct (Hsplit ValueError) as (Hnp & _); [by vm_compute|exact Hraise|].
    split_and!; [exact Hraise| |exact Hids|exact Hnp].
    rewrite Hfl. by vm_compute.
Defined.

End Scenarios.

(** * Further properties of the module *)

(** ** The section loader *)

Section SectionLoader.

(** X1.  [grep_files_by_data_section] raises three errors of its own: a
    [ValueError] when the name is not in the configuration, an
    [AttributeError] when the section has no [csv_file], an [IOError]
    when the section is not searched and its csv file does not exist.
    The exceptions of the file search and of [read_csv] propagate as
    they are, the latter after being logged.  Whenever the call raises,
    it is for one of these causes. *)
Theorem grep_files_error_kinds (name : string) (st : State) :
  let r := grep_files_by_data_section name st in
  let d := data_param (self st) in
  (dict_get d name = None →
     r = (with_log st [(FATAL, UnknownSectionName name)], Raises ValueError))
  ∧ (∀ cfg, dict_get d name = Some cfg → csv_file cfg = None →
       r = (with_log st [(FATAL, MissingCsvFileField)], Raises AttributeError))
  ∧ (∀ cfg c, dict_get d name = Some cfg → csv_file cfg = Some c →
       has_path_to_search cfg = false → files (world st) !! c = None →
       r = (with_log st [(INFO, UsingExistingCsv name c);
                         (FATAL, CsvNotFound name c)], Raises IOError))
  ∧ (∀ cfg c e, dict_get d name = Some cfg → csv_file cfg = Some c →
       has_path_to_search cfg = false →
       files (world st) !! c = Some (Unparsable e) → name ≠ COLUMN_UNIQ_ID →
       r = (with_log st [(INFO, UsingExistingCsv name c); (FATAL, ReprOf e)],
            Raises e))
  ∧ (∀ cfg c e, dict_get d name = Some cfg → csv_file cfg = Some c →
       has_path_to_search cfg = true → file_matcher (world st) cfg = Raises e →
       r = (with_log st [(INFO, SearchFileFolders name c)], Raises e))
  ∧ (∀ e, r.2 = Raises e →
       (dict_get d name = None ∧ e = ValueError)
       ∨ (∃ cfg, dict_get d name = Some cfg ∧ csv_file cfg = None
                 ∧ e = AttributeError)
       ∨ (∃ cfg c, dict_get d name = Some cfg ∧ csv_file cfg = Some c
                   ∧ has_path_to_search cfg = false
                   ∧ files (world st) !! c = None ∧ e = IOError)
       ∨ (∃ cfg c, dict_get d name = Some cfg ∧ csv_file cfg = Some c
                   ∧ has_path_to_search cfg = true
                   ∧ file_matcher (world st) cfg = Raises e)
       ∨ (∃ cfg c, dict_get d name = Some cfg ∧ csv_file cfg = Some c
                   ∧ files (world r.1) !! c = Some (Unparsable e))
       ∨ (name = COLUMN_UNIQ_ID ∧ e = ValueError)).
Proof.
  intros r d. subst r d. rewrite grep_files_by_data_section_eq.
  split_and!.
  - by intros ->.
  - by intros cfg -> ->.
  - by intros cfg c -> -> -> ->.
  - intros cfg c e -> -> -> -> Hne. unfold section_frame.
    by rewrite decide_False by done.
  - by intros cfg c e -> -> -> ->.
  - intros e.
    destruct (dict_get (data_param (self st)) name) as [cfg|] eqn:Hd.
    2:{ intros [= <-]. by left. }
    destruct (csv_file cfg) as [c|] eqn:Hc.
    2:{ intros [= <-]. right. left. by exists cfg. }
    destruct (has_path_to_search cfg) eqn:Hs.
    + destruct (file_matcher (world st) cfg) as [matched|e'] eqn:Hm.
      * cbn [snd]. unfold section_frame.
        destruct (decide (COLUMN_UNIQ_ID = name)) as [<-|]; [|done].
        intros [= <-]. by do 5 right.
      * intros [= <-]. do 3 right. left. by exists cfg, c.
    + destruct (files (world st) !! c) as [f|] eqn:Hf.
      * cbn [fst snd with_log world files add_log]. unfold section_frame.
        destruct (decide (COLUMN_UNIQ_ID = name)) as [<-|].
        { intros [= <-]. by do 5 right. }
        destruct f as [csv|e']; [done|]. intros [= <-].
        do 4 right. left. by exists cfg, c.
      * intros [= <-]. do 2 right. left. by exists cfg, c.
Qed.

Lemma grep_files_error_kinds_witness :
  let st := reset_state start locked_sections "split.csv" None in
  grep_files_by_data_section "T7" st
  = (with_log st [(FATAL, UnknownSectionName "T7")], Raises ValueError)
  ∧ grep_files_by_data_section "T8" st
    = (with_log st [(INFO, UsingExistingCsv "T8" "locked.csv");
                    (FATAL, ReprOf IOError)], Raises IOError).
Proof.
  intros st. split.
  - by apply (proj1 (grep_files_error_kinds "T7" st)).
  - destruct (grep_files_error_kinds "T8" st) as (_ & _ & _ & Hread & _).
    by apply (Hread (cached "locked.csv")).
Defined.

(** X3.  Loading a section never touches the singleton or the random
    generator; it always logs something and only appends to the log; it
    writes at most one file, the section's own csv file, and only when
    the section is searched: a section without [path_to_search] leaves
    the file system as it is, whatever the outcome. *)
Theorem grep_files_side_effects (name : string) (st : State) :
  let r := grep_files_by_data_section name st in
  self r.1 = self st
  ∧ file_matcher (world r.1) = file_matcher (world st)
  ∧ random_source (world r.1) = random_source (world st)
  ∧ random_draws (world r.1) = random_draws (world st)
  ∧ (∃ entries, entries ≠ [] ∧ log (world r.1) = log (world st) ++ entries)
  ∧ (∀ path, files (world r.1) !! path ≠ files (world st) !! path →
       ∃ cfg, dict_get (data_param (self st)) name = Some cfg
              ∧ csv_file cfg = Some path ∧ has_path_to_search cfg = true)
  ∧ ((∀ cfg, dict_get (data_param (self st)) name = Some cfg →
             has_path_to_search cfg = false) →
     files (world r.1) = files (world st)).
Proof.
  intros r. subst r.
  destruct (grep_files_by_data_section_cases name st)
    as [Hd|cfg Hd Hc|cfg c e Hd Hc Hs Hm|cfg c matched Hd Hc Hs Hm
        |cfg c Hd Hc Hs Hf|cfg c f Hd Hc Hs Hf];
    cbn [fst snd with_log self world files file_matcher random_source
         random_draws log add_log set_file];
    (split_and!;
     [done|done|done|done|eexists; split; [|reflexivity]; done| |]); try done.
  - intros path Hne. exists cfg. split_and!; [done| |done].
    destruct (decide (c = path)) as [->|Hcp]; [done|].
    by rewrite (lookup_insert_ne (files (world st))) in Hne.
  - intros Hno. specialize (Hno cfg Hd). congruence.
Qed.

Lemma grep_files_side_effects_witness :
  let st := reset_state start missing_cache_sections "split.csv" None in
  let r := grep_files_by_data_section "T9" st in
  r.2 = Raises IOError
  ∧ self r.1 = self st
  ∧ files (world r.1) = files (world st).
Proof.
  intros st r.
  destruct (grep_files_side_effects "T9" st)
    as (Hself & _ & _ & _ & _ & _ & Hfiles).
  split_and!; [by vm_compute | exact Hself |].
  apply Hfiles. intros cfg. vm_compute. by intros [= <-].
Defined.

End SectionLoader.

(** ** The shape of the file table *)

Section TableShape.

Lemma labels_relabel_from (start : nat) (l : list (option string * list (option string))) :
  row_label <$> relabel_from start l = seq start (length l).
Proof.
  unfold relabel_from. revert start.
  induction l as [|x l IH]; intros start; cbn [imap fmap list_fmap length seq];
    [done|].
  f_equal; [cbn; lia|]. rewrite <- (IH (S start)). f_equal.
  apply imap_ext. intros i r _. cbn. f_equal. lia.
Qed.

Lemma cells_relabel_from (start : nat) (l : list (option string * list (option string))) :
  row_cells <$> relabel_from start l = l.*2.
Proof.
  unfold relabel_from. revert start.
  induction l as [|x l IH]; intros start; cbn [imap fmap list_fmap]; [done|].
  f_equal. rewrite <- (IH (S start)). f_equal.
  apply imap_ext. intros i r _. cbn. f_equal. lia.
Qed.

Lemma content_relabel_from (start : nat) (l : list (option string * list (option string))) :
  row_content <$> relabel_from start l = l.
Proof.
  unfold relabel_from. revert start.
  induction l as [|[x cells] l IH]; intros start; cbn [imap fmap list_fmap]; [done|].
  f_equal. rewrite <- (IH (S start)) at 2. f_equal.
  apply imap_ext. intros i r _. cbn. f_equal. lia.
Qed.

Lemma labels_range_index (cols : list string) (l : list (option string * list (option string))) :
  labels (mkFrame cols (range_index l)) = seq 0 (length (range_index l)).
Proof.
  unfold labels, range_index. cbn [rows].
  by rewrite labels_relabel_from, length_relabel_from.
Qed.

Lemma rectangular_iff (df : DataFrame) :
  rectangular df
  ↔ Forall (λ cells, length cells = length (columns df)) (row_cells <$> rows df).
Proof. unfold rectangular. by rewrite Forall_fmap. Qed.

Lemma frame_of_csv_well_shaped (name : string) (csv : list (option string * option string)) :
  well_shaped [name] (Some (frame_of_csv name csv)).
Proof.
  unfold well_shaped. split_and!; [reflexivity| |apply labels_range_index].
  apply rectangular_iff. unfold frame_of_csv, range_index. cbn [rows columns].
  rewrite cells_relabel_from, <- list_fmap_compose.
  apply Forall_fmap, Forall_true. done.
Qed.

Lemma merge_well_shaped (cols : list string) (name : string) (fl df : DataFrame) :
  well_shaped cols (Some fl) → well_shaped [name] (Some df) →
  well_shaped (cols ++ [name]) (Some (merge fl df)).
Proof.
  intros (Hc & Hr & _) (Hc' & Hr' & _). unfold well_shaped.
  split_and!; [cbn; by rewrite Hc, Hc'| |apply labels_range_index].
  apply rectangular_iff. unfold merge, range_index. cbn [rows columns].
  rewrite cells_relabel_from, length_app.
  apply Forall_fmap, Forall_forall. intros [x cells] Hin. cbn.
  apply list_elem_of_bind in Hin as (l & Hin & Hl).
  rewrite (grouped_by_key_Permutation (rows fl)) in Hl.
  unfold join_row in Hin.
  apply list_elem_of_fmap in Hin as (r & [= -> ->] & Hr0).
  apply list_elem_of_filter in Hr0 as [_ Hr0].
  rewrite length_app.
  unfold rectangular in Hr, Hr'.
  rewrite Forall_forall in Hr. rewrite Forall_forall in Hr'.
  by rewrite (Hr l Hl), (Hr' r Hr0).
Qed.

Lemma grep_files_returns_frame (name : string) (st : State) (df : DataFrame) :
  (grep_files_by_data_section name st).2 = Returns df →
  ∃ csv, df = frame_of_csv name csv.
Proof.
  destruct (grep_files_by_data_section_cases name st); cbn [snd];
    try discriminate;
    intros (_ & csv & _ & ->)%section_frame_returns; eauto.
Qed.

Lemma load_section_well_shaped (name : string) (cols : list string) (st : State) :
  well_shaped cols (_file_list (self st)) →
  (load_section name st).2 = Returns tt →
  well_shaped (cols ++ [name]) (_file_list (self (load_section name st).1)).
Proof.
  intros Hshape. rewrite load_section_eq.
  pose proof (grep_files_frame name st) as (Hself & _).
  pose proof (grep_files_returns_frame name st) as Hframe.
  destruct (grep_files_by_data_section name st) as [st1 [df|e]];
    cbn [fst snd] in *; [|done].
  destruct (Hframe df eq_refl) as [csv ->]. rewrite Hself.
  destruct (_file_list (self st)) as [fl|] eqn:Hfl.
  - intros _.
    assert (Hm : well_shaped (cols ++ [name])
                   (Some (merge fl (frame_of_csv name csv))))
      by (apply merge_well_shaped; [done | apply frame_of_csv_well_shaped]).
    by destruct (_ <? _).
  - intros _. cbn in Hshape. subst cols. apply frame_of_csv_well_shaped.
Qed.

Lemma load_sections_well_shaped (names cols : list string) (st : State) :
  well_shaped cols (_file_list (self st)) →
  (load_sections names st).2 = Returns tt →
  well_shaped (cols ++ names) (_file_list (self (load_sections names st).1)).
Proof.
  revert cols st. induction names as [|name names IH]; intros cols st Hshape.
  - cbn [load_sections]. mrun. intros _. by rewrite app_nil_r.
  - rewrite load_sections_cons.
    pose proof (load_section_well_shaped name cols st Hshape) as Hstep.
    destruct (load_section name st) as [st1 [[]|e]]; cbn [fst snd] in *; [|done].
    intros Hret. rewrite (cons_middle name cols names), app_assoc.
    by apply IH; [apply Hstep|].
Qed.

(** X4.  When the merger returns, the file table is there and is not
    empty, it has one column per configured section, in the order of the
    configuration, every row has a cell for every section, and the rows
    are indexed 0, 1, 2, ... *)
Theorem loaded_file_table_shape (st : State) :
  let r := load_data_sections_by_subject st in
  r.2 = Returns tt →
  ∃ fl, _file_list (self r.1) = Some fl
    ∧ columns fl = (data_param (self st)).*1
    ∧ rows fl ≠ []
    ∧ rectangular fl
    ∧ labels fl = seq 0 (length (rows fl)).
Proof.
  intros r. subst r. rewrite load_data_sections_by_subject_eq.
  destruct (data_param (self st)) as [|d ds] eqn:Hd; [done|].
  pose proof (load_sections_well_shaped (d :: ds).*1 []
                (mkState (set_file_list None (self st)) (world st)) eq_refl)
    as Hshape.
  destruct (load_sections _ _) as [st1 [[]|e]]; cbn [fst snd] in *; [|done].
  specialize (Hshape eq_refl).
  destruct (_file_list (self st1)) as [fl|] eqn:Hfl; [|done].
  destruct (frame_size fl =? 0) eqn:E; [done|]. intros _.
  destruct Hshape as (Hc & Hr & Hl). exists fl. cbn [fst].
  split_and!; [done|done| |done|done].
  intros Hnil. apply frame_size_zero in Hnil. congruence.
Qed.

Lemma loaded_file_table_shape_witness :
  let r := load_data_sections_by_subject
             (reset_state start two_sections "split.csv" None) in
  ∃ fl, _file_list (self r.1) = Some fl
    ∧ columns fl = ["T1"; "T2"]
    ∧ rows fl ≠ []
    ∧ rectangular fl
    ∧ labels fl = seq 0 (length (rows fl)).
Proof.
  apply (loaded_file_table_shape (reset_state start two_sections "split.csv" None)).
  by vm_compute.
Defined.

End TableShape.

(** ** The merger over sections read from their csv files *)

Section CachedSections.

Lemma dict_get_elem_of {V} (d : list (string * V)) (k : string) (v : V) :
  dict_get d k = Some v → (k, v) ∈ d.
Proof.
  induction d as [|[k' v'] d IH]; cbn [dict_get]; [done|].
  destruct (decide (k' = k)) as [->|Hne].
  - intros [= ->]. apply list_elem_of_here.
  - intros H. apply list_elem_of_further. by apply IH.
Qed.

Lemma no_search_lookup (d : list (string * SectionCfg)) (name : string)
    (cfg : SectionCfg) :
  no_search d → dict_get d name = Some cfg → has_path_to_search cfg = false.
Proof.
  intros Hno Hd. unfold no_search in Hno. rewrite Forall_forall in Hno.
  apply (Hno (name, cfg)). by apply dict_get_elem_of.
Qed.

(** A section that is not searched and whose csv file parses. *)
Lemma grep_files_cached (name : string) (st : State) (t : DataFrame) :
  no_search (data_param (self st)) →
  cached_table (files (world st)) (data_param (self st)) name = Some t →
  ∃ c, grep_files_by_data_section name st
       = (with_log st [(INFO, UsingExistingCsv name c)], Returns t).
Proof.
  intros Hno Ht. unfold cached_table in Ht.
  rewrite grep_files_by_data_section_eq.
  destruct (dict_get (data_param (self st)) name) as [cfg|] eqn:Hd; [|done].
  rewrite (no_search_lookup _ _ _ Hno Hd).
  destruct (csv_file cfg) as [c|] eqn:Hc; [|done].
  destruct (files (world st) !! c) as [f|] eqn:Hf; [|done].
  destruct (section_frame name f) as [t'|e]; [|done].
  injection Ht as ->. by exists c.
Qed.

Lemma load_sections_cached (names : list string) (tables : list DataFrame)
    (st : State) :
  no_search (data_param (self st)) →
  Forall2 (λ name t, cached_table (files (world st)) (data_param (self st)) name
                     = Some t) names tables →
  let r := load_sections names st in
  r.2 = Returns tt
  ∧ files (world r.1) = files (world st)
  ∧ data_param (self r.1) = data_param (self st)
  ∧ _file_list (self r.1) = join_onto (_file_list (self st)) tables.
Proof.
  intros Hno Htables. revert st Hno Htables.
  induction tables as [|t tables IH] in names |- *; intros st Hno Htables r;
    subst r.
  - apply Forall2_nil_inv_r in Htables as ->. cbn [load_sections]. by mrun.
  - apply Forall2_cons_inv_r in Htables as (name & names' & Ht & Hrest & ->).
    rewrite load_sections_cons, load_section_eq.
    destruct (grep_files_cached name st t Hno Ht) as [c ->].
    cbn [with_log self world fst snd].
    assert (Hstep : ∀ st', data_param (self st') = data_param (self st) →
              files (world st') = files (world st) →
              _file_list (self st') = join_onto (_file_list (self st)) [t] →
              (load_sections names' st').2 = Returns tt
              ∧ files (world (load_sections names' st').1) = files (world st)
              ∧ data_param (self (load_sections names' st').1)
                = data_param (self st)
              ∧ _file_list (self (load_sections names' st').1)
                = join_onto (_file_list (self st)) (t :: tables)).
    { intros st' Hdp' Hfs' Hfl'.
      destruct (IH names' st') as (Hret & Hfiles & Hdp & Hfl).
      - by rewrite Hdp'.
      - by rewrite Hdp', Hfs'.
      - split_and!; [done|congruence|congruence|].
        rewrite Hfl, Hfl'. done. }
    destruct (_file_list (self st)) as [fl|] eqn:Hfl0.
    + cbn zeta. destruct (_ <? _); apply Hstep; by rewrite ?Hfl0.
    + apply Hstep; by rewrite ?Hfl0.
Qed.



End CachedSections.

Section SharedSubjects.

Lemma elem_of_subject_ids_foldl (t : DataFrame) (ts : list DataFrame) (x : option string) :
  x ∈ subject_ids (foldl merge t ts) ↔ Forall (λ t', x ∈ subject_ids t') (t :: ts).
Proof.
  revert t. induction ts as [|t' ts IH]; intros t; cbn [foldl].
  - rewrite Forall_singleton. done.
  - rewrite IH, !Forall_cons, elem_of_subject_ids_merge. tauto.
Qed.

(** X6.  When no section is searched and every csv file parses, the
    file table the merger leaves holds exactly the subjects that every
    section lists: a subject id is in the table if and only if it occurs
    in the csv file of each section, whether or not ids repeat in the
    files. *)
Theorem file_table_holds_the_shared_subjects (st : State)
    (tables : list DataFrame) :
  no_search (data_param (self st)) →
  Forall2 (λ name t, cached_table (files (world st)) (data_param (self st)) name
                     = Some t) (data_param (self st)).*1 tables →
  let r := load_data_sections_by_subject st in
  ∀ fl, data_param (self st) ≠ [] → _file_list (self r.1) = Some fl →
  ∀ x, x ∈ subject_ids fl ↔ Forall (λ t, x ∈ subject_ids t) tables.
Proof.
  intros Hno Htables r fl Hne Hfl x. subst r.
  rewrite load_data_sections_by_subject_eq in Hfl.
  destruct (data_param (self st)) as [|d ds] eqn:Hd; [done|].
  pose proof (load_sections_cached (d :: ds).*1 tables
                (mkState (set_file_list None (self st)) (world st))) as Hloop.
  cbn [self world data_param set_file_list files _file_list] in Hloop.
  rewrite Hd in Hloop. destruct (Hloop Hno Htables) as (Hret & _ & _ & Hjoin).
  destruct tables as [|t ts]; [by apply Forall2_nil_inv_r in Htables|].
  rewrite join_onto_cons in Hjoin.
  destruct (load_sections _ _) as [st1 [[]|e]]; cbn [fst snd] in *; [|done].
  rewrite Hjoin in Hfl.
  assert (fl = foldl merge t ts) as ->.
  { destruct (frame_size (foldl merge t ts) =? 0);
      cbn [fst with_log self] in Hfl; congruence. }
  apply elem_of_subject_ids_foldl.
Qed.

Lemma file_table_holds_the_shared_subjects_witness :
  let st := reset_state start two_sections "split.csv" None in
  let r := load_data_sections_by_subject st in
  Some "s2" ∈ subject_ids (merge three_subjects (frame_of_csv "T2" t2_rows))
  ∧ Some "s1" ∉ subject_ids (merge three_subjects (frame_of_csv "T2" t2_rows)).
Proof.
  intros st r.
  pose proof (file_table_holds_the_shared_subjects st
                [three_subjects; frame_of_csv "T2" t2_rows]) as H.
  assert (Hno : no_search (data_param (self st))) by repeat constructor.
  assert (Hfl : _file_list (self r.1)
                = Some (merge three_subjects (frame_of_csv "T2" t2_rows)))
    by by vm_compute.
  specialize (H Hno ltac:(repeat constructor) _ ltac:(done) Hfl).
  split.
  - apply H. repeat constructor; by apply (bool_decide_unpack _); vm_compute.
  - intros Hin. apply H in Hin. apply Forall_cons in Hin as [_ Hin].
    apply Forall_cons in Hin as [Hin _].
    by apply (bool_decide_pack _) in Hin; vm_compute in Hin.
Defined.

End SharedSubjects.

(** ** Counting by phase *)

Section PhaseCounts.

Lemma lower_ascii_idempotent (c : ascii) : lower_ascii (lower_ascii c) = lower_ascii c.
Proof. by destruct c as [[] [] [] [] [] [] [] []]. Qed.

Lemma lower_idempotent (s : string) : lower (lower s) = lower s.
Proof.
  induction s as [|c s IH]; cbn [lower]; [done|].
  by rewrite lower_ascii_idempotent, IH.
Qed.

(** X7.  [number_of_subjects] reads the phase name without regard to
    letter case: a name and its lower-case form get the same answer, be
    it a count or the error for an unsupported name. *)
Theorem number_of_subjects_ignores_case (s : ImageSetsPartitioner) (phase : string) :
  number_of_subjects s phase = number_of_subjects s (lower phase).
Proof. unfold number_of_subjects. by rewrite lower_idempotent. Qed.

Lemma look_up_phase (phase : string) :
  phase ∈ three_phases →
  look_up_operations (lower phase) SUPPORTED_PHASES = Returns phase
  ∧ phase ≠ ALL.
Proof.
  unfold three_phases. rewrite !elem_of_cons, elem_of_nil.
  intros [->|[->|[->|[]]]]; by vm_compute.
Qed.

(** The rows of a partition table labelled [phase] whose subject id is
    not missing. *)
Lemma count_cells_labelled (phase : string) (ids : list PhaseRow) :
  count_cells (labelled phase ids)
  = Z.of_nat (length (filter (λ r, prow_phase r = Some phase ∧ prow_id r ≠ None)
                             ids)).
Proof.
  unfold count_cells, labelled. f_equal.
  induction ids as [|r ids IH]; [done|].
  destruct (decide (prow_phase r = Some phase)) as [Hp|Hp].
  - rewrite (filter_cons_True (λ r, prow_phase r = Some phase)) by done.
    cbn [fmap list_fmap].
    destruct (decide (prow_id r ≠ None)) as [Hi|Hi].
    + rewrite !filter_cons_True by done. cbn [length]. by rewrite IH.
    + rewrite !filter_cons_False by (try intros [_ ?]; done). done.
  - rewrite !filter_cons_False by (try intros [? _]; done). done.
Qed.

Lemma number_of_subjects_phase (s : ImageSetsPartitioner) (fl : DataFrame)
    (ids : list PhaseRow) (phase : string) :
  _file_list s = Some fl → _partition_ids s = Some ids →
  phase ∈ three_phases →
  number_of_subjects s phase = Returns (count_cells (labelled phase ids)).
Proof.
  intros Hfl Hids Hphase. destruct (look_up_phase phase Hphase) as [Hlook Hne].
  unfold number_of_subjects. rewrite Hfl, Hlook, Hids.
  by destruct (decide (phase = ALL)).
Qed.

(** X8.  With both tables present, the count for train, for validation
    and for inference is the number of partition rows that carry the
    label and a subject id that is not missing; the three counts never
    exceed the number of partition rows together and add up to it when
    every row has a subject id and one of the three labels.  The count
    for "all" is the number of subject ids of the file table that are
    not missing, whatever the partition table holds. *)
Theorem phase_counts_add_up (s : ImageSetsPartitioner) (fl : DataFrame)
    (ids : list PhaseRow) :
  _file_list s = Some fl → _partition_ids s = Some ids →
  let n phase :=
    Z.of_nat (length (filter (λ r, prow_phase r = Some phase ∧ prow_id r ≠ None)
                             ids)) in
  number_of_subjects s TRAIN = Returns (n TRAIN)
  ∧ number_of_subjects s VALID = Returns (n VALID)
  ∧ number_of_subjects s INFER = Returns (n INFER)
  ∧ number_of_subjects s ALL
    = Returns (Z.of_nat (length (filter (λ c, c ≠ None) (subject_ids fl))))
  ∧ n TRAIN + n VALID + n INFER ≤ Z.of_nat (length ids)
  ∧ (Forall (λ r, prow_id r ≠ None
                  ∧ ∃ p, p ∈ three_phases ∧ prow_phase r = Some p) ids →
     n TRAIN + n VALID + n INFER = Z.of_nat (length ids)).
Proof.
  intros Hfl Hids n.
  assert (Hthree : TRAIN ∈ three_phases ∧ VALID ∈ three_phases
                   ∧ INFER ∈ three_phases).
  { unfold three_phases. rewrite !elem_of_cons. tauto. }
  destruct Hthree as (Htr & Hvl & Hif).
  split_and!.
  - rewrite (number_of_subjects_phase s fl ids TRAIN Hfl Hids Htr).
    by rewrite count_cells_labelled.
  - rewrite (number_of_subjects_phase s fl ids VALID Hfl Hids Hvl).
    by rewrite count_cells_labelled.
  - rewrite (number_of_subjects_phase s fl ids INFER Hfl Hids Hif).
    by rewrite count_cells_labelled.
  - by apply number_of_subjects_all.
  - subst n. cbv beta. clear. induction ids as [|r ids IH]; [done|].
    rewrite !filter_cons. cbn [length].
    repeat case_decide; cbn [length]; try lia;
      exfalso; unfold TRAIN, VALID, INFER in *;
      repeat match goal with H : _ ∧ _ |- _ => destruct H end; congruence.
  - subst n. cbv beta. clear. induction 1 as [|r ids Hr _ IH]; [done|].
    rewrite !filter_cons. cbn [length].
    destruct Hr as (Hid & p & Hp & Hphase).
    unfold three_phases in Hp. rewrite !elem_of_cons, elem_of_nil in Hp.
    repeat case_decide; cbn [length]; try lia;
      exfalso; unfold TRAIN, VALID, INFER in *;
      repeat match goal with H : _ ∧ _ |- _ => destruct H end;
      try congruence.
    destruct Hp as [->|[->|[->|[]]]]; [apply H|apply H0|apply H1]; by split.
Qed.

Lemma phase_counts_add_up_witness :
  number_of_subjects split_store TRAIN = Returns 1
  ∧ number_of_subjects split_store VALID = Returns 1
  ∧ number_of_subjects split_store INFER = Returns 0
  ∧ number_of_subjects split_store ALL = Returns 2.
Proof.
  pose proof (phase_counts_add_up split_store
              (merge three_subjects (frame_of_csv "T2" t2_rows))
              (partition_of_csv split_rows_on_disk) eq_refl eq_refl) as H.
  cbv zeta beta in H. destruct H as (Ha & Hb & Hc & Hd & _).
  split_and!.
  - etrans; [exact Ha | by vm_compute].
  - etrans; [exact Hb | by vm_compute].
  - etrans; [exact Hc | by vm_compute].
  - etrans; [exact Hd | by vm_compute].
Defined.

End PhaseCounts.

(** ** File lists by phase *)

Section PhaseFileLists.

Lemma subject_ids_select_phase (phase : string) (ids : list PhaseRow) :
  subject_ids (select_phase phase ids) = labelled phase ids.
Proof.
  unfold subject_ids, select_phase, labelled. cbn [rows].
  by rewrite <- list_fmap_compose.
Qed.

Lemma select_phase_cells (phase : string) (ids : list PhaseRow) :
  Forall (λ r, row_cells r = []) (rows (select_phase phase ids)).
Proof.
  unfold select_phase. cbn [rows]. apply Forall_fmap, Forall_true. done.
Qed.

(** A left row joined with rows that carry the key only. *)
Lemma join_row_keys (right : list Row) (l : Row) :
  NoDup (row_id <$> right) → Forall (λ r, row_cells r = []) right →
  join_row right l
  = if decide (row_id l ∈ row_id <$> right) then [row_content l] else [].
Proof.
  unfold join_row.
  induction right as [|r right IH]; intros Hnd Hcells; cbn [fmap list_fmap].
  - rewrite filter_nil. by rewrite decide_False by apply not_elem_of_nil.
  - apply NoDup_cons in Hnd as [Hr Hnd].
    apply Forall_cons in Hcells as [Hc Hcells]. specialize (IH Hnd Hcells).
    destruct (decide (row_id r = row_id l)) as [Heq|Hne].
    + rewrite filter_cons_True by done. cbn [fmap list_fmap].
      rewrite decide_True by (rewrite Heq; apply list_elem_of_here).
      rewrite Hc, app_nil_r. unfold row_content. f_equal.
      rewrite IH. rewrite decide_False; [done|]. by rewrite <- Heq.
    + rewrite filter_cons_False by done. rewrite IH.
      destruct (decide (row_id l ∈ row_id <$> right)) as [Hin|Hnin].
      * rewrite decide_True; [done|]. by apply list_elem_of_further.
      * rewrite decide_False; [done|].
        intros Hin. apply elem_of_cons in Hin as [?|?]; congruence.
Qed.

Lemma joined_keys (left right : list Row) :
  NoDup (row_id <$> right) → Forall (λ r, row_cells r = []) right →
  left ≫= join_row right
  = row_content <$> filter (λ l, row_id l ∈ row_id <$> right) left.
Proof.
  intros Hnd Hcells. induction left as [|l ls IH]; [done|].
  rewrite bind_cons, IH, (join_row_keys _ _ Hnd Hcells).
  destruct (decide (row_id l ∈ row_id <$> right)) as [Hin|Hnin].
  - by rewrite filter_cons_True.
  - by rewrite filter_cons_False.
Qed.

(** Every row of a join with rows that carry the key only is a row of
    the left table. *)
Lemma merge_keys_content (left right : DataFrame) (row : Row) :
  Forall (λ r, row_cells r = []) (rows right) →
  row ∈ rows (merge left right) →
  ∃ l, l ∈ rows left ∧ row_content row = row_content l.
Proof.
  intros Hcells Hin.
  apply (list_elem_of_fmap_2 row_content) in Hin.
  unfold merge, range_index in Hin. cbn [rows] in Hin.
  rewrite content_relabel_from in Hin.
  apply list_elem_of_bind in Hin as (l & Hin & Hl).
  rewrite (grouped_by_key_Permutation (rows left)) in Hl.
  exists l. split; [done|].
  unfold join_row in Hin. apply list_elem_of_fmap in Hin as (r & -> & Hr).
  apply list_elem_of_filter in Hr as [_ Hr].
  rewrite Forall_forall in Hcells. rewrite (Hcells r Hr), app_nil_r. done.
Qed.

(** A query by phase that finds labelled rows. *)
Lemma get_file_list_phase_eq (st : State) (fl : DataFrame) (ids : list PhaseRow)
    (phase : string) :
  phase ≠ ALL →
  _file_list (self st) = Some fl →
  _partition_ids (self st) = Some ids →
  labelled phase ids ≠ [] →
  get_file_list phase [] st
  = (st, Returns (Frame (merge fl (select_phase phase ids)))).
Proof.
  intros Hphase Hfl Hids Hsome. destruct st as [s w]. cbn [self world] in *.
  unfold get_file_list. mrun. rewrite Hfl, Hids. mrun.
  rewrite decide_False by done. mrun.
  destruct (rows (select_phase phase ids)) as [|r rs] eqn:Hrows; [|done].
  exfalso. apply Hsome. rewrite <- subject_ids_select_phase.
  unfold subject_ids. by rewrite Hrows.
Qed.

(** X9.  With both tables present and at least one partition row
    labelled with the phase, [get_file_list(phase)] changes nothing and
    logs nothing, and returns a table with the columns of the file
    table, a fresh index, and rows of the file table only: those of the
    subjects that the partition table labels with the phase.  Labelled
    subjects that are not in the file table are dropped without a
    message, and when none of them is in the file table the result is a
    table without rows, not [None].  When no subject id repeats or is
    missing in the file table and no labelled subject id repeats, the
    rows are the rows of the labelled subjects in file table order, one
    per subject. *)
Theorem get_file_list_selects_labelled_subjects (st : State) (fl : DataFrame)
    (ids : list PhaseRow) (phase : string) :
  phase ≠ ALL →
  _file_list (self st) = Some fl →
  _partition_ids (self st) = Some ids →
  labelled phase ids ≠ [] →
  ∃ subset,
    get_file_list phase [] st = (st, Returns (Frame subset))
    ∧ columns subset = columns fl
    ∧ labels subset = seq 0 (length (rows subset))
    ∧ (∀ x, x ∈ subject_ids subset
            ↔ x ∈ subject_ids fl ∧ x ∈ labelled phase ids)
    ∧ (∀ row, row ∈ rows subset →
         ∃ r, r ∈ rows fl ∧ row_id row = row_id r
              ∧ row_cells row = row_cells r)
    ∧ ((∀ x, x ∈ labelled phase ids → x ∉ subject_ids fl) → rows subset = [])
    ∧ (NoDup (subject_ids fl) → None ∉ subject_ids fl →
       NoDup (labelled phase ids) →
       (λ r, (row_id r, row_cells r)) <$> rows subset
       = (λ r, (row_id r, row_cells r))
           <$> filter (λ r, row_id r ∈ labelled phase ids) (rows fl)).
Proof.
  intros Hphase Hfl Hids Hsome.
  exists (merge fl (select_phase phase ids)).
  assert (Hmem : ∀ x, x ∈ subject_ids (merge fl (select_phase phase ids))
                      ↔ x ∈ subject_ids fl ∧ x ∈ labelled phase ids).
  { intros x. by rewrite elem_of_subject_ids_merge, subject_ids_select_phase. }
  split_and!.
  - by apply get_file_list_phase_eq.
  - cbn [merge columns select_phase]. apply app_nil_r.
  - apply labels_range_index.
  - done.
  - intros row Hrow.
    destruct (merge_keys_content fl (select_phase phase ids) row
                (select_phase_cells phase ids) Hrow) as (l & Hl & [= Hi Hc]).
    by exists l.
  - intros Hnone.
    destruct (rows (merge fl (select_phase phase ids))) as [|r rs] eqn:Hrows;
      [done|].
    exfalso. apply (Hnone (row_id r)); apply (Hmem (row_id r));
      unfold subject_ids; rewrite Hrows; apply list_elem_of_here.
  - intros Hnd Hnone Hlab.
    change (λ r : Row, (row_id r, row_cells r)) with row_content.
    unfold merge, range_index. cbn [rows].
    rewrite content_relabel_from, grouped_by_key_NoDup by done.
    rewrite joined_keys.
    + fold (subject_ids (select_phase phase ids)).
      by rewrite subject_ids_select_phase.
    + fold (subject_ids (select_phase phase ids)).
      by rewrite subject_ids_select_phase.
    + apply select_phase_cells.
Qed.

Lemma get_file_list_selects_labelled_subjects_witness :
  ∃ subset,
    get_file_list TRAIN [] (mkState split_store environment)
    = (mkState split_store environment, Returns (Frame subset))
    ∧ (λ r, (row_id r, row_cells r)) <$> rows subset
      = [(Some "s2", [Some "t1_s2.nii"; Some "t2_s2.nii"])].
Proof.
  destruct (get_file_list_selects_labelled_subjects
              (mkState split_store environment)
              (merge three_subjects (frame_of_csv "T2" t2_rows))
              (partition_of_csv split_rows_on_disk) TRAIN)
    as (subset & Hget & _ & _ & _ & _ & _ & Hrows);
    [done|done|done|by vm_compute|].
  exists subset. split; [exact Hget|].
  etrans; [apply Hrows | by vm_compute].
  - by apply (bool_decide_unpack _); vm_compute.
  - by apply (bool_decide_unpack _); vm_compute.
  - by apply (bool_decide_unpack _); vm_compute.
Defined.

Lemma get_file_list_all_eq (st : State) (fl : DataFrame) :
  _file_list (self st) = Some fl →
  get_file_list ALL [] st
  = (mkState (set_file_list (Some (sort_index fl)) (self st)) (world st),
     Returns (Frame (sort_index fl))).
Proof.
  intros Hfl. destruct st as [s w]. cbn [self world] in *.
  unfold get_file_list. mrun. rewrite Hfl. mrun.
  by rewrite decide_True by done.
Qed.

(** X10.  [get_file_list("all")] stores the table it returns back in the
    singleton, and asking again changes nothing: the second call returns
    the same table and leaves the state the first call left; the log is
    not written and the partition table and the configuration are not
    touched by either call. *)
Theorem get_file_list_all_twice (st : State) (fl : DataFrame) :
  _file_list (self st) = Some fl →
  let first := get_file_list ALL [] st in
  let second := get_file_list ALL [] first.1 in
  second = first
  ∧ _file_list (self first.1) = Some (sort_index fl)
  ∧ world first.1 = world st
  ∧ _partition_ids (self first.1) = _partition_ids (self st)
  ∧ data_param (self first.1) = data_param (self st)
  ∧ ratios (self first.1) = ratios (self st)
  ∧ new_partition (self first.1) = new_partition (self st)
  ∧ data_split_file (self first.1) = data_split_file (self st).
Proof.
  intros Hfl first second. subst second first.
  rewrite (get_file_list_all_eq st fl Hfl). cbn [fst].
  rewrite (get_file_list_all_eq
             (mkState (set_file_list (Some (sort_index fl)) (self st)) (world st))
             (sort_index fl) eq_refl).
  cbn [self world set_file_list _file_list _partition_ids data_param ratios
       new_partition data_split_file].
  rewrite (sort_index_id (sort_index fl)) by apply sort_index_sorted.
  by split_and!.
Qed.

Lemma get_file_list_all_twice_witness :
  let first := get_file_list ALL [] (mkState split_store environment) in
  get_file_list ALL [] first.1 = first.
Proof.
  intros first.
  by destruct (get_file_list_all_twice (mkState split_store environment)
                 (merge three_subjects (frame_of_csv "T2" t2_rows)) eq_refl)
    as [Heq _].
Defined.

End PhaseFileLists.

(** ** The splitter at its edges *)

Section SplitterEdges.

(** X11.  Ratios are checked before anything is counted or written:
    unless [ratios] is a pair of numbers, a new split logs the ratios and
    re-raises the conversion error, a [TypeError] (in particular when
    [ratios] is [None]) or a [ValueError] (in particular when [ratios]
    does not have two items), and apart from the log nothing changes:
    no split file is written or read and the tables are as before. *)
Theorem malformed_ratios_stop_the_split (st : State) :
  (∀ v i, ratios (self st) ≠ Some [Num v; Num i]) →
  ∃ e,
    randomly_split_dataset true st
    = (with_log st [(FATAL, UnknownFormatOfFractions (ratios (self st)))],
       Raises e)
    ∧ (e = TypeError ∨ e = ValueError)
    ∧ (ratios (self st) = None → e = TypeError)
    ∧ (∀ l, ratios (self st) = Some l → length l ≠ 2%nat → e = ValueError).
Proof.
  intros Hbad.
  destruct (clamped_fractions (ratios (self st))) as [fr|e] eqn:Hfr.
  { destruct (clamped_fractions_returns _ _ Hfr) as (v & i & Hr & _).
    by destruct (Hbad v i). }
  exists e. split_and!.
  - by apply randomly_split_dataset_malformed.
  - apply clamped_fractions_raises in Hfr.
    rewrite !elem_of_cons, elem_of_nil in Hfr. tauto.
  - intros Hnone. rewrite Hnone in Hfr. cbn in Hfr. congruence.
  - intros l Hl Hlen. rewrite Hl in Hfr.
    destruct l as [|a [|b [|c l]]]; cbn in Hfr, Hlen; congruence.
Qed.

Lemma malformed_ratios_stop_the_split_witness :
  let st := mkState (mkPartitioner (Some three_subjects) None one_section
                       (Some [Num (1 # 2)]) true "split.csv") environment in
  ∃ e,
    randomly_split_dataset true st
    = (with_log st [(FATAL, UnknownFormatOfFractions (Some [Num (1 # 2)]))],
       Raises e)
    ∧ e = ValueError.
Proof.
  intros st.
  destruct (malformed_ratios_stop_the_split st) as (e & Hrun & _ & _ & Hlen);
    [done|].
  exists e. split; [exact Hrun|]. by apply (Hlen [Num (1 # 2)]).
Defined.

(** X12.  A new split needs the file table: without one, a call with
    well-formed ratios raises a [TypeError] and leaves the state exactly
    as it was, and whatever the ratios are the call raises, writes no
    file and leaves the singleton, hence the partition table, untouched,
    even when a split file already exists. *)
Theorem split_without_file_table_raises (st : State) :
  _file_list (self st) = None →
  let r := randomly_split_dataset true st in
  (∃ e, r.2 = Raises e ∧ (e = TypeError ∨ e = ValueError))
  ∧ self r.1 = self st
  ∧ files (world r.1) = files (world st)
  ∧ (∀ v i, ratios (self st) = Some [Num v; Num i] → r = (st, Raises TypeError)).
Proof.
  intros Hfl r. subst r.
  destruct (clamped_fractions (ratios (self st))) as [fr|e] eqn:Hfr.
  - rewrite (randomly_split_dataset_no_file_list st fr Hfr Hfl).
    cbn [fst snd]. split_and!; eauto.
  - rewrite (randomly_split_dataset_malformed st e Hfr).
    cbn [fst snd with_log self world files add_log]. split_and!; try done.
    + exists e. split; [done|]. apply clamped_fractions_raises in Hfr.
      rewrite !elem_of_cons, elem_of_nil in Hfr. tauto.
    + intros v i Hr. rewrite Hr in Hfr. cbn in Hfr. discriminate.
Qed.

Lemma split_without_file_table_raises_witness :
  let st := mkState (mkPartitioner None None [] (Some [Num (1 # 4); Num (1 # 4)])
                       true "split.csv") environment in
  randomly_split_dataset true st = (st, Raises TypeError)
  ∧ files (world st) !! "split.csv" = Some (CsvFile split_rows_on_disk).
Proof.
  intros st.
  destruct (split_without_file_table_raises st eq_refl) as (_ & _ & _ & Hrun).
  split; [by apply (Hrun (1 # 4) (1 # 4)) | by vm_compute].
Defined.

Lemma clamp_nonpos (x : Q) : (x <= 0)%Q → (clamp x == 0)%Q.
Proof.
  intros Hx. unfold clamp. apply Q.max_r.
  apply Qle_trans with x; [apply Q.le_min_r | done].
Qed.

Lemma clamp_ge_one (x : Q) : (1 <= x)%Q → (clamp x == 1)%Q.
Proof.
  intros Hx. unfold clamp. rewrite (Q.min_l 1 x Hx). by apply Q.max_l.
Qed.

(** A fraction of zero gives no subject. *)
Lemma ceil_count_zero (n : Z) (x : Q) : (x == 0)%Q → ceil_count n x = 0.
Proof.
  intros Hx. unfold ceil_count, float_product.
  rewrite (binary64_proper (binary64 (inject_Z n) * x) 0)
    by (rewrite Hx; apply Qmult_0_r).
  by rewrite binary64_zero.
Qed.

(** A fraction of one gives every subject: the product of a count below
    [2^53] and 1 is exact. *)
Lemma ceil_count_one (n : Z) (x : Q) :
  0 ≤ n → n < 2 ^ 53 → (x == 1)%Q → ceil_count n x = n.
Proof.
  intros Hn Hlt Hx. unfold ceil_count, float_product.
  rewrite (binary64_proper (binary64 (inject_Z n) * x) (inject_Z n))
    by (rewrite Hx, Qmult_1_r; by apply binary64_int).
  rewrite (Qceiling_comp _ _ (binary64_int n Hn Hlt)). apply Qceiling_Z.
Qed.

Lemma times_nonpos (label : string) (n : Z) : n ≤ 0 → times label n = [].
Proof. intros Hn. unfold times. by rewrite Z2Nat.nonpos. Qed.

(** Beyond [2^53] a count is rounded when it is converted to a float,
    and a fraction of one no longer gives every subject. *)
Example ceil_count_one_rounds : ceil_count (2 ^ 53 + 1) 1 = 2 ^ 53.
Proof. by vm_compute. Qed.

(** X13.  Fractions outside [0,1] act as 0 or 1.  With both fractions
    at or below 0 every subject is labelled train; with the validation
    fraction at or above 1 every subject is labelled validation,
    whatever the inference fraction asks for; with the validation
    fraction at or below 0 and the inference fraction at or above 1 every
    subject is labelled inference.  The subjects are fewer than [2^53],
    the counts that a float holds exactly. *)
Theorem extreme_fractions (n_total : Z) (v i : Q) :
  0 ≤ n_total →
  let phases := truncated_phases n_total (ceil_count n_total (clamp v))
                                 (ceil_count n_total (clamp i)) in
  ((v <= 0)%Q → (i <= 0)%Q → phases = times TRAIN n_total)
  ∧ (n_total < 2 ^ 53 → (1 <= v)%Q → phases = times VALID n_total)
  ∧ (n_total < 2 ^ 53 → (v <= 0)%Q → (1 <= i)%Q →
     phases = times INFER n_total).
Proof.
  intros Hn phases. subst phases.
  pose proof (ceil_count_nonneg n_total (clamp i) Hn (proj1 (clamp_bounds i)))
    as Hi.
  split_and!.
  - intros Hv Hi'.
    rewrite (ceil_count_zero _ _ (clamp_nonpos v Hv)),
      (ceil_count_zero _ _ (clamp_nonpos i Hi')).
    rewrite truncated_shape by lia.
    rewrite (times_nonpos VALID), (times_nonpos INFER) by lia.
    rewrite !app_nil_r. f_equal. lia.
  - intros Hlt Hv. rewrite (ceil_count_one _ _ Hn Hlt (clamp_ge_one v Hv)).
    rewrite truncated_shape by lia.
    rewrite (times_nonpos TRAIN), (times_nonpos INFER) by lia.
    cbn [app]. rewrite app_nil_r. f_equal. lia.
  - intros Hlt Hv Hi'.
    rewrite (ceil_count_zero _ _ (clamp_nonpos v Hv)),
      (ceil_count_one _ _ Hn Hlt (clamp_ge_one i Hi')).
    rewrite truncated_shape by lia.
    rewrite (times_nonpos TRAIN), (times_nonpos VALID) by lia.
    cbn [app]. f_equal. lia.
Qed.

Lemma extreme_fractions_witness :
  truncated_phases 3 (ceil_count 3 (clamp (3 # 2))) (ceil_count 3 (clamp (1 # 2)))
  = times VALID 3.
Proof.
  destruct (extreme_fractions 3 (3 # 2) (1 # 2)) as (_ & Hvalid & _); [lia|].
  by apply Hvalid.
Defined.

Lemma clamp_smallest (x : Q) : (smallest_float <= x)%Q → (smallest_float <= clamp x)%Q.
Proof.
  intros Hx. unfold clamp.
  apply Qle_trans with (Qmin 1 x); [|apply Q.le_max_l].
  apply Q.min_glb; [apply smallest_float_le_one | done].
Qed.

(** X14.  Counts round up: a count is the least integer at or above the
    float product of [n_total] and the clamped fraction.  So with at
    least one subject (and fewer than [2^53]), a validation fraction that
    is positive as a float labels at least one subject for validation,
    and a positive inference fraction labels at least one for inference
    unless validation has taken every subject. *)
Theorem positive_fraction_labels_a_subject (n_total : Z) (v i : Q) :
  0 < n_total → n_total < 2 ^ 53 →
  let valid_fraction := clamp (binary64 v) in
  let infer_fraction := clamp (binary64 i) in
  let n_valid := ceil_count n_total valid_fraction in
  let n_infer := ceil_count n_total infer_fraction in
  let phases := truncated_phases n_total n_valid n_infer in
  (binary64 (binary64 (inject_Z n_total) * valid_fraction) <= inject_Z n_valid)%Q
  ∧ (inject_Z n_valid
     < binary64 (binary64 (inject_Z n_total) * valid_fraction) + 1)%Q
  ∧ ((0 < binary64 v)%Q → 1 ≤ occurrences VALID phases)
  ∧ ((0 < binary64 i)%Q → n_valid < n_total → 1 ≤ occurrences INFER phases).
Proof.
  intros Hn Hlt valid_fraction infer_fraction n_valid n_infer phases.
  assert (Hpos : ∀ x : Q, (0 < binary64 x)%Q →
            1 ≤ ceil_count n_total (clamp (binary64 x))).
  { intros x Hx.
    pose proof (clamp_smallest _ (binary64_smallest x Hx)) as Hc.
    assert (Hprod : (smallest_float
                     <= binary64 (inject_Z n_total) * clamp (binary64 x))%Q).
    { rewrite (binary64_int n_total) by lia.
      apply Qle_trans with (1 * clamp (binary64 x))%Q.
      - by rewrite Qmult_1_l.
      - apply Qmult_le_compat_r; [|by apply clamp_bounds].
        change 1%Q with (inject_Z 1). rewrite <- Zle_Qle. lia. }
    apply binary64_positive in Hprod.
    pose proof (Qle_ceiling (float_product n_total (clamp (binary64 x)))) as Hle.
    fold (ceil_count n_total (clamp (binary64 x))) in Hle.
    assert (Hgt : (inject_Z 0 < inject_Z (ceil_count n_total (clamp (binary64 x))))%Q)
      by by eapply Qlt_le_trans.
    rewrite <- Zlt_Qlt in Hgt. lia. }
  pose proof (ceil_count_nonneg n_total valid_fraction ltac:(lia)
                (proj1 (clamp_bounds _))) as Hv.
  pose proof (ceil_count_nonneg n_total infer_fraction ltac:(lia)
                (proj1 (clamp_bounds _))) as Hi.
  fold n_valid in Hv. fold n_infer in Hi.
  destruct (occurrences_truncated n_total n_valid n_infer) as (_ & Hva & Hin);
    [lia..|].
  split_and!.
  - apply Qle_ceiling.
  - pose proof (Qceiling_lt (float_product n_total valid_fraction)) as Hlt'.
    fold (ceil_count n_total valid_fraction) in Hlt'. fold n_valid in Hlt'.
    unfold Z.sub in Hlt'. rewrite inject_Z_plus in Hlt'.
    apply Qplus_lt_l with (z := (- (1))%Q).
    eapply Qlt_le_trans; [exact Hlt'|].
    rewrite <- Qplus_assoc, Qplus_opp_r, Qplus_0_r. apply Qle_refl.
  - intros Hvpos. subst phases. rewrite Hva.
    specialize (Hpos v Hvpos). fold valid_fraction n_valid in Hpos. lia.
  - intros Hipos Hroom. subst phases. rewrite Hin.
    specialize (Hpos i Hipos). fold infer_fraction n_infer in Hpos. lia.
Qed.

Lemma positive_fraction_labels_a_subject_witness :
  1 ≤ occurrences VALID (split_labels 1 (1 # 10) (1 # 10)).
Proof.
  destruct (positive_fraction_labels_a_subject 1 (1 # 10) (1 # 10))
    as (_ & _ & Hvalid & _); [lia|lia|].
  by apply Hvalid.
Defined.

End SplitterEdges.

(** ** The partition table of a new split *)

Section NewSplit.

Lemma fst_zip_take {A B} (l : list A) (k : list B) :
  (zip l k).*1 = take (length k) l.
Proof.
  revert k. induction l as [|x l IH]; intros [|y k]; cbn; try done.
  f_equal. apply IH.
Qed.

Lemma length_filter_phase (phase : string) (ids : list PhaseRow) :
  Z.of_nat (length (filter (λ r, prow_phase r = Some phase) ids))
  = Z.of_nat (length (filter (λ x, x = Some phase) (prow_phase <$> ids))).
Proof.
  f_equal.
  induction ids as [|r ids IH]; [done|]. cbn [fmap list_fmap].
  rewrite !filter_cons. repeat case_decide; cbn [length]; congruence.
Qed.

Lemma occurrences_Some (phase : string) (l : list string) :
  Z.of_nat (length (filter (λ x, x = Some phase) (Some <$> l)))
  = occurrences phase l.
Proof.
  unfold occurrences. f_equal.
  induction l as [|x l IH]; [done|]. cbn [fmap list_fmap].
  rewrite !filter_cons. repeat case_decide; cbn [length]; congruence.
Qed.

Lemma truncated_phases_supported (n_total n_valid n_infer : Z) :
  0 ≤ n_total → 0 ≤ n_valid → 0 ≤ n_infer →
  Forall (λ p, p ∈ three_phases) (truncated_phases n_total n_valid n_infer).
Proof.
  intros Hn Hv Hi. rewrite truncated_shape by done.
  rewrite !Forall_app. unfold times, three_phases.
  split_and!; apply Forall_replicate; set_solver.
Qed.

Lemma split_labels_supported (n_total : Z) (v i : Q) :
  0 ≤ n_total → Forall (λ p, p ∈ three_phases) (split_labels n_total v i).
Proof.
  intros Hn. unfold split_labels.
  apply truncated_phases_supported; [done|..];
    apply ceil_count_nonneg; done || apply clamp_bounds.
Qed.

(** The state a new split leaves, with what it wrote. *)
Lemma new_split_state (st : State) (fl : DataFrame) (v i : Q) :
  _file_list (self st) = Some fl →
  ratios (self st) = Some [Num v; Num i] →
  let r := randomly_split_dataset true st in
  let phases := shuffled (random_source (world st)) (random_draws (world st))
                         (split_labels (count fl) v i) in
  r.2 = Returns tt
  ∧ length phases = Z.to_nat (count fl)
  ∧ (length phases ≤ length (subject_ids fl))%nat
  ∧ phases ≡ₚ split_labels (count fl) v i
  ∧ _partition_ids (self r.1)
    = Some (partition_of_csv (zip (subject_ids fl) (Some <$> phases)))
  ∧ _file_list (self r.1) = Some fl
  ∧ files (world r.1)
    = <[data_split_file (self st)
        := CsvFile (zip (subject_ids fl) (Some <$> phases))]>
        (files (world st)).
Proof.
  intros Hfl Hr r phases. subst r.
  rewrite (randomly_split_dataset_overwrite st fl v i Hfl Hr).
  cbn [fst snd self world files set_partition_ids _partition_ids _file_list
       set_file add_draws].
  assert (Hlen : length phases = Z.to_nat (count fl)).
  { subst phases. rewrite length_shuffled. unfold split_labels.
    apply length_truncated, count_nonneg. }
  split_and!; try done.
  - rewrite Hlen. unfold subject_ids. rewrite length_fmap.
    pose proof (count_le_rows fl). lia.
  - apply shuffled_Permutation.
Qed.

(** X15.  A new split labels the first [n_total] rows of the file
    table, [n_total] being the number of subject ids that are not
    missing: the partition table it reads back has these rows' subject
    ids in the same order, indexed 0, 1, 2, ..., and every label is
    train, validation or inference.  When no subject id is missing,
    every subject of the file table is labelled exactly once; when one
    is, the last rows of the file table get no label. *)
Theorem new_split_labels_every_subject (st : State) (fl : DataFrame) (v i : Q) :
  _file_list (self st) = Some fl →
  ratios (self st) = Some [Num v; Num i] →
  let r := randomly_split_dataset true st in
  let n_total := length (filter (λ c, c ≠ None) (subject_ids fl)) in
  ∃ ids, _partition_ids (self r.1) = Some ids
    ∧ length ids = n_total
    ∧ prow_id <$> ids = take n_total (subject_ids fl)
    ∧ prow_label <$> ids = seq 0 n_total
    ∧ Forall (λ row, ∃ p, p ∈ three_phases ∧ prow_phase row = Some p) ids
    ∧ (None ∉ subject_ids fl →
       length ids = length (rows fl) ∧ prow_id <$> ids = subject_ids fl)
    ∧ (None ∈ subject_ids fl → (length ids < length (rows fl))%nat).
Proof.
  intros Hfl Hr r n_total.
  destruct (new_split_state st fl v i Hfl Hr)
    as (_ & Hlen & Hle & Hperm & Hids & _ & _).
  assert (Hn : Z.to_nat (count fl) = n_total).
  { unfold count, count_cells. apply Nat2Z.id. }
  rewrite Hn in Hlen.
  eexists. split; [exact Hids|].
  assert (Hlen_ids : length (partition_of_csv
            (zip (subject_ids fl)
               (Some <$> shuffled (random_source (world st))
                           (random_draws (world st))
                           (split_labels (count fl) v i)))) = n_total).
  { unfold partition_of_csv. rewrite length_imap, length_zip, length_fmap.
    lia. }
  assert (Hids_eq : prow_id <$> partition_of_csv
            (zip (subject_ids fl)
               (Some <$> shuffled (random_source (world st))
                           (random_draws (world st))
                           (split_labels (count fl) v i)))
          = take n_total (subject_ids fl)).
  { by rewrite partition_of_csv_ids, fst_zip_take, length_fmap, Hlen. }
  assert (Hrows : length (subject_ids fl) = length (rows fl))
    by (unfold subject_ids; apply length_fmap).
  split_and!.
  - done.
  - done.
  - rewrite partition_of_csv_labels, length_zip, length_fmap. f_equal. lia.
  - apply (Forall_fmap prow_phase
             (λ c, ∃ p, p ∈ three_phases ∧ c = Some p)).
    rewrite partition_of_csv_phases, snd_zip by (rewrite length_fmap; lia).
    apply Forall_fmap. rewrite Hperm.
    eapply Forall_impl; [apply split_labels_supported, count_nonneg|].
    intros p Hp. by exists p.
  - intros Hnone.
    pose proof (count_rows fl Hnone) as Hc. unfold count, count_cells in Hc.
    apply Nat2Z.inj in Hc. fold n_total in Hc.
    split; [congruence|].
    rewrite Hids_eq, Hc, <- Hrows. apply take_ge. lia.
  - intros Hnone. rewrite Hlen_ids, <- Hrows. subst n_total.
    clear -Hnone. induction (subject_ids fl) as [|c cs IH].
    + by apply elem_of_nil in Hnone.
    + destruct c as [x|].
      * rewrite filter_cons_True by done. cbn [length].
        apply elem_of_cons in Hnone as [?|Hnone]; [done|].
        specialize (IH Hnone). lia.
      * rewrite filter_cons_False by (intros H; by apply H). cbn [length].
        pose proof (length_filter (λ c : option string, c ≠ None) cs). lia.
Qed.

Lemma new_split_labels_every_subject_witness :
  (let r := randomly_split_dataset true overlapping_ratios_state in
   ∃ ids, _partition_ids (self r.1) = Some ids
     ∧ prow_id <$> ids = [Some "s1"; Some "s2"; Some "s3"])
  ∧ (let st := mkState (mkPartitioner (Some gap_subjects) None one_section
                          (Some [Num (1 # 2); Num (1 # 2)]) true "new.csv")
                       environment in
     let r := randomly_split_dataset true st in
     ∃ ids, _partition_ids (self r.1) = Some ids
       ∧ prow_id <$> ids = [Some "s1"]
       ∧ length (rows gap_subjects) = 2%nat).
Proof.
  split.
  - intros r.
    pose proof (new_split_labels_every_subject overlapping_ratios_state
                  three_subjects (2 # 3) (2 # 3) eq_refl eq_refl) as H.
    cbv zeta in H. destruct H as (ids & Hids & _ & _ & _ & _ & Hsub & _).
    exists ids. split; [exact Hids|].
    apply Hsub. by apply (bool_decide_unpack _); vm_compute.
  - intros st r.
    pose proof (new_split_labels_every_subject st gap_subjects (1 # 2) (1 # 2)
                  eq_refl eq_refl) as H.
    cbv zeta in H. destruct H as (ids & Hids & _ & Hsub & _).
    exists ids. split_and!; [exact Hids | | done].
    etrans; [exact Hsub | by vm_compute].
Defined.

(** X16.  After a new split of a file table in which no subject id is
    missing, the counts by phase are those of the label list: train gets
    [max(0, n_train)] subjects, validation [n_valid] (at most all of
    them), inference what is left of [n_infer] once validation is
    served; the three counts add up to the count for "all". *)
Theorem counts_after_new_split (st : State) (fl : DataFrame) (v i : Q) :
  _file_list (self st) = Some fl →
  ratios (self st) = Some [Num v; Num i] →
  None ∉ subject_ids fl →
  let s' := self (randomly_split_dataset true st).1 in
  let n_total := Z.of_nat (length (rows fl)) in
  let n_valid := ceil_count n_total (clamp (binary64 v)) in
  let n_infer := ceil_count n_total (clamp (binary64 i)) in
  number_of_subjects s' ALL = Returns n_total
  ∧ number_of_subjects s' TRAIN = Returns (Z.max 0 (n_total - n_infer - n_valid))
  ∧ number_of_subjects s' VALID = Returns (Z.min n_valid n_total)
  ∧ number_of_subjects s' INFER
    = Returns (Z.min n_infer (Z.max 0 (n_total - n_valid)))
  ∧ Z.max 0 (n_total - n_infer - n_valid) + Z.min n_valid n_total
    + Z.min n_infer (Z.max 0 (n_total - n_valid)) = n_total.
Proof.
  intros Hfl Hr Hnone s' n_total n_valid n_infer.
  destruct (new_split_state st fl v i Hfl Hr)
    as (_ & Hlen & Hle & Hperm & Hids & Hfl' & _).
  fold s' in Hids, Hfl'.
  assert (Hcount : count fl = n_total) by by apply count_rows.
  rewrite Hcount in *.
  assert (Hn : 0 ≤ n_total) by (unfold n_total; lia).
  pose proof (ceil_count_nonneg n_total (clamp (binary64 v)) Hn
                (proj1 (clamp_bounds _))) as Hv.
  pose proof (ceil_count_nonneg n_total (clamp (binary64 i)) Hn
                (proj1 (clamp_bounds _))) as Hi.
  fold n_valid in Hv. fold n_infer in Hi.
  destruct (occurrences_truncated n_total n_valid n_infer) as (Ht & Hva & Hin);
    [lia..|].
  set (phases := shuffled (random_source (world st)) (random_draws (world st))
                          (split_labels n_total v i)) in *.
  assert (Hpresent : Forall (λ r, prow_id r ≠ None)
            (partition_of_csv (zip (subject_ids fl) (Some <$> phases)))).
  { apply (Forall_fmap prow_id (λ c, c ≠ None)).
    rewrite partition_of_csv_ids, fst_zip_take.
    apply Forall_forall. intros c Hc ->. apply Hnone.
    eapply elem_of_sublist; [exact Hc | apply sublist_take]. }
  assert (Hphase : ∀ phase, phase ∈ three_phases →
            number_of_subjects s' phase
            = Returns (occurrences phase
                         (truncated_phases n_total n_valid n_infer))).
  { intros phase Hphase.
    rewrite (number_of_subjects_phase s' fl _ phase Hfl' Hids Hphase).
    f_equal. rewrite count_cells_labelled.
    trans (Z.of_nat (length (filter (λ r, prow_phase r = Some phase)
             (partition_of_csv (zip (subject_ids fl) (Some <$> phases)))))).
    { f_equal. f_equal. clear -Hpresent.
      induction Hpresent as [|r ids Hr _ IH]; [done|].
      rewrite !filter_cons, IH.
      destruct (decide (prow_phase r = Some phase)) as [Hp|Hp].
      - by rewrite decide_True by done.
      - by rewrite decide_False by (intros [? _]; done). }
    rewrite length_filter_phase, partition_of_csv_phases.
    rewrite snd_zip by (rewrite length_fmap; lia).
    rewrite occurrences_Some.
    by rewrite (occurrences_Permutation phase _ _ Hperm). }
  assert (Hthree : TRAIN ∈ three_phases ∧ VALID ∈ three_phases
                   ∧ INFER ∈ three_phases).
  { unfold three_phases. rewrite !elem_of_cons. tauto. }
  destruct Hthree as (Htr & Hvl & Hif).
  split_and!.
  - rewrite <- Hcount. by apply number_of_subjects_all.
  - by rewrite (Hphase TRAIN Htr), Ht.
  - by rewrite (Hphase VALID Hvl), Hva.
  - by rewrite (Hphase INFER Hif), Hin.
  - lia.
Qed.

Lemma counts_after_new_split_witness :
  let s' := self (randomly_split_dataset true tenth_ratios_state).1 in
  number_of_subjects s' TRAIN = Returns 8
  ∧ number_of_subjects s' VALID = Returns 1
  ∧ number_of_subjects s' INFER = Returns 1
  ∧ number_of_subjects s' ALL = Returns 10.
Proof.
  intros s'.
  pose proof (counts_after_new_split tenth_ratios_state ten_subjects
                (1 # 10) (1 # 10) eq_refl eq_refl) as H.
  cbv zeta in H.
  destruct H as (Ha & Ht & Hv & Hi & _);
    [by apply (bool_decide_unpack _); vm_compute|].
  split_and!.
  - etrans; [exact Ht | by vm_compute].
  - etrans; [exact Hv | by vm_compute].
  - etrans; [exact Hi | by vm_compute].
  - etrans; [exact Ha | by vm_compute].
Defined.

End NewSplit.

(** ** What a returning [initialise] leaves *)

Section InitialiseReturns.

Lemma load_returns_well_shaped (st : State) :
  (load_data_sections_by_subject st).2 = Returns tt →
  ∃ fl, _file_list (self (load_data_sections_by_subject st).1) = Some fl
    ∧ rows fl ≠ []
    ∧ well_shaped (data_param (self st)).*1 (Some fl).
Proof.
  rewrite load_data_sections_by_subject_eq.
  destruct (data_param (self st)) as [|d ds] eqn:Hd; [done|].
  pose proof (load_sections_well_shaped (d :: ds).*1 []
                (mkState (set_file_list None (self st)) (world st)) eq_refl)
    as Hshape.
  destruct (load_sections _ _) as [st1 [[]|e]]; cbn [fst snd] in *; [|done].
  specialize (Hshape eq_refl).
  destruct (_file_list (self st1)) as [fl|] eqn:Hfl; [|done].
  destruct (frame_size fl =? 0) eqn:E; [done|]. intros _.
  exists fl. cbn [fst]. split_and!; [done| |done].
  intros Hnil. apply frame_size_zero in Hnil. congruence.
Qed.

(** What a returning [initialise] in overwrite mode leaves behind. *)
Lemma initialise_overwrite_returns (d : list (string * SectionCfg)) (f : string)
    (r : option (list RatioItem)) (st st1 : State) :
  initialise d true f r st = (st1, Returns tt) →
  ∃ fl csv,
    _file_list (self st1) = Some fl
    ∧ files (world st1) !! f = Some (CsvFile csv)
    ∧ _partition_ids (self st1) = Some (partition_of_csv csv)
    ∧ file_matcher (world st1) = file_matcher (world st).
Proof.
  rewrite initialise_eq.
  pose proof (load_data_sections_frame (reset_state st d f r))
    as ((_ & Hr & _ & Hf & Hm & _) & _ & _ & _ & Hret).
  destruct (load_data_sections_by_subject _) as [sa [[]|e]]; [|done].
  cbn [fst snd] in *. destruct (Hret eq_refl) as [[fl Hfl] _]. clear Hret.
  cbn [reset_state self world ratios data_split_file file_matcher] in Hr, Hf, Hm.
  set (sa' := mkState (set_new_partition true (self sa)) (world sa)).
  destruct (clamped_fractions (ratios (self sa'))) as [fr|e] eqn:Hfr.
  2:{ by rewrite (randomly_split_dataset_malformed sa' e Hfr). }
  destruct (clamped_fractions_returns _ _ Hfr) as (v & i & Hr' & _).
  rewrite (randomly_split_dataset_overwrite sa' fl v i Hfl Hr').
  intros [= <-]. eexists fl, _.
  cbn [with_log self world files file_matcher set_partition_ids add_log
       set_file add_draws
       set_new_partition _file_list _partition_ids data_split_file].
  rewrite Hf. split_and!; [done| |done|done].
  apply (lookup_insert_eq (files (world sa))).
Qed.

(** X17.  A split that was just created is replayed by the next run:
    after a returning [initialise] with [new_partition=True], a
    returning [initialise] with [new_partition=False] on the same
    sections and split file reads back the same partition table,
    whatever ratios it is given, provided the split file is not a csv
    file that a searched section rewrites. *)
Theorem new_split_is_replayed (d : list (string * SectionCfg)) (f : string)
    (r r' : option (list RatioItem)) (st st1 st2 : State) :
  initialise d true f r st = (st1, Returns tt) →
  last_write (file_matcher (world st)) d d.*1 f = None →
  initialise d false f r' st1 = (st2, Returns tt) →
  is_Some (_partition_ids (self st1))
  ∧ _partition_ids (self st2) = _partition_ids (self st1)
  ∧ files (world st2) !! f = files (world st1) !! f.
Proof.
  intros H1 Hfree H2.
  destruct (initialise_overwrite_returns d f r st st1 H1)
    as (fl & csv & _ & Hfile & Hids & Hm).
  destruct (initialise_load_returns d f r' st1 st2 H2)
    as (Hids2 & _ & _ & _ & Hfiles2).
  assert (Hsame : files (world st2) !! f = files (world st1) !! f).
  { rewrite Hfiles2. unfold overwritten. by rewrite Hm, Hfree. }
  split_and!; [by rewrite Hids| |done].
  rewrite Hids2, Hids. unfold read_partition. by rewrite Hsame, Hfile.
Qed.

Lemma new_split_is_replayed_witness :
  let st1 := (initialise one_section true "new.csv"
                (Some [Num (1 # 3); Num (1 # 3)]) start).1 in
  let st2 := (initialise one_section false "new.csv" None st1).1 in
  _partition_ids (self st2) = _partition_ids (self st1)
  ∧ _partition_ids (self st1)
    = Some (partition_of_csv
              (present [("s1", "inference"); ("s2", "validation");
                        ("s3", "train")])).
Proof.
  intros st1 st2.
  destruct (new_split_is_replayed one_section "new.csv"
              (Some [Num (1 # 3); Num (1 # 3)]) None start st1 st2)
    as (_ & Hsame & _); [by vm_compute..|].
  split; [exact Hsame | by vm_compute].
Defined.

(** X18.  When [initialise] returns, the singleton holds the arguments
    of the call, the section list was not empty, the file table is there
    with at least one row and one column per section, the count for
    "all" is the number of its subject ids that are not missing, and the
    summary is the last thing logged.  In overwrite mode the split file
    exists and the partition table is what was read back from it; in
    load mode the partition table is the split file as found, or absent
    when there is no such file or it does not parse. *)
Theorem initialise_postcondition (d : list (string * SectionCfg)) (np : bool)
    (f : string) (r : option (list RatioItem)) (st st1 : State) :
  initialise d np f r st = (st1, Returns tt) →
  data_param (self st1) = d
  ∧ new_partition (self st1) = np
  ∧ data_split_file (self st1) = f
  ∧ ratios (self st1) = r
  ∧ d ≠ []
  ∧ (∃ fl, _file_list (self st1) = Some fl ∧ rows fl ≠ []
           ∧ columns fl = d.*1
           ∧ number_of_subjects (self st1) ALL
             = Returns (Z.of_nat (length (filter (λ c, c ≠ None)
                                                 (subject_ids fl))))
           ∧ (length (filter (λ c, c ≠ None) (subject_ids fl))
              ≤ length (rows fl))%nat)
  ∧ last (log (world st1)) = Some (INFO, Summary)
  ∧ _partition_ids (self st1) = read_partition (files (world st1)) f
  ∧ (np = true → is_Some (_partition_ids (self st1))).
Proof.
  intros Hinit.
  assert (Hmode : _partition_ids (self st1) = read_partition (files (world st1)) f
                  ∧ (np = true → is_Some (_partition_ids (self st1)))).
  { destruct np.
    - destruct (initialise_overwrite_returns d f r st st1 Hinit)
        as (fl & csv & _ & Hfile & Hids & _).
      unfold read_partition. rewrite Hfile, Hids. by split.
    - destruct (initialise_load_returns d f r st st1 Hinit) as (Hids & _).
      by split. }
  assert (Hne : d ≠ []).
  { intros ->. rewrite initialise_eq, load_data_sections_by_subject_eq in Hinit.
    cbn in Hinit. discriminate. }
  rewrite initialise_eq in Hinit.
  pose proof (load_data_sections_frame (reset_state st d f r))
    as ((Hd & Hr & _ & Hf & _) & _).
  pose proof (load_returns_well_shaped (reset_state st d f r)) as Hshape.
  destruct (load_data_sections_by_subject _) as [sa [[]|e]]; [|done].
  cbn [fst snd reset_state self world data_param ratios data_split_file] in *.
  destruct (Hshape eq_refl) as (fl & Hfl & Hrows & Hcols & _).
  pose proof (randomly_split_dataset_frame np
                (mkState (set_new_partition np (self sa)) (world sa)))
    as (Hfl' & (Hd' & Hr' & Hnp' & Hf' & _) & _).
  destruct (randomly_split_dataset np _) as [sb [[]|e]]; [|done].
  injection Hinit as <-.
  cbn [fst snd with_log self world log set_new_partition data_param ratios
       new_partition data_split_file _file_list add_log] in *.
  split_and!; try congruence.
  - exists fl. rewrite Hfl'.
    split_and!; [done|done|done| |].
    + apply number_of_subjects_all. by rewrite Hfl'.
    + pose proof (length_filter (λ c : option string, c ≠ None) (subject_ids fl))
        as Hle.
      unfold subject_ids in Hle at 2. by rewrite length_fmap in Hle.
  - by rewrite last_snoc.
  - by destruct Hmode.
  - by destruct Hmode.
Qed.

Lemma initialise_postcondition_witness :
  let st1 := (initialise two_sections false "split.csv" None start).1 in
  data_param (self st1) = two_sections
  ∧ ∃ fl, _file_list (self st1) = Some fl ∧ columns fl = ["T1"; "T2"]
          ∧ number_of_subjects (self st1) ALL = Returns 2.
Proof.
  intros st1.
  destruct (initialise_postcondition two_sections false "split.csv" None
              start st1)
    as (Hd & _ & _ & _ & _ & (fl & Hfl & _ & Hcols & Hall & _) & _);
    [by vm_compute|].
  split; [exact Hd|]. exists fl. split_and!; [exact Hfl | exact Hcols |].
  by vm_compute.
Defined.

End InitialiseReturns.

(** ** Failures that leave something behind *)

Section Failures.





(** X20.  The checks of [get_file_list] come in a fixed order and a
    failed query only logs.  Without a file table every query raises a
    [RuntimeError], whatever the phase and the selection.  With a file
    table and no partition table, every query for a phase other than
    "all" raises a [ValueError] after logging that no partition ids are
    available, followed by one diagnostic: that no partition could be
    created when [new_partition] is set, else that the split file could
    not be loaded when that file exists, else nothing more. *)
Theorem get_file_list_failures (st : State) (phase : string) :
  (_file_list (self st) = None →
   ∀ section_names,
     get_file_list phase section_names st
     = (with_log st [(FATAL, PleaseInitialise)], Raises RuntimeError))
  ∧ (∀ fl, _file_list (self st) = Some fl →
       _partition_ids (self st) = None → phase ≠ ALL →
       get_file_list phase [] st
       = (with_log st
            ((FATAL, NoPartitionIds)
             :: if new_partition (self st)
                then [(FATAL, UnableToCreatePartitions (ratios (self st))
                                (data_split_file (self st)))]
                else match files (world st) !! data_split_file (self st) with
                     | Some _ => [(FATAL, UnableToLoad (data_split_file (self st)))]
                     | None => []
                     end),
          Raises ValueError)).
Proof.
  destruct st as [s w]. cbn [self world]. split.
  - intros Hfl names. unfold get_file_list, with_log. mrun. by rewrite Hfl.
  - intros fl Hfl Hids Hphase. unfold get_file_list, with_log. mrun.
    rewrite Hfl, Hids. mrun. rewrite decide_False by done. mrun.
    destruct (new_partition s); mrun.
    + by rewrite <- app_assoc.
    + destruct (files w !! data_split_file s) as [file|] eqn:Hfile.
      * rewrite bool_decide_eq_true_2 by eauto. mrun. by rewrite <- app_assoc.
      * rewrite bool_decide_eq_false_2 by (intros [? ?]; congruence). by mrun.
Qed.

Lemma get_file_list_failures_witness :
  get_file_list TRAIN [] broken_split_state
  = (with_log broken_split_state
       [(FATAL, NoPartitionIds); (FATAL, UnableToLoad "broken.csv")],
     Raises ValueError)
  ∧ get_file_list TRAIN ["T1"] start
    = (with_log start [(FATAL, PleaseInitialise)], Raises RuntimeError).
Proof.
  split.
  - destruct (get_file_list_failures broken_split_state TRAIN) as [_ H].
    by apply (H three_subjects).
  - destruct (get_file_list_failures start TRAIN) as [H _]. by apply H.
Defined.

End Failures.
